(** * component-insight: export resolution, implementation tracing,
      dependency context and batch orchestration

    A shallow embedding of the analyzer of [src/cli.ts] and of the
    dependency scan of [src/parser.ts], with the properties of the
    specification proved (or refuted) on it.

    Conventions.
    - A JavaScript string is a [string]; each [ascii] stands for one code
      unit.  The CJK text of the source's markers is kept verbatim, so the
      model length of those constants is their UTF-8 length.
    - [Map<string,string>] is a [gmap string string]; [Set<string>] is a
      [gset string]; arrays are lists.
    - Babel's [parse] followed by [traverse] is a parameter: it yields the
      nodes on which the source registers a visitor, in the depth-first
      order in which [traverse] reaches them, or nothing when the parser
      throws.
    - A recursion the source does not bound takes a budget, and [OutOfFuel]
      under every budget stands for a call that does not return.
    - Node's [path] module is a parameter as well; a POSIX instance is
      given for the worked examples.

    The second part of the definitions covers the rest of the tool: the
    command line of [src/cli.ts], the functional API of [src/index.ts], the
    reports of [src/reporter.ts], the URL checks of [src/git.ts], and the
    cache and the model client of [src/cache.ts].  There,
    - a record follows the declared type, an optional property being an
      [option]; where an object is spread, a key that holds [undefined] is
      told from a key that is absent;
    - a plain object used as a dictionary is the [gmap] of its own
      properties, and the members it inherits from [Object.prototype] are
      listed where the code can reach them;
    - a [Map] whose order is read is a list of entries in insertion order;
    - a call that throws yields [None], and [process.exit] is an outcome of
      its own;
    - the file system, the clock, the network client and the MD5 digest are
      parameters or explicit state. *)

From Stdlib Require Import String Ascii List ZArith Lia Bool.
From Stdlib Require Import DecimalString.
From stdpp Require Import base gmap strings list fin_maps.
Import ListNotations.
Local Open Scope string_scope.

Set Warnings "-abstract-large-number,-register-all,-clear-no-such-hyp".

(** ** Strings *)

Module Str.

Definition chars (s : string) : list ascii := list_ascii_of_string s.
Definition of_chars (l : list ascii) : string := string_of_list_ascii l.

Definition code (c : ascii) : nat := nat_of_ascii c.

Definition between (lo hi : nat) (c : ascii) : bool :=
  (lo <=? code c)%nat && (code c <=? hi)%nat.

Definition is_upper : ascii -> bool := between 65 90.
Definition is_lower : ascii -> bool := between 97 122.
Definition is_digit : ascii -> bool := between 48 57.
Definition is_alpha (c : ascii) : bool := is_upper c || is_lower c.
Definition is_alnum (c : ascii) : bool := is_alpha c || is_digit c.

(** [\w] *)
Definition is_word (c : ascii) : bool := is_alnum c || (code c =? 95)%nat.

(** [\s], on the code units the model carries *)
Definition is_space (c : ascii) : bool :=
  between 9 13 c || (code c =? 32)%nat || (code c =? 160)%nat.

(** what [.] excludes *)
Definition is_line_terminator (c : ascii) : bool :=
  (code c =? 10)%nat || (code c =? 13)%nat.

Definition to_upper (c : ascii) : ascii :=
  if is_lower c then ascii_of_nat (code c - 32) else c.

Definition eqb_ci (a b : ascii) : bool := Ascii.eqb (to_upper a) (to_upper b).

(** [s.startsWith(p)] *)
Definition startsWith (p s : string) : bool := String.prefix p s.

(** [s.substring(0, n)] *)
Definition take (n : nat) (s : string) : string := String.substring 0 n s.

(** [s.substring(n)] *)
Definition drop (n : nat) (s : string) : string :=
  String.substring n (String.length s - n) s.

(** template-literal rendering of a non-negative integer *)
Definition of_nat (n : nat) : string := NilEmpty.string_of_uint (Nat.to_uint n).

(** [xs.includes(x)] on strings *)
Definition included (x : string) (xs : list string) : bool :=
  existsb (String.eqb x) xs.

End Str.

(** ** Regular expressions

    The fragment of JavaScript's regular expressions the analyzer uses: a
    backtracking matcher that explores alternatives in the engine's priority
    order (left alternative first, greedy repetition), so that the first
    success is the match [exec] reports. *)

Module Regex.

Inductive regex : Type :=
| Eps
| Cls (p : ascii -> bool)
| Seq (r1 r2 : regex)
| Alt (r1 r2 : regex)
| Star (r : regex)
| Bol
| Eol
| WordBoundary
| Group (r : regex).

Definition any_of (cs : string) : ascii -> bool :=
  fun c => existsb (Ascii.eqb c) (Str.chars cs).
Definition none_of (cs : string) : ascii -> bool :=
  fun c => negb (any_of cs c).

(** [.] *)
Definition Dot : regex := Cls (fun c => negb (Str.is_line_terminator c)).
(** [\s] *)
Definition Space : regex := Cls Str.is_space.
Definition Plus (r : regex) : regex := Seq r (Star r).
Definition Opt (r : regex) : regex := Alt r Eps.

Fixpoint seqs (rs : list regex) : regex :=
  match rs with
  | [] => Eps
  | [r] => r
  | r :: rs' => Seq r (seqs rs')
  end.

Fixpoint alts (rs : list regex) : regex :=
  match rs with
  | [] => Cls (fun _ => false)
  | [r] => r
  | r :: rs' => Alt r (alts rs')
  end.

(** a literal, and the same literal under the [i] flag *)
Definition Lit (s : string) : regex :=
  seqs (map (fun c => Cls (Ascii.eqb c)) (Str.chars s)).
Definition LitI (s : string) : regex :=
  seqs (map (fun c => Cls (Str.eqb_ci c)) (Str.chars s)).

(** [[a-z]] under the [i] flag is every letter *)
Definition LetterI : regex := Cls Str.is_alpha.

Section Matcher.
Context {R : Type}.

(** the text before the position (most recent first), the text after
    it, and the capture of the group so far *)
Definition cont : Type :=
  list ascii -> list ascii -> option (list ascii) -> option R.

Definition at_boundary (before rest : list ascii) : bool :=
  xorb (match before with c :: _ => Str.is_word c | [] => false end)
       (match rest with c :: _ => Str.is_word c | [] => false end).

Fixpoint rmatch (r : regex) (before rest : list ascii)
         (cap : option (list ascii)) (k : cont) {struct r} : option R :=
  match r with
  | Eps => k before rest cap
  | Cls p =>
      match rest with
      | c :: rest' => if p c then k (c :: before) rest' cap else None
      | [] => None
      end
  | Seq r1 r2 => rmatch r1 before rest cap (fun b s c => rmatch r2 b s c k)
  | Alt r1 r2 =>
      match rmatch r1 before rest cap k with
      | Some x => Some x
      | None => rmatch r2 before rest cap k
      end
  | Star r1 =>
      (fix loop (n : nat) (before rest : list ascii)
           (cap : option (list ascii)) {struct n} : option R :=
         match n with
         | O => k before rest cap
         | S n' =>
             match rmatch r1 before rest cap
                     (fun b s c =>
                        if (length s <? length rest)%nat
                        then loop n' b s c else None) with
             | Some x => Some x
             | None => k before rest cap
             end
         end) (length rest) before rest cap
  | Bol => match before with [] => k before rest cap | _ :: _ => None end
  | Eol => match rest with [] => k before rest cap | _ :: _ => None end
  | WordBoundary =>
      if at_boundary before rest then k before rest cap else None
  | Group r1 =>
      rmatch r1 before rest cap
        (fun b s _ => k b s (Some (firstn (length rest - length s) rest)))
  end.
End Matcher.

(** One [exec] attempt scanning forward from a position: the capture of the
    leftmost match and the position just after it. *)
Fixpoint search (r : regex) (before rest : list ascii)
  : option (option (list ascii) * list ascii * list ascii) :=
  match rmatch r before rest None (fun b s c => Some (c, b, s)) with
  | Some m => Some m
  | None =>
      match rest with
      | [] => None
      | c :: rest' => search r (c :: before) rest'
      end
  end.

(** [re.test(s)] for a regular expression without the [g] flag *)
Definition test (r : regex) (s : string) : bool :=
  match search r [] (Str.chars s) with Some _ => true | None => false end.

(** The captures [m[1]] of [while ((m = re.exec(s)) !== null)] for a
    [g]-flagged expression whose matches are never empty: each round
    resumes at [lastIndex], the end of the previous match. *)
Fixpoint exec_loop (n : nat) (r : regex) (before rest : list ascii)
  : list string :=
  match n with
  | O => []
  | S n' =>
      match search r before rest with
      | None => []
      | Some (c, b, s) =>
          Str.of_chars (default [] c) :: exec_loop n' r b s
      end
  end.

Definition exec_all (r : regex) (s : string) : list string :=
  exec_loop (S (String.length s)) r [] (Str.chars s).

End Regex.

Import Regex.

(** ** Name filters ([cli.ts], isPascalCase and isLikelyComponent) *)

(** [/^[A-Z][a-zA-Z0-9]*$/] *)
Definition pascalCasePattern : regex :=
  seqs [Bol; Cls Str.is_upper; Star (Cls Str.is_alnum); Eol].

Definition isPascalCase (name : string) : bool := test pascalCasePattern name.

(** The [utilPatterns] table, in the source's order. *)
Definition utilPatterns : list regex :=
  [ (* /^(create|make|build|generate|get|set|is|has|can|should|will|use)[A-Z]/ *)
    seqs [Bol;
          alts (map Lit ["create"; "make"; "build"; "generate"; "get"; "set";
                         "is"; "has"; "can"; "should"; "will"; "use"]);
          Cls Str.is_upper];
    (* /^(format|parse|validate|transform|convert)[A-Z]/ *)
    seqs [Bol;
          alts (map Lit ["format"; "parse"; "validate"; "transform"; "convert"]);
          Cls Str.is_upper];
    (* /^[a-z]+Utils?$/i *)
    seqs [Bol; Plus LetterI; LitI "Util"; Opt (LitI "s"); Eol];
    (* /^[a-z]+Helper$/i *)
    seqs [Bol; Plus LetterI; LitI "Helper"; Eol];
    (* /^[a-z]+Manager$/i *)
    seqs [Bol; Plus LetterI; LitI "Manager"; Eol];
    (* /^[a-z]+Service$/i *)
    seqs [Bol; Plus LetterI; LitI "Service"; Eol];
    (* /Config$/ *)
    seqs [Lit "Config"; Eol];
    (* /Constants?$/i *)
    seqs [LitI "Constant"; Opt (LitI "s"); Eol];
    (* /Types?$/i *)
    seqs [LitI "Type"; Opt (LitI "s"); Eol];
    (* /Enum$/i *)
    seqs [LitI "Enum"; Eol] ].

(** The [utilProviders] table. *)
Definition utilProviders : list regex :=
  map (fun p => seqs [Bol; Lit p; Star Dot; Lit "Provider"; Eol])
      ["Api"; "Http"; "Data"; "Service"].

(** The four expressions built from the name with [new RegExp(..., 'i')];
    the name reaches them only after [isPascalCase], so it is a literal. *)
Definition typeAliasPattern (name : string) : regex :=
  seqs [LitI "export"; Plus Space; LitI "type"; Plus Space; LitI name;
        Star Space; Lit "="].
Definition interfacePattern (name : string) : regex :=
  seqs [LitI "export"; Plus Space; LitI "interface"; Plus Space; LitI name].
Definition bracedExportPattern (name : string) : regex :=
  seqs [LitI "export"; Star Space; Lit "{"; Star (Cls (none_of "}"));
        WordBoundary; LitI name; WordBoundary; Star (Cls (none_of "}"));
        Lit "}"].
Definition defaultExportPattern (name : string) : regex :=
  seqs [LitI "export"; Plus Space; LitI "default"; Plus Space; LitI name].

Definition isLikelyComponent (name indexContent : string) : bool :=
  let isOnlyTypeExport :=
    test (typeAliasPattern name) indexContent
    || test (interfacePattern name) indexContent in
  let hasComponentExport :=
    test (bracedExportPattern name) indexContent
    || test (defaultExportPattern name) indexContent in
  if isOnlyTypeExport && negb hasComponentExport then false
  else if existsb (fun p => test p name) utilPatterns then false
  else if test (seqs [Lit "Provider"; Eol]) name
          && existsb (fun p => test p name) utilProviders then false
  else true.

(** ** Batch size ([cli.ts], calculateOptimalBatchSize) *)

Definition calculateOptimalBatchSize (totalComponents : nat) : nat :=
  if (totalComponents <=? 10)%nat then 2
  else if (totalComponents <=? 30)%nat then 3
  else if (totalComponents <=? 60)%nat then 4
  else 5.

(** ** Source files and syntax trees *)

Record FileInfo : Type := mkFileInfo {
  path : string;
  content : string;
  size : nat;
  type : string;
  lastModified : Z
}.

(** [allFiles.find(file => file.path === p)] *)
Definition findByPath (p : string) (allFiles : list FileInfo) : option FileInfo :=
  find (fun file => String.eqb (path file) p) allFiles.

(** The name of an export specifier: an [Identifier] or a [StringLiteral]. *)
Inductive ModuleExportName : Type :=
| Identifier (name : string)
| StringLiteral (value : string).

Inductive ExportKind : Type := KindValue | KindType.

Inductive Specifier : Type :=
| ExportSpecifier (local exported : ModuleExportName) (exportKind : ExportKind)
| ExportDefaultSpecifier (exported : string)
| ExportNamespaceSpecifier (exported : ModuleExportName).

(** The callee of a call expression, as far as looksLikeComponentCall reads
    it: a member expression (with the names of its object and property when
    these are identifiers), an identifier, or anything else. *)
Inductive Callee : Type :=
| MemberExpression (object property : option string)
| CalleeIdentifier (name : string)
| CalleeOther.

(** The initializer of a variable declarator. *)
Inductive Init : Type :=
| FunctionExpression
| ArrowFunctionExpression
| CallExpression (callee : Callee)
| InitOther.

(** The declaration of an [export default]. *)
Inductive DefaultDeclaration : Type :=
| DefaultIdentifier (name : string)
| DefaultFunction (id : option string)
| DefaultOther.

(** The nodes on which a visitor is registered.  [id] is absent for an
    anonymous function or class, and for a declarator whose target is a
    pattern rather than an identifier.  Of the [declaration] of an
    [export function], [export class] or [export const], which no visitor
    reads, the node keeps the names it binds (none for an export list). *)
Inductive Node : Type :=
| FunctionDeclaration (id : option string)
| VariableDeclarator (id : option string) (init : Init)
| ClassDeclaration (id : option string)
| ExportNamedDeclaration (exportKind : ExportKind)
    (specifiers : list Specifier) (source : option string)
    (declaration : list string)
| ExportAllDeclaration (source : string)
| ExportDefaultDeclaration (declaration : DefaultDeclaration).

(** A computation that may exhaust the recursion budget of the model. *)
Inductive run (A : Type) : Type :=
| OutOfFuel
| Returned (a : A).
Arguments OutOfFuel {A}.
Arguments Returned {A} a.

Definition exportedNameOf (exported : ModuleExportName) : string :=
  match exported with
  | Identifier name => name
  | StringLiteral value => value
  end.

(** [localName] of the tracer: the local identifier, else the exported name *)
Definition localNameOf (local : ModuleExportName) (exportedName : string) : string :=
  match local with
  | Identifier name => name
  | StringLiteral _ => exportedName
  end.

Definition possibleExtensions : list string :=
  [".ts"; ".tsx"; ".js"; ".jsx";
   "/index.ts"; "/index.tsx"; "/index.js"; "/index.jsx"].

(** [for (const ext of exts) { find fullPath; if found return it }] *)
Fixpoint firstExisting (base : string) (exts : list string)
         (allFiles : list FileInfo) : option string :=
  match exts with
  | [] => None
  | ext :: exts' =>
      match findByPath (base ++ ext) allFiles with
      | Some foundFile => Some (path foundFile)
      | None => firstExisting base exts' allFiles
      end
  end.

(** [cli.ts], looksLikeComponentCall *)
Definition looksLikeComponentCall (init : Init) : bool :=
  match init with
  | CallExpression (MemberExpression (Some objectName) (Some propertyName)) =>
      if String.eqb objectName "React"
         && Str.included propertyName ["forwardRef"; "memo"; "lazy"]
      then true
      else String.eqb objectName "styled"
  | CallExpression (CalleeIdentifier name) =>
      Str.included name ["forwardRef"; "memo"; "lazy"]
  | _ => false
  end.

(** The dependency set of the tracer is a [Set<FileInfo>] whose members all
    come from [allFiles.find] by path, so two members are the same object
    exactly when their paths agree; insertion order is kept. *)
Definition addDependency (file : FileInfo) (deps : list FileInfo) : list FileInfo :=
  if existsb (fun d => String.eqb (path d) (path file)) deps then deps
  else deps ++ [file].

Record TraceState : Type := mkTraceState {
  visited : gset string;
  dependencies : list FileInfo
}.

(** The locals the visitors of one traversal write, with the dependency set
    they share with the enclosing call. *)
Record Traversal : Type := mkTraversal {
  foundImplementation : bool;
  nextTraceTarget : option (string * string);
  defaultAsTarget : option FileInfo;
  collected : list FileInfo
}.

Record TraceResult : Type := mkTraceResult {
  tr_name : string;
  tr_code : string;
  tr_path : string;
  tr_file : FileInfo;
  tr_dependencies : list FileInfo
}.

Section Analyzer.

(** Babel: the visited nodes of a file's text, [None] when parsing throws. *)
Variable parse : string -> option (list Node).
(** Node's [path.dirname], [path.resolve] (two arguments) and [path.basename]. *)
Variable path_dirname : string -> string.
Variable path_resolve : string -> string -> string.
Variable path_basename : string -> string.

(** [cli.ts], resolveFilePath *)
Definition resolveFilePath (relativePath indexPath : string)
           (allFiles : list FileInfo) : option string :=
  let cleanRelativePath :=
    if Str.startsWith "./" relativePath then Str.drop 2 relativePath
    else relativePath in
  let absolutePath := path_resolve (path_dirname indexPath) cleanRelativePath in
  firstExisting absolutePath possibleExtensions allFiles.

(** *** Implementation tracer ([cli.ts], traceComponentImplementation) *)

Definition setFound (t : Traversal) : Traversal :=
  mkTraversal true (nextTraceTarget t) (defaultAsTarget t) (collected t).

Definition setNext (target : string * string) (t : Traversal) : Traversal :=
  mkTraversal (foundImplementation t) (Some target) (defaultAsTarget t)
              (collected t).

(** the body of the loop over the specifiers of a re-export *)
Definition traceSpecifier (currentComponentName currentFilePath source : string)
           (allFiles : list FileInfo) (t : Traversal) (specifier : Specifier)
  : Traversal :=
  match specifier with
  | ExportSpecifier local exported _ =>
      let exportedName := exportedNameOf exported in
      let localName := localNameOf local exportedName in
      if String.eqb exportedName currentComponentName then
        match resolveFilePath source currentFilePath allFiles with
        | Some targetPath =>
            if String.eqb localName "default" then
              match findByPath targetPath allFiles with
              | Some targetFile =>
                  mkTraversal true (nextTraceTarget t) (Some targetFile)
                              (addDependency targetFile (collected t))
              | None => t
              end
            else setNext (localName, targetPath) t
        | None => t
        end
      else t
  | _ => t
  end.

(** the visitors, applied to one node *)
Definition traceVisit (currentComponentName currentFilePath : string)
           (allFiles : list FileInfo) (t : Traversal) (node : Node) : Traversal :=
  match node with
  | FunctionDeclaration (Some name) =>
      if String.eqb name currentComponentName then setFound t else t
  | FunctionDeclaration None => t
  | VariableDeclarator (Some name) init =>
      if String.eqb name currentComponentName then
        match init with
        | FunctionExpression | ArrowFunctionExpression => setFound t
        | _ => if looksLikeComponentCall init then setFound t else t
        end
      else t
  | VariableDeclarator None _ => t
  | ClassDeclaration (Some name) =>
      if String.eqb name currentComponentName then setFound t else t
  | ClassDeclaration None => t
  | ExportNamedDeclaration _ specifiers (Some source) _ =>
      fold_left (traceSpecifier currentComponentName currentFilePath source allFiles)
                specifiers t
  | ExportNamedDeclaration _ _ None _ => t
  | ExportAllDeclaration source =>
      match resolveFilePath source currentFilePath allFiles with
      | Some targetPath => setNext (currentComponentName, targetPath) t
      | None => t
      end
  | ExportDefaultDeclaration (DefaultIdentifier name) =>
      if String.eqb name currentComponentName then setFound t else t
  | ExportDefaultDeclaration (DefaultFunction (Some name)) =>
      if String.eqb name currentComponentName then setFound t else t
  | ExportDefaultDeclaration _ => t
  end.

(** [traverse(ast, visitors)] *)
Definition traceTraverse (currentComponentName currentFilePath : string)
           (allFiles : list FileInfo) (deps : list FileInfo) (ast : list Node)
  : Traversal :=
  fold_left (traceVisit currentComponentName currentFilePath allFiles) ast
            (mkTraversal false None None deps).

(** The inner [traceImplementation]; [None] in the result is [null]. *)
Fixpoint traceImplementation (fuel : nat) (allFiles : list FileInfo)
         (currentComponentName currentFilePath : string) (depth : nat)
         (st : TraceState) : run (option FileInfo * TraceState) :=
  match fuel with
  | O => OutOfFuel
  | S fuel' =>
      if (10 <? depth)%nat then Returned (None, st)
      else if decide (currentFilePath ∈ visited st) then Returned (None, st)
      else
        let seen := {[currentFilePath]} ∪ visited st in
        match findByPath currentFilePath allFiles with
        | None => Returned (None, mkTraceState seen (dependencies st))
        | Some currentFile =>
            let deps := addDependency currentFile (dependencies st) in
            match parse (content currentFile) with
            | None => Returned (Some currentFile, mkTraceState seen deps)
            | Some ast =>
                let t := traceTraverse currentComponentName currentFilePath
                                       allFiles deps ast in
                let st' := mkTraceState seen (collected t) in
                if foundImplementation t then
                  match defaultAsTarget t with
                  | Some target => Returned (Some target, st')
                  | None => Returned (Some currentFile, st')
                  end
                else
                  match nextTraceTarget t with
                  | Some (name, target) =>
                      traceImplementation fuel' allFiles name target (S depth) st'
                  | None => Returned (Some currentFile, st')
                  end
            end
        end
  end.

(** Calls at depth 0 to 10 do work and a call at depth 11 returns at once,
    so twelve nested calls are the most a run can make. *)
Definition traceFuel : nat := 12.

Definition traceComponentImplementation (componentName filePath : string)
           (allFiles : list FileInfo) : run (option TraceResult) :=
  match traceImplementation traceFuel allFiles componentName filePath 0
                            (mkTraceState ∅ []) with
  | OutOfFuel => OutOfFuel
  | Returned (Some implementationFile, st) =>
      Returned (Some (mkTraceResult componentName (content implementationFile)
                                    (path implementationFile) implementationFile
                                    (dependencies st)))
  | Returned (None, _) => Returned None
  end.

(** *** What a syntax tree says about a name

    The readings of a file's nodes in which the properties of the tracer
    are stated. *)

Definition componentInit (init : Init) : bool :=
  match init with
  | FunctionExpression | ArrowFunctionExpression => true
  | _ => looksLikeComponentCall init
  end.

(** the node declares [name]: a function, a class, a variable bound to a
    function or to a component-producing call, or the default export *)
Definition declaresNode (name : string) (node : Node) : bool :=
  match node with
  | FunctionDeclaration (Some n) => String.eqb n name
  | VariableDeclarator (Some n) init => String.eqb n name && componentInit init
  | ClassDeclaration (Some n) => String.eqb n name
  | ExportDefaultDeclaration (DefaultIdentifier n) => String.eqb n name
  | ExportDefaultDeclaration (DefaultFunction (Some n)) => String.eqb n name
  | _ => false
  end.

Definition declares (name : string) (ast : list Node) : bool :=
  existsb (declaresNode name) ast.

(** A re-export that can supply a name: a specifier exporting it (with the
    name it has in the source module), or a wildcard. *)
Inductive Candidate : Type :=
| NamedFrom (local source : string)
| WildcardFrom (source : string).

(** Where a candidate whose module resolves leads: to the module itself
    for a [default as], else to a further search under a name. *)
Inductive Target : Type :=
| DefaultAs (targetPath : string)
| Follow (name targetPath : string).

Definition specifierCandidate (name source : string) (specifier : Specifier)
  : list Candidate :=
  match specifier with
  | ExportSpecifier local exported _ =>
      if String.eqb (exportedNameOf exported) name
      then [NamedFrom (localNameOf local (exportedNameOf exported)) source]
      else []
  | _ => []
  end.

Definition reexportCandidates (name : string) (node : Node) : list Candidate :=
  match node with
  | ExportNamedDeclaration _ specifiers (Some source) _ =>
      flat_map (specifierCandidate name source) specifiers
  | ExportAllDeclaration source => [WildcardFrom source]
  | _ => []
  end.

Definition candidateSource (candidate : Candidate) : string :=
  match candidate with
  | NamedFrom _ source => source
  | WildcardFrom source => source
  end.

(** a candidate with its module resolved; dropped when it does not resolve *)
Definition resolveCandidate (name filePath : string) (allFiles : list FileInfo)
           (candidate : Candidate) : list Target :=
  match resolveFilePath (candidateSource candidate) filePath allFiles with
  | Some targetPath =>
      match candidate with
      | NamedFrom local _ =>
          if String.eqb local "default" then [DefaultAs targetPath]
          else [Follow local targetPath]
      | WildcardFrom _ => [Follow name targetPath]
      end
  | None => []
  end.

(** the resolvable re-exports of a file that can supply [name], in
    traversal order *)
Definition reexportTargets (name filePath : string) (allFiles : list FileInfo)
           (ast : list Node) : list Target :=
  flat_map (fun node => flat_map (resolveCandidate name filePath allFiles)
                                 (reexportCandidates name node)) ast.

Definition isDefaultAs (target : Target) : bool :=
  match target with
  | DefaultAs _ => true
  | Follow _ _ => false
  end.

(** the modules from which the file re-exports its [default as name] *)
Definition defaultSources (name : string) (ast : list Node) : list string :=
  flat_map (fun candidate =>
              match candidate with
              | NamedFrom local source =>
                  if String.eqb local "default" then [source] else []
              | WildcardFrom _ => []
              end)
           (flat_map (reexportCandidates name) ast).

(** the files of those modules, for the modules that resolve, in traversal
    order *)
Definition defaultTargetFiles (name filePath : string) (allFiles : list FileInfo)
           (ast : list Node) : list FileInfo :=
  omap (fun source =>
          match resolveFilePath source filePath allFiles with
          | Some targetPath => findByPath targetPath allFiles
          | None => None
          end)
       (defaultSources name ast).

(** [F] forwards [name] to [G] as [name']: [F] parses, declares no [name],
    re-exports no [default as name] that resolves, and the last of its
    resolvable re-exports able to supply [name] leads to [G] *)
Definition forwards (allFiles : list FileInfo) (name : string) (F : FileInfo)
           (name' : string) (G : FileInfo) : Prop :=
  exists ast,
    parse (content F) = Some ast
    /\ declares name ast = false
    /\ Forall (fun t => isDefaultAs t = false)
              (reexportTargets name (path F) allFiles ast)
    /\ last (reexportTargets name (path F) allFiles ast)
       = Some (Follow name' (path G)).

(** [F] implements [name]: it parses, declares [name], and re-exports no
    [default as name] that resolves *)
Definition implements (allFiles : list FileInfo) (name : string) (F : FileInfo)
  : Prop :=
  exists ast,
    parse (content F) = Some ast
    /\ declares name ast = true
    /\ Forall (fun t => isDefaultAs t = false)
              (reexportTargets name (path F) allFiles ast).

(** every member of a dependency set is the file the Source Index gives
    for its path *)
Definition indexed (allFiles : list FileInfo) (deps : list FileInfo) : Prop :=
  Forall (fun d => findByPath (path d) allFiles = Some d) deps.

(** the effect on the traversal of one resolvable re-export, and of a
    declaration of the name *)
Definition applyTarget (allFiles : list FileInfo) (t : Traversal)
           (target : Target) : Traversal :=
  match target with
  | DefaultAs targetPath =>
      match findByPath targetPath allFiles with
      | Some targetFile =>
          mkTraversal true (nextTraceTarget t) (Some targetFile)
                      (addDependency targetFile (collected t))
      | None => t
      end
  | Follow name targetPath => setNext (name, targetPath) t
  end.

Definition orFound (b : bool) (t : Traversal) : Traversal :=
  if b then setFound t else t.

(** the file a resolvable re-export gives as the implementation: that of a
    [default as], none for a re-export to follow *)
Definition targetFile (allFiles : list FileInfo) (target : Target)
  : option FileInfo :=
  match target with
  | DefaultAs targetPath => findByPath targetPath allFiles
  | Follow _ _ => None
  end.

(** *** Export graph resolver ([cli.ts], extractComponentInfoFromIndex) *)

(** The catch branch of extractComponentInfoFromIndex reads the text with
    regular expressions.  Two of its steps neither recurse nor depend on
    the resolver, and are parameters: the names that the loop over the four
    [exportPatterns] of extractComponentNamesFromIndexRegex pushes for a
    text, in order, and findComponentFile. *)
Variable regexExportNames : string -> list string.
Variable findComponentFile : string -> list FileInfo -> option FileInfo.

Definition is_quote (c : ascii) : bool :=
  (Str.code c =? 39)%nat || (Str.code c =? 34)%nat.

(** The pattern [/export\s+\*\s+from\s+Q([^Q]+)Q/g] of the catch branch,
    where the class [Q] holds the single and the double quote. *)
Definition exportStarPattern : regex :=
  seqs [Lit "export"; Plus Space; Lit "*"; Plus Space; Lit "from"; Plus Space;
        Cls is_quote; Group (Plus (Cls (fun c => negb (is_quote c))));
        Cls is_quote].

(** [for (ext) { found = allFiles.find(...); if (found) { targetFile = found; break } }] *)
Fixpoint firstExistingFile (base : string) (exts : list string)
         (allFiles : list FileInfo) : option FileInfo :=
  match exts with
  | [] => None
  | ext :: exts' =>
      match findByPath (base ++ ext) allFiles with
      | Some foundFile => Some foundFile
      | None => firstExistingFile base exts' allFiles
      end
  end.

(** the file extractComponentsFromReExport turns to *)
Definition reExportTarget (relativePath indexPath : string)
           (allFiles : list FileInfo) : option FileInfo :=
  let cleanRelativePath :=
    if Str.startsWith "./" relativePath then Str.drop 2 relativePath
    else relativePath in
  let absolutePath := path_resolve (path_dirname indexPath) cleanRelativePath in
  firstExistingFile absolutePath possibleExtensions allFiles.

(** [arr.filter((name, index) => arr.indexOf(name) === index)] *)
Fixpoint firstOccurrences (seen names : list string) : list string :=
  match names with
  | [] => []
  | name :: names' =>
      if Str.included name seen then firstOccurrences seen names'
      else name :: firstOccurrences (name :: seen) names'
  end.

(** The body of both loops over specifiers: [target] is the resolved module
    of a re-export (absent when unresolved) or the file itself. *)
Definition indexSpecifier (target : option string) (m : gmap string string)
           (specifier : Specifier) : gmap string string :=
  match specifier with
  | ExportSpecifier _ _ KindType => m
  | ExportSpecifier _ exported KindValue =>
      let exportedName := exportedNameOf exported in
      match target with
      | Some filePath =>
          if isPascalCase exportedName then <[exportedName := filePath]> m else m
      | None => m
      end
  | _ => m
  end.

(** the synchronous visitors, applied to one node *)
Definition indexVisit (indexPath : string) (allFiles : list FileInfo)
           (m : gmap string string) (node : Node) : gmap string string :=
  match node with
  | ExportNamedDeclaration KindType _ _ _ => m
  | ExportNamedDeclaration KindValue specifiers (Some source) _ =>
      let sourceFilePath := resolveFilePath source indexPath allFiles in
      fold_left (indexSpecifier sourceFilePath) specifiers m
  | ExportNamedDeclaration KindValue specifiers None _ =>
      fold_left (indexSpecifier (Some indexPath)) specifiers m
  | ExportDefaultDeclaration (DefaultIdentifier name) =>
      if isPascalCase name then <[name := indexPath]> m else m
  | ExportDefaultDeclaration (DefaultFunction (Some name)) =>
      if isPascalCase name then <[name := indexPath]> m else m
  | _ => m
  end.

(** the modules of the [export * from] statements, in traversal order *)
Definition exportStarSources (ast : list Node) : list string :=
  flat_map (fun node => match node with
                        | ExportAllDeclaration source => [source]
                        | _ => []
                        end) ast.

Fixpoint runAll {A : Type} (rs : list (run A)) : run (list A) :=
  match rs with
  | [] => Returned []
  | OutOfFuel :: _ => OutOfFuel
  | Returned a :: rs' =>
      match runAll rs' with
      | OutOfFuel => OutOfFuel
      | Returned l => Returned (a :: l)
      end
  end.

(** [for (const [k, v] of reExportedMap) componentToFileMap.set(k, v)] *)
Definition mergeInto (componentToFileMap reExportedMap : gmap string string)
  : gmap string string :=
  reExportedMap ∪ componentToFileMap.

(** the final filter of the map *)
Definition keepComponent (content : string) (entry : string * string) : Prop :=
  isPascalCase entry.1 && isLikelyComponent entry.1 content = true.

#[global] Instance keepComponent_dec content entry :
  Decision (keepComponent content entry).
Proof. unfold keepComponent. apply _. Defined.

(** [cli.ts], extractComponentsFromReExportWithPaths, over the recursive
    call it makes *)
Definition extractComponentsFromReExportWithPaths
           (extract : string -> string -> run (gmap string string))
           (relativePath indexPath : string) (allFiles : list FileInfo)
  : run (gmap string string) :=
  match resolveFilePath relativePath indexPath allFiles with
  | None => Returned ∅
  | Some sourceFilePath =>
      match findByPath sourceFilePath allFiles with
      | None => Returned ∅
      | Some targetFile => extract (content targetFile) (path targetFile)
      end
  end.

(** [cli.ts], extractComponentsFromReExport, over the recursive call it
    makes.  The names are the keys of the map; the model of the map keeps
    no insertion order, and what the caller builds from the names does not
    depend on their order. *)
Definition extractComponentsFromReExport
           (extract : string -> string -> run (gmap string string))
           (relativePath indexPath : string) (allFiles : list FileInfo)
  : run (list string) :=
  match reExportTarget relativePath indexPath allFiles with
  | None => Returned []
  | Some targetFile =>
      match extract (content targetFile) (path targetFile) with
      | OutOfFuel => OutOfFuel
      | Returned componentInfoMap =>
          Returned (map fst (map_to_list componentInfoMap))
      end
  end.

(** the final filters of extractComponentNamesFromIndexRegex *)
Definition regexComponentNames (content : string) (componentNames : list string)
  : list string :=
  firstOccurrences []
    (filter (fun name => isLikelyComponent name content)
            (filter (fun name => isPascalCase name) componentNames)).

(** [for (name of componentNames) { file = findComponentFile(name); if (file) map.set(name, file.path) }] *)
Definition fallbackMap (allFiles : list FileInfo) (componentNames : list string)
  : gmap string string :=
  fold_left (fun m componentName =>
               match findComponentFile componentName allFiles with
               | Some componentFile => <[componentName := path componentFile]> m
               | None => m
               end)
            componentNames ∅.

Fixpoint extractComponentInfoFromIndex (fuel : nat) (allFiles : list FileInfo)
         (content indexPath : string) : run (gmap string string) :=
  match fuel with
  | O => OutOfFuel
  | S fuel' =>
      match parse content with
      | None =>
          (* the catch branch: extractComponentNamesFromIndexRegex, whose
             loop over the [export * from] statements of the text calls the
             resolver again, then findComponentFile on each name *)
          let reExports :=
            map (fun relativePath =>
                   extractComponentsFromReExport
                     (extractComponentInfoFromIndex fuel' allFiles)
                     relativePath indexPath allFiles)
                (exec_all exportStarPattern content) in
          match runAll reExports with
          | OutOfFuel => OutOfFuel
          | Returned reExportedComponents =>
              let componentNames :=
                (regexExportNames content ++ concat reExportedComponents)%list in
              Returned (fallbackMap allFiles
                                    (regexComponentNames content componentNames))
          end
      | Some ast =>
          let componentToFileMap :=
            fold_left (indexVisit indexPath allFiles) ast ∅ in
          let exportStarPromises :=
            map (fun relativePath =>
                   extractComponentsFromReExportWithPaths
                     (extractComponentInfoFromIndex fuel' allFiles)
                     relativePath indexPath allFiles)
                (exportStarSources ast) in
          match runAll exportStarPromises with
          | OutOfFuel => OutOfFuel
          | Returned reExportedResults =>
              Returned (filter (keepComponent content)
                               (fold_left mergeInto reExportedResults
                                          componentToFileMap))
          end
      end
  end.

(** *** What a syntax tree says about the exports of a file *)

Definition valueName (specifier : Specifier) : list string :=
  match specifier with
  | ExportSpecifier _ exported KindValue => [exportedNameOf exported]
  | _ => []
  end.

(** the names a node exports at run time from the file itself: those of a
    value export list without [from], and those an exported declaration
    binds *)
Definition exportedNames (node : Node) : list string :=
  match node with
  | ExportNamedDeclaration KindValue specifiers None declaration =>
      (flat_map valueName specifiers ++ declaration)%list
  | _ => []
  end.

(** the names the resolver reads off a node, with the file it records for
    them: the value names of an export list (the file itself, or the module
    of a re-export when it resolves), and the identifier or the named
    function of an [export default] *)
Definition recordedNames (indexPath : string) (allFiles : list FileInfo)
           (node : Node) : list (string * string) :=
  match node with
  | ExportNamedDeclaration KindValue specifiers (Some source) _ =>
      match resolveFilePath source indexPath allFiles with
      | Some sourceFilePath =>
          map (fun name => (name, sourceFilePath)) (flat_map valueName specifiers)
      | None => []
      end
  | ExportNamedDeclaration KindValue specifiers None _ =>
      map (fun name => (name, indexPath)) (flat_map valueName specifiers)
  | ExportDefaultDeclaration (DefaultIdentifier name) => [(name, indexPath)]
  | ExportDefaultDeclaration (DefaultFunction (Some name)) => [(name, indexPath)]
  | _ => []
  end.

Definition isReexport (node : Node) : bool :=
  match node with
  | ExportNamedDeclaration _ _ (Some _) _ => true
  | ExportAllDeclaration _ => true
  | _ => false
  end.

(** the file the wildcard expansions give for a name: that of the last
    expansion that holds it *)
Definition wildcardPath (name : string) (results : list (gmap string string))
  : option string :=
  fold_left (fun acc m => match m !! name with Some p => Some p | None => acc end)
            results None.

(** the expansion of one [export * from] of a file, within a budget *)
Definition expandStar (fuel : nat) (allFiles : list FileInfo) (indexPath : string)
           (relativePath : string) : run (gmap string string) :=
  extractComponentsFromReExportWithPaths
    (extractComponentInfoFromIndex fuel allFiles) relativePath indexPath allFiles.

(** [F] supplies [name]: the resolver reads [name] off an export of [F], or
    [F] has a wildcard re-export of a module that supplies it; and at each
    file on the way the name passes the filter of that file *)
Inductive supplies (allFiles : list FileInfo) : FileInfo -> string -> Prop :=
| supplies_recorded F ast name p :
    parse (content F) = Some ast ->
    In (name, p) (flat_map (recordedNames (path F) allFiles) ast) ->
    keepComponent (content F) (name, p) ->
    supplies allFiles F name
| supplies_wildcard F ast source targetPath G name :
    parse (content F) = Some ast ->
    In (ExportAllDeclaration source) ast ->
    resolveFilePath source (path F) allFiles = Some targetPath ->
    findByPath targetPath allFiles = Some G ->
    supplies allFiles G name ->
    keepComponent (content F) (name, targetPath) ->
    supplies allFiles F name.

(** the wildcard re-exports that start at a file nest fewer than [n] deep:
    each module that resolves among those the resolver expands for the file
    (the [export * from] nodes of its syntax tree, or, when Babel rejects
    the file, the [export * from] statements the pattern of the catch
    branch finds in its text) has wildcard re-exports nesting fewer than
    [n - 1] deep *)
Fixpoint expandsWithin (n : nat) (allFiles : list FileInfo)
         (indexContent indexPath : string) : Prop :=
  match n with
  | O => False
  | S n' =>
      match parse indexContent with
      | None =>
          Forall (fun relativePath =>
                    match reExportTarget relativePath indexPath allFiles with
                    | None => True
                    | Some targetFile =>
                        expandsWithin n' allFiles (content targetFile)
                                      (path targetFile)
                    end)
                 (exec_all exportStarPattern indexContent)
      | Some ast =>
          Forall (fun source =>
                    match resolveFilePath source indexPath allFiles with
                    | None => True
                    | Some sourceFilePath =>
                        match findByPath sourceFilePath allFiles with
                        | None => True
                        | Some targetFile =>
                            expandsWithin n' allFiles (content targetFile)
                                          (path targetFile)
                        end
                    end)
                 (exportStarSources ast)
      end
  end.

(** the same, as a test *)
Fixpoint expandsWithinb (n : nat) (allFiles : list FileInfo)
         (indexContent indexPath : string) : bool :=
  match n with
  | O => false
  | S n' =>
      match parse indexContent with
      | None =>
          forallb (fun relativePath =>
                     match reExportTarget relativePath indexPath allFiles with
                     | None => true
                     | Some targetFile =>
                         expandsWithinb n' allFiles (content targetFile)
                                        (path targetFile)
                     end)
                  (exec_all exportStarPattern indexContent)
      | Some ast =>
          forallb (fun source =>
                     match resolveFilePath source indexPath allFiles with
                     | None => true
                     | Some sourceFilePath =>
                         match findByPath sourceFilePath allFiles with
                         | None => true
                         | Some targetFile =>
                             expandsWithinb n' allFiles (content targetFile)
                                            (path targetFile)
                         end
                     end)
                  (exportStarSources ast)
      end
  end.

(** the names the resolver reads off a node of a file without re-exports *)
Definition listedNames (node : Node) : list string :=
  match node with
  | ExportNamedDeclaration KindValue specifiers None _ =>
      flat_map valueName specifiers
  | ExportDefaultDeclaration (DefaultIdentifier name) => [name]
  | ExportDefaultDeclaration (DefaultFunction (Some name)) => [name]
  | _ => []
  end.

(** the writes of the synchronous traversal, replayed on a map *)
Definition recordAll (entries : list (string * string)) (m : gmap string string)
  : gmap string string :=
  fold_left (fun m entry => if isPascalCase entry.1
                            then <[entry.1 := entry.2]> m else m)
            entries m.

(** *** Dependency scan ([parser.ts], analyzeDependencies) *)

(** The import pattern [/import\s+.*from\s+Q([^Q]+)Q/g], where the class
    [Q] holds the single and the double quote. *)
Definition importRegex : regex :=
  seqs [Lit "import"; Plus Space; Star Dot; Lit "from"; Plus Space;
        Cls is_quote; Group (Plus (Cls (fun c => negb (is_quote c))));
        Cls is_quote].

Definition plainExtensions : list string := [".ts"; ".tsx"; ".js"; ".jsx"].

(** [for (ext) { if (allFiles.some(f => f.path === fullPath)) { push; break } }] *)
Fixpoint firstScanned (resolvedPath : string) (exts : list string)
         (allFiles : list FileInfo) : option string :=
  match exts with
  | [] => None
  | ext :: exts' =>
      let fullPath := resolvedPath ++ ext in
      if existsb (fun f => String.eqb (path f) fullPath) allFiles
      then Some fullPath
      else firstScanned resolvedPath exts' allFiles
  end.

(** the body of the [while] loop, for one match *)
Definition analyzeImport (file : FileInfo) (allFiles : list FileInfo)
           (dependencies : list string) (importPath : string) : list string :=
  if negb (Str.startsWith "." importPath) then dependencies
  else
    let resolvedPath := path_resolve (path_dirname (path file)) importPath in
    match firstScanned resolvedPath plainExtensions allFiles with
    | Some fullPath => dependencies ++ [fullPath]
    | None => dependencies
    end.

Definition analyzeDependencies (file : FileInfo) (allFiles : list FileInfo)
  : list string :=
  fold_left (analyzeImport file allFiles)
            (exec_all importRegex (content file)) [].

(** a path of the Source Index *)
Definition scanned (allFiles : list FileInfo) (p : string) : Prop :=
  exists f, In f allFiles /\ path f = p.

(** the specifiers the import pattern captures in a file's text *)
Definition importSpecifiers (file : FileInfo) : list string :=
  exec_all importRegex (content file).

(** *** Dependency context ([cli.ts], buildDependencyContext) *)

Record Component : Type := mkComponent {
  c_name : string;
  c_code : string;
  c_path : string;
  c_file : FileInfo;
  c_dependencies : option (list FileInfo)
}.

Inductive DependencyNode : Type :=
| mkDependencyNode (name path : string) (depth : nat)
                   (dependencies : list DependencyNode).

(** the arrays and the set the recursive walk shares *)
Record Walk : Type := mkWalk {
  w_relatedFiles : list string;
  w_dependencyPaths : list string;
  w_dependencyDepths : list nat;
  w_processedPaths : gset string
}.

Record DependencyContext : Type := mkDependencyContext {
  relatedFiles : list string;
  dependencyTree : string * string * list DependencyNode;
  dependencyPaths : list string;
  dependencyDepths : list nat
}.

Definition newline : string := String (ascii_of_nat 10) EmptyString.

Definition truncationMarker : string := newline ++ "// ... (文件内容已截断)".

(** the two size ceilings of the walk, in characters *)
Definition inclusionCeiling : nat := 8000.
Definition displayCeiling : nat := 3000.

Definition truncateCode (code : string) : string :=
  if (displayCeiling <? String.length code)%nat
  then Str.take displayCeiling code ++ truncationMarker
  else code.

Definition snippetHeader (depPath : string) (depth : nat) : string :=
  "// 依赖文件: " ++ path_basename depPath ++ " (深度: " ++ Str.of_nat depth
    ++ ")" ++ newline.

Definition snippet (depPath : string) (depth : nat) (code : string) : string :=
  snippetHeader depPath depth ++ truncateCode code.

Definition omissionMarker (omitted : nat) : string :=
  "// ... 还有 " ++ Str.of_nat omitted ++ " 个依赖文件未显示".

(** the dependency paths of a node: the list collected beforehand when it
    is present and not empty, else a scan of the file's imports *)
Definition dependenciesOf (file : FileInfo) (known : option (list FileInfo))
           (allComponentFiles : list Component) : list string :=
  match known with
  | Some (d :: ds) => map path (d :: ds)
  | _ => analyzeDependencies file (map c_file allComponentFiles)
  end.

(** what the loop body records for a dependency before it descends *)
Definition recordDependency (depComponent : Component) (depPath : string)
           (currentDepth : nat) (w : Walk) : Walk :=
  mkWalk
    (if (String.length (c_code depComponent) <? inclusionCeiling)%nat
     then (w_relatedFiles w
             ++ [snippet depPath (currentDepth + 1) (c_code depComponent)])%list
     else w_relatedFiles w)
    (w_dependencyPaths w ++ [depPath])%list
    (w_dependencyDepths w ++ [currentDepth + 1])%list
    (w_processedPaths w).

(** The inner [collectDependencies]; it returns the children it appended to
    [parentNode] together with the shared state. *)
Fixpoint collectDependencies (fuel : nat) (allComponentFiles : list Component)
         (maxDepth : nat) (file : FileInfo) (known : option (list FileInfo))
         (currentDepth : nat) (w : Walk) : run (list DependencyNode * Walk) :=
  match fuel with
  | O => OutOfFuel
  | S fuel' =>
      if (maxDepth <=? currentDepth)%nat
         || bool_decide (path file ∈ w_processedPaths w)
      then Returned ([], w)
      else
        let w0 := mkWalk (w_relatedFiles w) (w_dependencyPaths w)
                         (w_dependencyDepths w)
                         ({[path file]} ∪ w_processedPaths w) in
        fold_left
          (fun acc depPath =>
             match acc with
             | OutOfFuel => OutOfFuel
             | Returned (children, w1) =>
                 match find (fun c => String.eqb (c_path c) depPath)
                            allComponentFiles with
                 | None => acc
                 | Some depComponent =>
                     if bool_decide (depPath ∈ w_processedPaths w1) then acc
                     else
                       match collectDependencies fuel' allComponentFiles maxDepth
                               (c_file depComponent) (c_dependencies depComponent)
                               (currentDepth + 1)
                               (recordDependency depComponent depPath
                                                 currentDepth w1) with
                       | OutOfFuel => OutOfFuel
                       | Returned (grandchildren, w2) =>
                           Returned
                             ((children
                                 ++ [mkDependencyNode (c_name depComponent)
                                       depPath (currentDepth + 1)
                                       grandchildren])%list,
                              w2)
                       end
                 end
             end)
          (firstn 5 (dependenciesOf file known allComponentFiles))
          (Returned ([], w0))
  end.

Definition maxFiles : nat := 8.

Definition limitFiles (relatedFiles : list string) : list string :=
  let limitedFiles := firstn maxFiles relatedFiles in
  if (maxFiles <? length relatedFiles)%nat
  then (limitedFiles
          ++ [omissionMarker (length relatedFiles - maxFiles)])%list
  else limitedFiles.

Definition buildDependencyContext (component : Component)
           (allComponentFiles : list Component) (maxDepth : nat)
  : run DependencyContext :=
  match collectDependencies (S maxDepth) allComponentFiles maxDepth
                            (c_file component) (c_dependencies component) 0
                            (mkWalk [] [] [] ∅) with
  | OutOfFuel => OutOfFuel
  | Returned (children, w) =>
      Returned (mkDependencyContext
                  (limitFiles (w_relatedFiles w))
                  (c_name component, c_path component, children)
                  (w_dependencyPaths w) (w_dependencyDepths w))
  end.

(** an entry that carries the text of a dependency: the header line for
    one of the components, found at a depth of the walk, then its code,
    whole or cut at the display ceiling *)
Definition isSnippet (allComponentFiles : list Component) (maxDepth : nat)
           (entry : string) : Prop :=
  exists depComponent depth,
    In depComponent allComponentFiles
    /\ (String.length (c_code depComponent) < inclusionCeiling)%nat
    /\ (1 <= depth <= maxDepth)%nat
    /\ entry = snippetHeader (c_path depComponent) depth
                 ++ truncateCode (c_code depComponent).

(** the paths the walk records, each with its depth: a depth between one
    and the cap, and the path of one of the components *)
Definition pathsWithDepths (allComponentFiles : list Component) (maxDepth : nat)
           (paths : list string) (depths : list nat) : Prop :=
  Forall2 (fun p depth =>
             (1 <= depth <= maxDepth)%nat
             /\ exists c, In c allComponentFiles /\ c_path c = p)
          paths depths.

(** *** Batch orchestrator ([cli.ts], analyzeComponents) *)

(** The external analyzer: the payload it returns, or the [name] of the
    error it throws. *)
Variable Analysis : Type.

Inductive AnalyzerOutcome : Type :=
| Analysed (result : Analysis)
| Threw (errorName : string).

Variable analyzeComponent : string -> string -> list string -> AnalyzerOutcome.

(** [path.relative(process.cwd(), p)] *)
Variable relativeToCwd : string -> string.

Record ComponentInfo : Type := mkComponentInfo {
  analysis : Analysis;
  filePath : string
}.

(** how one task of a batch settles: with a value ([None] is [null]) or by
    rejecting with an error of the given name *)
Inductive TaskOutcome : Type :=
| TaskValue (result : option ComponentInfo)
| TaskRejected (errorName : string).

(** what the run prints that the properties speak about *)
Inductive Event : Type :=
| WarnNoComponents
| NoticeTooMany (maxComponents : nat)
| LogBatchPlan (batchSize totalBatches : nat)
| LogBatchDone (batchNumber totalBatches valid size : nat)
| LogBatchCancelled (batchNumber : nat)
| LogBatchFailed (batchNumber : nat)
| LogInterrupt
| SpinnerFailUserCancel
| SpinnerFailCancelled (completed : nat)
| SpinnerSucceed (completed : nat).

(** how the call ends: it returns its list, or the process exits *)
Inductive Termination : Type :=
| Returns (components : list ComponentInfo)
| Exits (code : nat).

(** One task of processBatchWithDependencies.  The signal of the batch is
    not aborted while the task runs: only the interrupt handler aborts it,
    and the handler ends the process. *)
Definition processTask (component : Component)
           (allComponentFiles : list Component) : run TaskOutcome :=
  match buildDependencyContext component allComponentFiles 3 with
  | OutOfFuel => OutOfFuel
  | Returned dependencyContext =>
      match analyzeComponent (c_code component) (c_name component)
                             (relatedFiles dependencyContext) with
      | Analysed analysisResult =>
          Returned (TaskValue
                      (Some (mkComponentInfo analysisResult
                                             (relativeToCwd (c_path component)))))
      | Threw errorName =>
          if String.eqb errorName "AbortError"
          then Returned (TaskRejected errorName)
          else Returned (TaskValue None)
      end
  end.

(** [Promise.all]: the values in order, or the rejection of a task *)
Fixpoint promiseAll (tasks : list TaskOutcome)
  : list (option ComponentInfo) + string :=
  match tasks with
  | [] => inl []
  | TaskRejected errorName :: _ => inr errorName
  | TaskValue v :: tasks' =>
      match promiseAll tasks' with
      | inl vs => inl (v :: vs)
      | inr errorName => inr errorName
      end
  end.

(** [results.filter(r => r !== null)] *)
Definition validResultsOf (batchResults : list (option ComponentInfo))
  : list ComponentInfo :=
  omap id batchResults.

(** handleInterrupt: with a controller installed and no abort yet, it
    marks the abort, reports and calls [process.exit(130)]. *)
Definition handleInterrupt (hasController isAborted : bool) (log : list Event)
  : option (Termination * list Event) :=
  if hasController && negb isAborted
  then Some (Exits 130, (log ++ [LogInterrupt; SpinnerFailUserCancel])%list)
  else None.

(** the statements after the loop *)
Definition finishRun (isAborted : bool) (components : list ComponentInfo)
           (log : list Event) : Termination * list Event :=
  if isAborted
  then (Returns components, (log ++ [SpinnerFailCancelled (length components)])%list)
  else (Returns components, (log ++ [SpinnerSucceed (length components)])%list).

(** The [for] loop.  [interrupt] is the number of the batch during whose
    awaits the interrupt signal is delivered, if any: the handler can only
    run while the loop is suspended, and the loop is suspended only on the
    batch and on the delay that follows it. *)
Fixpoint batchLoop (fuel : nat) (interrupt : option nat)
         (componentFiles componentsToAnalyze : list Component)
         (batchSize totalBatches i : nat) (isAborted : bool)
         (components : list ComponentInfo) (log : list Event)
  : run (Termination * list Event) :=
  match fuel with
  | O => OutOfFuel
  | S fuel' =>
      if (length componentsToAnalyze <=? i)%nat
      then Returned (finishRun isAborted components log)
      else if isAborted then Returned (finishRun isAborted components log)
      else
        let batch := firstn batchSize (skipn i componentsToAnalyze) in
        let batchNumber := (i / batchSize + 1)%nat in
        match (if bool_decide (interrupt = Some batchNumber)
               then handleInterrupt true isAborted log else None) with
        | Some exited => Returned exited
        | None =>
            match runAll (map (fun c => processTask c componentFiles) batch) with
            | OutOfFuel => OutOfFuel
            | Returned tasks =>
                match promiseAll tasks with
                | inl batchResults =>
                    let validResults := validResultsOf batchResults in
                    batchLoop fuel' interrupt componentFiles componentsToAnalyze
                              batchSize totalBatches (i + batchSize) isAborted
                              (components ++ validResults)%list
                              (log ++ [LogBatchDone batchNumber totalBatches
                                         (length validResults) (length batch)])%list
                | inr errorName =>
                    if String.eqb errorName "AbortError" || isAborted
                    then Returned (finishRun isAborted components
                                     (log ++ [LogBatchCancelled batchNumber])%list)
                    else batchLoop fuel' interrupt componentFiles
                                   componentsToAnalyze batchSize totalBatches
                                   (i + batchSize) isAborted components
                                   (log ++ [LogBatchFailed batchNumber])%list
                end
            end
        end
  end.

Definition maxComponents : nat := 100.

Definition analyzeComponents (interrupt : option nat)
           (componentFiles : list Component) : run (Termination * list Event) :=
  if (length componentFiles =? 0)%nat
  then Returned (Returns [], [WarnNoComponents])
  else
    let componentsToAnalyze := firstn maxComponents componentFiles in
    let log := if (maxComponents <? length componentFiles)%nat
               then [NoticeTooMany maxComponents] else [] in
    let batchSize := calculateOptimalBatchSize (length componentsToAnalyze) in
    let totalBatches :=
      ((length componentsToAnalyze + batchSize - 1) / batchSize)%nat in
    batchLoop (S (length componentsToAnalyze)) interrupt componentFiles
              componentsToAnalyze batchSize totalBatches 0 false []
              (log ++ [LogBatchPlan batchSize totalBatches])%list.

(** [info] is what the analysis of the candidate [c] yields *)
Definition analysedFrom (componentFiles : list Component) (c : Component)
           (info : ComponentInfo) : Prop :=
  exists ctx,
    buildDependencyContext c componentFiles 3 = Returned ctx
    /\ analyzeComponent (c_code c) (c_name c) (relatedFiles ctx)
       = Analysed (analysis info)
    /\ filePath info = relativeToCwd (c_path c).

(** the notice about dropped candidates *)
Definition isNotice (e : Event) : bool :=
  match e with NoticeTooMany _ => true | _ => false end.

(** what a run, or the rest of one, is known to satisfy: it prints no notice
    about dropped candidates; it reports the interrupt exactly when it ends
    by leaving the process with status 130, which it does only when an
    interrupt is delivered, and not otherwise; and a list it returns is made
    of analyses of the candidates it was given *)
Definition wellEnded (interrupt : option nat)
           (componentFiles toAnalyze : list Component)
           (outcome : Termination) (extra : list Event) : Prop :=
  existsb isNotice extra = false
  /\ (In LogInterrupt extra <-> outcome = Exits 130)
  /\ (forall code, outcome = Exits code -> code = 130%nat /\ interrupt <> None)
  /\ (forall returned,
         outcome = Returns returned ->
         Forall (fun info => exists c, In c toAnalyze
                                       /\ analysedFrom componentFiles c info)
                returned).

End Analyzer.

Arguments Analysed {Analysis} result.
Arguments Threw {Analysis} errorName.
Arguments Returns {Analysis} components.
Arguments Exits {Analysis} code.

(** ** A POSIX instance of the [path] functions

    Node's [path.posix] on the inputs the analyzer gives it: the scanner
    produces absolute paths, so [resolve] never consults the working
    directory. *)

Module Posix.

Definition slash : ascii := "/"%char.

(** the segments between slashes *)
Fixpoint split (cur : list ascii) (cs : list ascii) : list (list ascii) :=
  match cs with
  | [] => [rev cur]
  | c :: cs' =>
      if Ascii.eqb c slash then rev cur :: split [] cs'
      else split (c :: cur) cs'
  end.

(** normalizeString: drop empty and [.] segments, let [..] pop *)
Fixpoint normalize (stack : list (list ascii)) (segs : list (list ascii))
  : list (list ascii) :=
  match segs with
  | [] => rev stack
  | seg :: segs' =>
      if bool_decide (seg = []) || bool_decide (seg = Str.chars ".")
      then normalize stack segs'
      else if bool_decide (seg = Str.chars "..")
           then normalize (tl stack) segs'
           else normalize (seg :: stack) segs'
  end.

Definition join (segs : list (list ascii)) : list ascii :=
  flat_map (fun seg => slash :: seg) segs.

(** [path.resolve(from, to)] with [from] absolute *)
Definition resolve (from to : string) : string :=
  let joined :=
    if Str.startsWith "/" to then Str.chars to
    else (Str.chars from ++ slash :: Str.chars to)%list in
  match join (normalize [] (split [] joined)) with
  | [] => "/"
  | cs => Str.of_chars cs
  end.

(** the text before the last slash that follows a segment *)
Fixpoint dirname_scan (rev_cs : list ascii) (matchedSlash : bool)
  : option (list ascii) :=
  match rev_cs with
  | [] | [_] => None
  | c :: rest =>
      if Ascii.eqb c slash
      then if matchedSlash then dirname_scan rest true else Some (rev rest)
      else dirname_scan rest false
  end.

(** [path.dirname(p)] *)
Definition dirname (p : string) : string :=
  match Str.chars p with
  | [] => "."
  | first :: _ =>
      match dirname_scan (rev (Str.chars p)) true with
      | Some [] => "/"
      | Some [c] => if Ascii.eqb c slash then "//" else Str.of_chars [c]
      | Some cs => Str.of_chars cs
      | None => if Ascii.eqb first slash then "/" else "."
      end
  end.

(** [path.basename(p)]: the last segment that is not empty *)
Definition basename (p : string) : string :=
  Str.of_chars
    (List.last (filter (fun seg => negb (bool_decide (seg = [])))
                       (split [] (Str.chars p))) []).

(** [path.extname(p)] for a file name with a dot inside *)
Fixpoint extname_scan (rev_cs : list ascii) (acc : list ascii) : list ascii :=
  match rev_cs with
  | [] => []
  | c :: rest =>
      if Ascii.eqb c "."%char then c :: acc
      else if Ascii.eqb c slash then []
      else extname_scan rest (c :: acc)
  end.

Definition extname (p : string) : string :=
  Str.of_chars (extname_scan (rev (Str.chars p)) []).

End Posix.

(** A parser given by a table from texts to the nodes Babel's traversal
    visits; a text outside the table is one Babel rejects. *)
Fixpoint tableParse (table : list (string * list Node)) (text : string)
  : option (list Node) :=
  match table with
  | [] => None
  | (t, ast) :: table' =>
      if String.eqb t text then Some ast else tableParse table' text
  end.

Definition sourceFile (p text : string) : FileInfo :=
  mkFileInfo p text (String.length text) (Posix.extname p) 0.



(** ** Worked inputs

    Small libraries on which the properties are exercised.  Each text is
    listed with the nodes Babel's traversal visits in it. *)

Module Demo.

Definition named (name : string) : Specifier :=
  ExportSpecifier (Identifier name) (Identifier name) KindValue.

Definition renamed (local exported : string) : Specifier :=
  ExportSpecifier (Identifier local) (Identifier exported) KindValue.

(** a re-export cycle between two files *)
Definition cycleA : FileInfo :=
  sourceFile "/lib/src/a.ts" "export { Card } from './b';".
Definition cycleB : FileInfo :=
  sourceFile "/lib/src/b.ts" "export { Card } from './a';".
Definition cycleFiles : list FileInfo := [cycleA; cycleB].
Definition cycleParse : string -> option (list Node) :=
  tableParse
    [("export { Card } from './b';",
      [ExportNamedDeclaration KindValue [named "Card"] (Some "./b") []]);
     ("export { Card } from './a';",
      [ExportNamedDeclaration KindValue [named "Card"] (Some "./a") []])].

(** a chain of three files, the middle one a directory index *)
Definition chainA : FileInfo :=
  sourceFile "/lib/src/index.ts" "export { Button } from './components';".
Definition chainB : FileInfo :=
  sourceFile "/lib/src/components/index.ts" "export { Button } from './button';".
Definition chainC : FileInfo :=
  sourceFile "/lib/src/components/button.tsx"
             "export function Button() { return null; }".
Definition chainFiles : list FileInfo := [chainA; chainB; chainC].

(** the same chain behind an entry that also has a wildcard re-export *)
Definition barrelA : FileInfo :=
  sourceFile "/lib/src/index.ts"
             "export { Button } from './components'; export * from './helpers';".
Definition helpers : FileInfo :=
  sourceFile "/lib/src/helpers.ts" "export const noop = () => {};".
Definition barrelFiles : list FileInfo := [barrelA; chainB; chainC; helpers].

Definition chainParse : string -> option (list Node) :=
  tableParse
    [("export { Button } from './components';",
      [ExportNamedDeclaration KindValue [named "Button"] (Some "./components") []]);
     ("export { Button } from './components'; export * from './helpers';",
      [ExportNamedDeclaration KindValue [named "Button"] (Some "./components") [];
       ExportAllDeclaration "./helpers"]);
     ("export { Button } from './button';",
      [ExportNamedDeclaration KindValue [named "Button"] (Some "./button") []]);
     ("export function Button() { return null; }",
      [ExportNamedDeclaration KindValue [] None ["Button"];
       FunctionDeclaration (Some "Button")]);
     ("export const noop = () => {};",
      [ExportNamedDeclaration KindValue [] None ["noop"];
       VariableDeclarator (Some "noop") ArrowFunctionExpression])].

(** a renamed default export, as in the test project of the repository *)
Definition dialogIndex : FileInfo :=
  sourceFile "/lib/src/index.ts"
             "export { default as DialogModal } from './ui/dialog';".
Definition dialog : FileInfo :=
  sourceFile "/lib/src/ui/dialog.tsx"
             "export default function Dialog() { return null; }".
Definition dialogFiles : list FileInfo := [dialogIndex; dialog].
Definition dialogParse : string -> option (list Node) :=
  tableParse
    [("export { default as DialogModal } from './ui/dialog';",
      [ExportNamedDeclaration KindValue [renamed "default" "DialogModal"]
                              (Some "./ui/dialog") []]);
     ("export default function Dialog() { return null; }",
      [ExportDefaultDeclaration (DefaultFunction (Some "Dialog"));
       FunctionDeclaration (Some "Dialog")])].

(** a library of eleven components found by their imports: the first
    imports five of them, and one of those imports the other five *)
Definition importLine (name : string) : string :=
  "import { " ++ name ++ " } from './" ++ name ++ "';" ++ newline.

Definition componentText (imports : list string) (name : string) : string :=
  "import React from 'react';" ++ newline
    ++ String.concat "" (map importLine imports)
    ++ "export function " ++ name ++ "() { return <div />; }".

Definition componentOf (imports : list string) (name : string) : Component :=
  let text := componentText imports name in
  let p := "/lib/src/" ++ name ++ ".tsx" in
  mkComponent name text p (sourceFile p text) (Some []).

Definition firstRing : list string := ["Alpha"; "Beta"; "Gamma"; "Delta"; "Epsilon"].
Definition secondRing : list string := ["Eta"; "Theta"; "Iota"; "Kappa"; "Lambda"].

Definition app : Component := componentOf firstRing "App".
Definition appComponents : list Component :=
  app :: componentOf secondRing "Alpha"
      :: map (componentOf []) (tl firstRing ++ secondRing)%list.

(** stand-ins for the pattern readings of the catch branch *)
Definition noNames : string -> list string := fun _ => [].
Definition noFile : string -> list FileInfo -> option FileInfo := fun _ _ => None.

(** an entry file with local definitions only *)
Definition localText : string :=
  "export function Button() { return null; } const Card = () => null; const ThemeConfig = {}; export { Card, ThemeConfig };".
Definition localAst : list Node :=
  [ExportNamedDeclaration KindValue [] None ["Button"];
   FunctionDeclaration (Some "Button");
   VariableDeclarator (Some "Card") ArrowFunctionExpression;
   VariableDeclarator (Some "ThemeConfig") InitOther;
   ExportNamedDeclaration KindValue [named "Card"; named "ThemeConfig"] None []].
Definition localEntry : FileInfo := sourceFile "/lib/src/index.ts" localText.
Definition localParse : string -> option (list Node) :=
  tableParse [(localText, localAst)].

(** the wildcard re-export of the test project of the repository *)
Definition starEntry : FileInfo :=
  sourceFile "/lib/src/index.ts" "export * from './basic';".
Definition basicText : string :=
  "import { SubButton } from './sub-btn'; export function Button() { return null; } export function IconButton() { return null; } export { SubButton }".
Definition basicAst : list Node :=
  [ExportNamedDeclaration KindValue [] None ["Button"];
   FunctionDeclaration (Some "Button");
   ExportNamedDeclaration KindValue [] None ["IconButton"];
   FunctionDeclaration (Some "IconButton");
   ExportNamedDeclaration KindValue [named "SubButton"] None []].
Definition basic : FileInfo := sourceFile "/lib/src/basic.tsx" basicText.
Definition starFiles : list FileInfo := [starEntry; basic].
Definition starParse : string -> option (list Node) :=
  tableParse [("export * from './basic';", [ExportAllDeclaration "./basic"]);
              (basicText, basicAst)].

(** an entry whose export lists name [Card] before, and [Badge] after, a
    wildcard re-export of a module that supplies both *)
Definition widgetsEntryText : string :=
  "export { Card } from './legacy/card'; export * from './widgets'; export { Badge } from './legacy/badge';".
Definition widgetsEntryAst : list Node :=
  [ExportNamedDeclaration KindValue [named "Card"] (Some "./legacy/card") [];
   ExportAllDeclaration "./widgets";
   ExportNamedDeclaration KindValue [named "Badge"] (Some "./legacy/badge") []].
Definition widgetsEntry : FileInfo := sourceFile "/lib/src/index.ts" widgetsEntryText.
Definition widgetsIndexText : string :=
  "export * from './card'; export { Badge } from './badge';".
Definition widgetsIndex : FileInfo :=
  sourceFile "/lib/src/widgets/index.ts" widgetsIndexText.
Definition widgetsCard : FileInfo :=
  sourceFile "/lib/src/widgets/card.tsx" "const Card = () => null; export { Card };".
Definition widgetsBadge : FileInfo :=
  sourceFile "/lib/src/widgets/badge.tsx" "export const Badge = () => null;".
Definition legacyCard : FileInfo :=
  sourceFile "/lib/src/legacy/card.tsx" "export const Card = () => null;".
Definition legacyBadge : FileInfo :=
  sourceFile "/lib/src/legacy/badge.tsx" "export const Badge = () => null;".
Definition widgetsFiles : list FileInfo :=
  [widgetsEntry; widgetsIndex; widgetsCard; widgetsBadge; legacyCard; legacyBadge].
Definition widgetsParse : string -> option (list Node) :=
  tableParse
    [(widgetsEntryText, widgetsEntryAst);
     (widgetsIndexText,
      [ExportAllDeclaration "./card";
       ExportNamedDeclaration KindValue [named "Badge"] (Some "./badge") []]);
     ("const Card = () => null; export { Card };",
      [VariableDeclarator (Some "Card") ArrowFunctionExpression;
       ExportNamedDeclaration KindValue [named "Card"] None []]);
     ("export const Badge = () => null;",
      [ExportNamedDeclaration KindValue [] None ["Badge"];
       VariableDeclarator (Some "Badge") ArrowFunctionExpression]);
     ("export const Card = () => null;",
      [ExportNamedDeclaration KindValue [] None ["Card"];
       VariableDeclarator (Some "Card") ArrowFunctionExpression])].

(** an entry that names [Card] in an export list and has a wildcard
    re-export of a module that exports [Card] by its declaration *)
Definition shadowEntryText : string :=
  "export { Card } from './legacy/card'; export * from './panels';".
Definition shadowEntryAst : list Node :=
  [ExportNamedDeclaration KindValue [named "Card"] (Some "./legacy/card") [];
   ExportAllDeclaration "./panels"].
Definition shadowEntry : FileInfo := sourceFile "/lib/src/index.ts" shadowEntryText.
Definition panels : FileInfo :=
  sourceFile "/lib/src/panels.tsx" "export const Card = () => null;".
Definition shadowFiles : list FileInfo := [shadowEntry; panels; legacyCard].
Definition shadowParse : string -> option (list Node) :=
  tableParse
    [(shadowEntryText, shadowEntryAst);
     ("export const Card = () => null;",
      [ExportNamedDeclaration KindValue [] None ["Card"];
       VariableDeclarator (Some "Card") ArrowFunctionExpression])].

(** two renamed default exports under one name *)
Definition twoDefaultsText : string :=
  "export { default as Foo } from './Bar'; export { default as Foo } from './Baz';".
Definition twoDefaultsAst : list Node :=
  [ExportNamedDeclaration KindValue [renamed "default" "Foo"] (Some "./Bar") [];
   ExportNamedDeclaration KindValue [renamed "default" "Foo"] (Some "./Baz") []].
Definition twoDefaultsIndex : FileInfo :=
  sourceFile "/lib/src/index.ts" twoDefaultsText.
Definition barModule : FileInfo :=
  sourceFile "/lib/src/Bar.tsx" "export default function Bar() { return null; }".
Definition bazModule : FileInfo :=
  sourceFile "/lib/src/Baz.tsx" "export default function Baz() { return null; }".
Definition twoDefaultsFiles : list FileInfo :=
  [twoDefaultsIndex; barModule; bazModule].
Definition twoDefaultsParse : string -> option (list Node) :=
  tableParse
    [(twoDefaultsText, twoDefaultsAst);
     ("export default function Bar() { return null; }",
      [ExportDefaultDeclaration (DefaultFunction (Some "Bar"));
       FunctionDeclaration (Some "Bar")]);
     ("export default function Baz() { return null; }",
      [ExportDefaultDeclaration (DefaultFunction (Some "Baz"));
       FunctionDeclaration (Some "Baz")])].

(** an entry with a wildcard re-export of a file that Babel rejects and
    whose text has a wildcard re-export of the entry *)
Definition loopEntryText : string :=
  "export * from './sub'; export * from './broken';".
Definition loopEntry : FileInfo := sourceFile "/lib/src/index.ts" loopEntryText.
Definition loopSub : FileInfo :=
  sourceFile "/lib/src/sub.ts" "const Card = () => null; export { Card };".
Definition loopBroken : FileInfo :=
  sourceFile "/lib/src/broken.ts" "export * from './index'; const = ;".
Definition loopFiles : list FileInfo := [loopEntry; loopSub; loopBroken].
Definition loopParse : string -> option (list Node) :=
  tableParse
    [(loopEntryText, [ExportAllDeclaration "./sub"; ExportAllDeclaration "./broken"]);
     ("const Card = () => null; export { Card };",
      [VariableDeclarator (Some "Card") ArrowFunctionExpression;
       ExportNamedDeclaration KindValue [named "Card"] None []])].

(** a file that imports a directory whose index file is scanned *)
Definition pageImporter : FileInfo :=
  sourceFile "/lib/src/App.tsx" "import { Button } from './components';".
Definition pageFiles : list FileInfo := [pageImporter; chainB; chainC].

(** five candidates without imports, and an analyzer that answers with the
    name of the component *)
Definition fiveComponents : list Component :=
  map (componentOf []) ["Alpha"; "Beta"; "Gamma"; "Delta"; "Epsilon"].
Definition echoAnalyzer (code name : string) (context : list string)
  : AnalyzerOutcome string :=
  Analysed name.
Definition relativeToLib (p : string) : string := Str.drop 5 p.

End Demo.

(** discharge a reading of a file ([forwards], [implements]) on concrete
    data: the syntax tree comes from the parser, the rest is evaluated *)
Ltac by_reading :=
  eexists; split; [vm_compute; reflexivity|];
  repeat match goal with
         | |- _ /\ _ => split
         | |- Forall _ _ => vm_compute; repeat constructor
         | |- _ = _ => vm_compute; reflexivity
         end.

(** * The rest of the tool

    The name filters as a whole, the validation of URLs and configurations,
    the reports, the batch API, the cache and the model client. *)

(** The matches of an expression, read declaratively: [matches r b s c b' s' c']
    holds when [r] can take the matcher from the position with [b] behind
    it and [s] ahead, the capture being [c], to the position [b'], [s'] with
    capture [c']. *)
Inductive matches : regex -> list ascii -> list ascii -> option (list ascii) ->
                    list ascii -> list ascii -> option (list ascii) -> Prop :=
| matches_Eps b s c : matches Eps b s c b s c
| matches_Cls p x b s c :
    p x = true -> matches (Cls p) b (x :: s) c (x :: b) s c
| matches_Seq r1 r2 b s c b1 s1 c1 b2 s2 c2 :
    matches r1 b s c b1 s1 c1 -> matches r2 b1 s1 c1 b2 s2 c2 ->
    matches (Seq r1 r2) b s c b2 s2 c2
| matches_Alt_l r1 r2 b s c b1 s1 c1 :
    matches r1 b s c b1 s1 c1 -> matches (Alt r1 r2) b s c b1 s1 c1
| matches_Alt_r r1 r2 b s c b1 s1 c1 :
    matches r2 b s c b1 s1 c1 -> matches (Alt r1 r2) b s c b1 s1 c1
| matches_Star_stop r b s c : matches (Star r) b s c b s c
| matches_Star_step r b s c b1 s1 c1 b2 s2 c2 :
    matches r b s c b1 s1 c1 -> (length s1 < length s)%nat ->
    matches (Star r) b1 s1 c1 b2 s2 c2 ->
    matches (Star r) b s c b2 s2 c2
| matches_Bol s c : matches Bol [] s c [] s c
| matches_Eol b c : matches Eol b [] c b [] c
| matches_WordBoundary b s c :
    at_boundary b s = true -> matches WordBoundary b s c b s c
| matches_Group r b s c b1 s1 c1 :
    matches r b s c b1 s1 c1 ->
    matches (Group r) b s c b1 s1 (Some (firstn (length s - length s1) s)).

(** the loop of the matcher on a repetition *)
Section StarLoop.
Context {R : Type}.
Variable body : list ascii -> list ascii -> option (list ascii) ->
                @cont R -> option R.
Variable k : @cont R.

Fixpoint star_loop (n : nat) (before rest : list ascii)
         (cap : option (list ascii)) : option R :=
  match n with
  | O => k before rest cap
  | S n' =>
      match body before rest cap
                 (fun b s c =>
                    if (length s <? length rest)%nat
                    then star_loop n' b s c else None) with
      | Some x => Some x
      | None => k before rest cap
      end
  end.
End StarLoop.


(** ** Readings of the name filters *)

(** the same text up to the case of its letters *)
Fixpoint sameLetters (a b : list ascii) : bool :=
  match a, b with
  | [], [] => true
  | x :: a', y :: b' => Str.eqb_ci x y && sameLetters a' b'
  | _, _ => false
  end.

Definition ciEquals (a b : string) : bool :=
  sameLetters (Str.chars a) (Str.chars b).

(** names the table of utility patterns rejects by their ending alone, and
    names made of letters that it rejects by their last word *)
Definition utilityEnding (stem ending : string) : bool :=
  String.eqb ending "Config"
  || existsb (fun word => ciEquals word ending)
             ["Constant"; "Constants"; "Type"; "Types"; "Enum"]
  || (negb (String.eqb stem "")
      && forallb Str.is_alpha (Str.chars stem)
      && existsb (fun word => ciEquals word ending)
                 ["Util"; "Utils"; "Helper"; "Manager"; "Service"]).

(** ** Git URLs ([git.ts], GitManager.validateGitUrl) *)

(** [https?] *)
Definition httpScheme : regex := Seq (Lit "http") (Opt (Lit "s")).

(** The [gitUrlPatterns] table, in the source's order. *)
Definition gitUrlPatterns : list regex :=
  [ (* /^https?:\/\/.+\.git$/ *)
    seqs [Bol; httpScheme; Lit "://"; Plus Dot; Lit ".git"; Eol];
    (* /^git@.+:.+\.git$/ *)
    seqs [Bol; Lit "git@"; Plus Dot; Lit ":"; Plus Dot; Lit ".git"; Eol];
    (* /^https?:\/\/github\.com\/.+\/.+$/ *)
    seqs [Bol; httpScheme; Lit "://github.com/"; Plus Dot; Lit "/"; Plus Dot; Eol];
    (* /^https?:\/\/gitlab\.com\/.+\/.+$/ *)
    seqs [Bol; httpScheme; Lit "://gitlab.com/"; Plus Dot; Lit "/"; Plus Dot; Eol];
    (* /^https?:\/\/.+\/.+$/ *)
    seqs [Bol; httpScheme; Lit "://"; Plus Dot; Lit "/"; Plus Dot; Eol] ].

Definition validateGitUrl (url : string) : bool :=
  existsb (fun pattern => test pattern url) gitUrlPatterns.

(** a text [.+] takes: not empty, and without a line terminator *)
Definition oneLine (t : list ascii) : bool :=
  negb (Nat.eqb (length t) 0)
  && forallb (fun c => negb (Str.is_line_terminator c)) t.

(** the three shapes of URL, on the characters of the text *)
Definition httpPrefix (cs : list ascii) : Prop :=
  cs = Str.chars "http://" \/ cs = Str.chars "https://".

Inductive gitUrlShape (url : string) : Prop :=
| shape_http_git scheme t :
    httpPrefix scheme -> oneLine t = true ->
    Str.chars url = (scheme ++ t ++ Str.chars ".git")%list ->
    gitUrlShape url
| shape_ssh_git host repo :
    oneLine host = true -> oneLine repo = true ->
    Str.chars url
    = (Str.chars "git@" ++ host ++ Str.chars ":" ++ repo ++ Str.chars ".git")%list ->
    gitUrlShape url
| shape_http_path scheme host rest :
    httpPrefix scheme -> oneLine host = true -> oneLine rest = true ->
    Str.chars url = (scheme ++ host ++ Str.chars "/" ++ rest)%list ->
    gitUrlShape url.

(** ** Configuration ([types.ts], [cli.ts] and [index.ts])

    The records follow the declared types: a required [string] field is a
    [string], an optional field an [option], and in a [Partial] every field
    is optional.  A string is falsy when it is empty, a number when it is
    zero.  Sizes, counts and delays are natural numbers; the temperature,
    which need not be whole, is a numerator and a denominator. *)

Record ParseStrategy : Type := mkParseStrategy {
  includeExtensions : list string;
  excludeDirs : list string;
  excludePatterns : list string;
  maxFileSize : nat;
  parseTypeScript : bool;
  parseJSDoc : bool
}.

Record PartialParseStrategy : Type := mkPartialParseStrategy {
  pp_includeExtensions : option (list string);
  pp_excludeDirs : option (list string);
  pp_excludePatterns : option (list string);
  pp_maxFileSize : option nat;
  pp_parseTypeScript : option bool;
  pp_parseJSDoc : option bool
}.

Record LLMConfig : Type := mkLLMConfig {
  baseUrl : string;
  apiKey : string;
  model : string;
  timeout : option nat;
  temperature : option (Z * positive);
  maxRetries : option nat
}.

Record PromptConfig : Type := mkPromptConfig {
  componentIdentification : option string;
  componentExtraction : option string
}.

Record AnalysisConfig : Type := mkAnalysisConfig {
  repositoryUrl : string;
  entryPath : option string;
  llm : LLMConfig;
  outputPath : option string;
  parseStrategy : ParseStrategy;
  promptConfig : option PromptConfig;
  tempDir : option string;
  enableCache : option bool;
  cacheDir : option string
}.

(** [Partial<AnalysisConfig>], as loadConfig reads the configuration file:
    every key through [||] or [?.], for which a key that is absent and a
    key that holds [undefined] are the same *)
Record PartialConfig : Type := mkPartialConfig {
  pc_repositoryUrl : option string;
  pc_entryPath : option string;
  pc_llm : option LLMConfig;
  pc_outputPath : option string;
  pc_parseStrategy : option ParseStrategy;
  pc_promptConfig : option PromptConfig;
  pc_tempDir : option string;
  pc_enableCache : option bool;
  pc_cacheDir : option string
}.

Definition emptyConfig : PartialConfig :=
  mkPartialConfig None None None None None None None None None.

(** [!s] on a string *)
Definition falsy (s : string) : bool := String.eqb s "".

(** [a || b] on values that are strings or undefined *)
Definition jsOr (a b : option string) : option string :=
  match a with
  | Some s => if falsy s then b else a
  | None => b
  end.

(** [a || d] with a string to fall back on *)
Definition orDefault (a : option string) (d : string) : string :=
  match a with
  | Some s => if falsy s then d else s
  | None => d
  end.

(** [{ ...defaults, ...overrides }] on a parse strategy, for overrides of
    type [Partial<ParseStrategy>] *)
Definition spreadStrategy (defaults : ParseStrategy)
           (overrides : option PartialParseStrategy) : ParseStrategy :=
  match overrides with
  | None => defaults
  | Some o =>
      mkParseStrategy
        (default (includeExtensions defaults) (pp_includeExtensions o))
        (default (excludeDirs defaults) (pp_excludeDirs o))
        (default (excludePatterns defaults) (pp_excludePatterns o))
        (default (maxFileSize defaults) (pp_maxFileSize o))
        (default (parseTypeScript defaults) (pp_parseTypeScript o))
        (default (parseJSDoc defaults) (pp_parseJSDoc o))
  end.

Module Cli.

(** the options commander hands to the action *)
Record Options : Type := mkOptions {
  opt_config : string;
  opt_entry : option string;
  opt_output : option string;
  opt_apiUrl : option string;
  opt_apiKey : option string;
  opt_model : option string;
  opt_tempDir : option string;
  opt_cache : bool;
  opt_maxComponents : string;
  opt_markdown : bool;
  opt_verbose : bool
}.

Definition defaultStrategy : ParseStrategy :=
  mkParseStrategy [".tsx"; ".ts"; ".jsx"; ".js"]
                  ["node_modules"; "dist"; "build"; ".git"; "coverage"; "docs";
                   "__tests__"; "test"]
                  ["*.test.*"; "*.spec.*"; "*.stories.*"; "*.d.ts"]
                  500 true true.

(** loadConfig.  [configFile] is what the dynamic import of the
    configuration file yields: nothing when the file is missing or fails to
    load.  [envKey] is [process.env.OPENAI_API_KEY]. *)
Definition loadConfig (repositoryUrl : option string) (options : Options)
           (configFile : option PartialConfig) (envKey : option string)
  : AnalysisConfig :=
  let config := default emptyConfig configFile in
  mkAnalysisConfig
    (orDefault (jsOr repositoryUrl (pc_repositoryUrl config)) "")
    (Some (orDefault (jsOr (opt_entry options) (pc_entryPath config)) ""))
    (mkLLMConfig
       (orDefault (jsOr (opt_apiUrl options) (option_map baseUrl (pc_llm config)))
                  "https://api.openai.com/v1")
       (orDefault (jsOr (jsOr (opt_apiKey options)
                              (option_map apiKey (pc_llm config)))
                        envKey) "")
       (orDefault (jsOr (opt_model options) (option_map model (pc_llm config)))
                  "gpt-3.5-turbo")
       (Some (match pc_llm config ≫= timeout with
              | Some (S n) => S n
              | _ => 30000%nat
              end))
       None None)
    (jsOr (opt_output options) (pc_outputPath config))
    (* [{ ...defaults, ...config.parseStrategy }]: the field, when the file
       gives it, is a whole strategy *)
    (default defaultStrategy (pc_parseStrategy config))
    None
    (jsOr (opt_tempDir options) (pc_tempDir config))
    (Some (opt_cache options
           && negb (bool_decide (pc_enableCache config = Some false))))
    (Some (orDefault (pc_cacheDir config) "./cache")).

(** how validateConfig ends: it returns, or it prints the errors and leaves
    the process with status 1 *)
Inductive Validation : Type :=
| Passes
| ExitsWith (status : nat) (errors : list string).

Definition configErrors (config : AnalysisConfig) : list string :=
  ((if falsy (repositoryUrl config)
    then ["缺少仓库URL，请通过参数或配置文件指定"] else [])
     ++ (if negb (validateGitUrl (repositoryUrl config))
         then ["仓库URL格式无效"] else [])
     ++ (if falsy (apiKey (llm config))
         then ["缺少API密钥，请设置环境变量 OPENAI_API_KEY 或通过配置文件指定"]
         else [])
     ++ (if falsy (baseUrl (llm config)) then ["缺少API基础URL"] else [])
     ++ (if falsy (model (llm config)) then ["缺少模型名称"] else []))%list.

Definition validateConfig (config : AnalysisConfig) : Validation :=
  match configErrors config with
  | [] => Passes
  | errors => ExitsWith 1 errors
  end.

End Cli.

(** ** Reports ([types.ts]) *)

Record ComponentProperty : Type := mkComponentProperty {
  prop_name : string;
  prop_description : string;
  prop_type : string;
  prop_typeDesc : option string;
  prop_defaultValue : option string;
  prop_enum : option (list string);
  prop_required : option bool
}.

Module Types.

Record ComponentInfo : Type := mkComponentInfo {
  name : string;
  chineseName : string;
  functions : list string;
  useCases : list string;
  uiFeatures : string;
  isContainer : bool;
  properties : list ComponentProperty;
  filePath : string
}.

Record LibraryInfo : Type := mkLibraryInfo {
  lib_name : string;
  lib_chineseName : string;
  lib_description : string;
  lib_useCases : list string;
  lib_version : option string;
  lib_author : option string
}.

Record AnalysisReport : Type := mkAnalysisReport {
  library : LibraryInfo;
  components : list ComponentInfo;
  analyzedAt : string;
  config : AnalysisConfig
}.

End Types.

(** ** A [Map] with string keys, in insertion order

    [set] on a key the map holds replaces the value and keeps the place of
    the key. *)

Module JsMap.
Section JsMap.
Context {V : Type}.

Definition t : Type := list (string * V).

Fixpoint set (key : string) (value : V) (m : t) : t :=
  match m with
  | [] => [(key, value)]
  | (k, v) :: m' =>
      if String.eqb k key then (k, value) :: m' else (k, v) :: set key value m'
  end.

(** [new Map(entries)] *)
Definition of_entries (entries : list (string * V)) : t :=
  fold_left (fun m entry => set entry.1 entry.2 m) entries [].

Definition get (key : string) (m : t) : option V :=
  option_map snd (find (fun entry => String.eqb entry.1 key) m).

Definition has (key : string) (m : t) : bool :=
  existsb (fun entry => String.eqb entry.1 key) m.

Definition keys (m : t) : list string := map fst m.

End JsMap.
End JsMap.

(** ** The functional API ([index.ts]) *)

Module Api.

Record ConfigCheck : Type := mkConfigCheck {
  isValid : bool;
  errors : list string;
  warnings : list string
}.

Definition defaultStrategy : ParseStrategy :=
  mkParseStrategy [".tsx"; ".ts"; ".jsx"; ".js"]
                  ["node_modules"; "dist"; "build"; ".git"; "coverage"; "docs"]
                  ["*.test.*"; "*.spec.*"; "*.stories.*"; "*.d.ts"]
                  500 true true.

(** A key of an object literal: absent, present with the value [undefined]
    (which [Partial] allows for every key), or present with a value. *)
Inductive Property (A : Type) : Type :=
| Absent
| Undefined
| Value (a : A).
Arguments Absent {A}.
Arguments Undefined {A}.
Arguments Value {A} a.

(** the [overrides] of createDefaultConfig, as the object they are *)
Record Overrides : Type := mkOverrides {
  ov_repositoryUrl : Property string;
  ov_entryPath : Property string;
  ov_llm : Property LLMConfig;
  ov_outputPath : Property string;
  ov_parseStrategy : Property ParseStrategy;
  ov_promptConfig : Property PromptConfig;
  ov_tempDir : Property string;
  ov_enableCache : Property bool;
  ov_cacheDir : Property string
}.

(** The object createDefaultConfig returns and validateConfig reads.  It is
    declared an [AnalysisConfig]; at run time each of its keys holds a
    value or [undefined] ([None]), the required ones included. *)
Record ConfigObject : Type := mkConfigObject {
  co_repositoryUrl : option string;
  co_entryPath : option string;
  co_llm : option LLMConfig;
  co_outputPath : option string;
  co_parseStrategy : option ParseStrategy;
  co_promptConfig : option PromptConfig;
  co_tempDir : option string;
  co_enableCache : option bool;
  co_cacheDir : option string
}.

(** the value of a key of [{ key: d, ...overrides }]: a key the overrides
    hold replaces the default, also when it holds [undefined] *)
Definition spread {A} (d : option A) (o : Property A) : option A :=
  match o with
  | Absent => d
  | Undefined => None
  | Value a => Some a
  end.

(** createDefaultConfig: [{ ...defaults, ...overrides }] *)
Definition createDefaultConfig (overrides : Overrides) : ConfigObject :=
  mkConfigObject
    (spread (Some "") (ov_repositoryUrl overrides))
    (spread (Some "") (ov_entryPath overrides))
    (spread (Some (mkLLMConfig "https://api.openai.com/v1" "" "gpt-3.5-turbo"
                               (Some 30000%nat) None None))
            (ov_llm overrides))
    (spread None (ov_outputPath overrides))
    (spread (Some defaultStrategy) (ov_parseStrategy overrides))
    (spread None (ov_promptConfig overrides))
    (spread None (ov_tempDir overrides))
    (spread (Some true) (ov_enableCache overrides))
    (spread None (ov_cacheDir overrides)).

(** validateConfig; [None] when it throws: [config.llm.apiKey] and
    [config.parseStrategy.maxFileSize] are read without a guard *)
Definition validateConfig (config : ConfigObject) : option ConfigCheck :=
  let errors1 :=
    if falsy (default "" (co_repositoryUrl config)) then ["缺少仓库URL"] else [] in
  match co_llm config with
  | None => None
  | Some llm =>
      let errors :=
        (errors1
           ++ (if falsy (apiKey llm) then ["缺少API密钥"] else [])
           ++ (if falsy (baseUrl llm) then ["缺少API基础URL"] else [])
           ++ (if falsy (model llm) then ["缺少模型名称"] else []))%list in
      let warnings1 :=
        ((if falsy (default "" (co_entryPath config))
          then ["未指定入口路径，将分析整个仓库"] else [])
           ++ (if falsy (default "" (co_outputPath config))
               then ["未指定输出路径，报告将不会保存到文件"] else []))%list in
      match co_parseStrategy config with
      | None => None
      | Some strategy =>
          let warnings :=
            (warnings1
               ++ (if (1000 <? maxFileSize strategy)%nat
                   then ["最大文件大小设置过大，可能影响性能"] else []))%list in
          Some (mkConfigCheck (Nat.eqb (length errors) 0) errors warnings)
      end
  end.

End Api.

Module Compare.
Import Types.

Record LibraryChanges : Type := mkLibraryChanges {
  lc_name : bool;
  lc_description : bool;
  lc_useCases : bool
}.

Record ComponentChanges : Type := mkComponentChanges {
  added : list string;
  removed : list string;
  modified : list (string * list string)
}.

(** [JSON.stringify(a) !== JSON.stringify(b)] on arrays of strings: the
    serialization of such arrays is injective, so the test is inequality
    of the arrays. *)
Definition differ (a b : list string) : bool :=
  negb (bool_decide (a = b)).

(** the [changes] of a component present in both reports *)
Definition changesOf (component1 component2 : ComponentInfo) : list string :=
  ((if negb (String.eqb (chineseName component1) (chineseName component2))
    then ["中文名变更"] else [])
     ++ (if differ (functions component1) (functions component2)
         then ["功能变更"] else [])
     ++ (if differ (useCases component1) (useCases component2)
         then ["使用场景变更"] else [])
     ++ (if negb (String.eqb (uiFeatures component1) (uiFeatures component2))
         then ["UI特征变更"] else [])
     ++ (if negb (Nat.eqb (length (properties component1))
                          (length (properties component2)))
         then ["属性数量变更"] else []))%list.

Definition componentMap (report : AnalysisReport) : JsMap.t :=
  JsMap.of_entries (map (fun c => (name c, c)) (components report)).

Definition compareReports (report1 report2 : AnalysisReport)
  : LibraryChanges * ComponentChanges :=
  let libraryChanges :=
    mkLibraryChanges
      (negb (String.eqb (lib_name (library report1)) (lib_name (library report2))))
      (negb (String.eqb (lib_description (library report1))
                        (lib_description (library report2))))
      (differ (lib_useCases (library report1)) (lib_useCases (library report2))) in
  let components1 := componentMap report1 in
  let components2 := componentMap report2 in
  let added :=
    filter (fun name => negb (JsMap.has name components1)) (JsMap.keys components2) in
  let removed :=
    filter (fun name => negb (JsMap.has name components2)) (JsMap.keys components1) in
  let modified :=
    fold_left
      (fun modified entry =>
         match JsMap.get entry.1 components1 with
         | Some component1 =>
             let changes := changesOf component1 entry.2 in
             if (0 <? length changes)%nat
             then (modified ++ [(entry.1, changes)])%list
             else modified
         | None => modified
         end)
      components2 [] in
  (libraryChanges, mkComponentChanges added removed modified).

(** the component a report's map holds under a name: the last one of the
    report with that name *)
Definition lastNamed (n : string) (report : AnalysisReport) : option ComponentInfo :=
  last (filter (fun c => bool_decide (name c = n)) (components report)).

End Compare.

(** the first of the candidates that is a string and is not empty *)
Fixpoint firstTruthy (candidates : list (option string)) : option string :=
  match candidates with
  | [] => None
  | Some s :: rest => if falsy s then firstTruthy rest else Some s
  | None :: rest => firstTruthy rest
  end.

(** *** batchAnalysis *)

Module Batch.

Record Repository : Type := mkRepository {
  url : string;
  repo_entryPath : option string;
  repo_name : option string
}.

Record Options : Type := mkOptions {
  outputDir : option string;
  opt_parseStrategy : option PartialParseStrategy;
  maxConcurrency : option nat
}.

Section BatchAnalysis.

(** [insight]: the report of a repository, or nothing when the analysis
    throws (the error is caught and the repository is left out). *)
Variable insight : AnalysisConfig -> option Types.AnalysisReport.

Variable repositories : list Repository.
Variable llmConfig : LLMConfig.
Variable options : option Options.

(** the configuration built for a repository of the batch that starts at
    index [i] *)
Definition repositoryConfig (i : nat) (repo : Repository) : AnalysisConfig :=
  mkAnalysisConfig
    (url repo)
    (Some (orDefault (repo_entryPath repo) ""))
    llmConfig
    (match options ≫= outputDir with
     | Some dir =>
         if falsy dir then None
         else Some (dir ++ "/"
                        ++ orDefault (repo_name repo) ("repo-" ++ Str.of_nat i)
                        ++ ".json")
     | None => None
     end)
    (spreadStrategy Api.defaultStrategy (options ≫= opt_parseStrategy))
    None None None None.

(** [repo.name] is undefined or empty, so that the name is made up *)
Definition unnamed (repo : Repository) : bool :=
  match repo_name repo with
  | Some s => falsy s
  | None => true
  end.

(** [const { maxConcurrency = 3 } = options || {}] *)
Definition concurrency : nat := default 3%nat (options ≫= maxConcurrency).

(** the [for] loop, [i] advancing by the concurrency *)
Fixpoint batchLoop (fuel i : nat) (results : list Types.AnalysisReport)
  : run (list Types.AnalysisReport) :=
  match fuel with
  | O => OutOfFuel
  | S fuel' =>
      if (length repositories <=? i)%nat then Returned results
      else
        let batch := firstn concurrency (skipn i repositories) in
        let batchResults :=
          map (fun repo => insight (repositoryConfig i repo)) batch in
        batchLoop fuel' (i + concurrency) (results ++ omap id batchResults)%list
  end.

Definition batchAnalysis (fuel : nat) : run (list Types.AnalysisReport) :=
  batchLoop fuel 0 [].

(** the configurations the repositories are analysed with, in order: a
    repository at index [k] belongs to the batch that starts at the
    multiple of the concurrency below [k] *)
Definition configurations : list AnalysisConfig :=
  imap (fun k repo => repositoryConfig (k / concurrency * concurrency) repo)
       repositories.

End BatchAnalysis.
End Batch.

(** ** Reports ([reporter.ts], ReportGenerator) *)

Module Reporter.
Import Types.

Record ReportCheck : Type := mkReportCheck {
  isValid : bool;
  errors : list string;
  warnings : list string
}.

Definition missingName (index : nat) : string :=
  "组件 " ++ Str.of_nat (index + 1) ++ " 缺少名称".
Definition missingChineseName (component : ComponentInfo) : string :=
  "组件 " ++ name component ++ " 缺少中文名称".
Definition missingProperties (component : ComponentInfo) : string :=
  "组件 " ++ name component ++ " 没有属性信息".

(** the body of the [forEach] of validateReport *)
Definition checkComponent (index : nat) (component : ComponentInfo)
           (acc : list string * list string) : list string * list string :=
  let errors :=
    if falsy (name component)
    then (acc.1 ++ [missingName index])%list
    else acc.1 in
  let warnings :=
    if falsy (chineseName component)
    then (acc.2 ++ [missingChineseName component])%list
    else acc.2 in
  let warnings :=
    if (length (properties component) =? 0)%nat
    then (warnings ++ [missingProperties component])%list
    else warnings in
  (errors, warnings).

(** [components.forEach((component, index) => ...)] *)
Fixpoint forEachIndexed {A St : Type} (f : nat -> A -> St -> St) (index : nat)
         (l : list A) (s : St) : St :=
  match l with
  | [] => s
  | x :: l' => forEachIndexed f (S index) l' (f index x s)
  end.

Definition validateReport (report : AnalysisReport) : ReportCheck :=
  let errors :=
    if falsy (lib_name (library report)) then ["缺少组件库名称"] else [] in
  let warnings :=
    if falsy (lib_chineseName (library report))
    then ["缺少组件库中文名称"] else [] in
  let warnings :=
    if (length (components report) =? 0)%nat
    then (warnings ++ ["未找到任何组件"])%list else warnings in
  let checked :=
    forEachIndexed checkComponent 0 (components report) (errors, warnings) in
  mkReportCheck (length checked.1 =? 0)%nat checked.1 checked.2.

(** generateReport; [now] is [new Date().toISOString()] *)
Definition generateReport (now : string) (libraryInfo : LibraryInfo)
           (components : list ComponentInfo) (config : AnalysisConfig)
  : AnalysisReport :=
  mkAnalysisReport
    libraryInfo components now
    (mkAnalysisConfig
       (repositoryUrl config) (entryPath config)
       (mkLLMConfig (baseUrl (llm config)) "***" (model (llm config))
                    (timeout (llm config)) (temperature (llm config))
                    (maxRetries (llm config)))
       (outputPath config) (parseStrategy config) (promptConfig config)
       (tempDir config) (enableCache config) (cacheDir config)).

(** *** generateComponentIndex

    The three indexes are plain objects.  A read [obj[key]] sees the
    properties of [Object.prototype] as well as the object's own; the
    model keeps the own properties in a map and lists the inherited
    names. *)

Definition objectPrototypeKeys : list string :=
  ["constructor"; "__defineGetter__"; "__defineSetter__"; "hasOwnProperty";
   "__lookupGetter__"; "__lookupSetter__"; "isPrototypeOf";
   "propertyIsEnumerable"; "toString"; "valueOf"; "__proto__";
   "toLocaleString"].

Record ComponentIndex : Type := mkComponentIndex {
  byName : gmap string ComponentInfo;
  byType_container : list ComponentInfo;
  byType_normal : list ComponentInfo;
  byFeature : gmap string (list ComponentInfo)
}.

(** [byName[key] = component]: an assignment to [__proto__] goes to the
    setter of the prototype and creates no property *)
Definition assignByName (key : string) (component : ComponentInfo)
           (m : gmap string ComponentInfo) : gmap string ComponentInfo :=
  if String.eqb key "__proto__" then m else <[key := component]> m.

(** [if (!byFeature[func]) byFeature[func] = []; byFeature[func].push(component)]:
    under a name of the prototype, not shadowed by a property of the
    object, the read yields a value that is no array, nothing is created,
    and the call to [push] throws a TypeError ([None]). *)
Definition pushFeature (component : ComponentInfo)
           (acc : option (gmap string (list ComponentInfo))) (func : string)
  : option (gmap string (list ComponentInfo)) :=
  match acc with
  | None => None
  | Some m =>
      match m !! func with
      | Some l => Some (<[func := (l ++ [component])%list]> m)
      | None =>
          if Str.included func objectPrototypeKeys then None
          else Some (<[func := [component]]> m)
      end
  end.

Definition indexComponent (acc : option ComponentIndex) (component : ComponentInfo)
  : option ComponentIndex :=
  match acc with
  | None => None
  | Some idx =>
      let byName := assignByName (name component) component (byName idx) in
      let container :=
        if isContainer component
        then (byType_container idx ++ [component])%list
        else byType_container idx in
      let normal :=
        if isContainer component
        then byType_normal idx
        else (byType_normal idx ++ [component])%list in
      match fold_left (pushFeature component) (functions component)
                      (Some (byFeature idx)) with
      | None => None
      | Some byFeature => Some (mkComponentIndex byName container normal byFeature)
      end
  end.

Definition generateComponentIndex (components : list ComponentInfo)
  : option ComponentIndex :=
  fold_left indexComponent components (Some (mkComponentIndex ∅ [] [] ∅)).

(** the value under a key of an index of lists: no property until a first
    element is pushed *)
Definition asEntry {A} (l : list A) : option (list A) :=
  match l with [] => None | _ => Some l end.

(** the components that list a feature, once for each time they list it *)
Definition listing (func : string) (components : list ComponentInfo)
  : list ComponentInfo :=
  flat_map (fun c => map (fun _ => c)
                         (filter (fun f => bool_decide (f = func)) (functions c)))
           components.

(** what the three indexes hold once the components [l] are indexed *)
Definition indexesOf (l : list ComponentInfo) (idx : ComponentIndex) : Prop :=
  byType_container idx = filter (fun c => isContainer c) l
  /\ byType_normal idx = filter (fun c => negb (isContainer c)) l
  /\ (forall f, byFeature idx !! f = asEntry (listing f l))
  /\ (forall n, byName idx !! n
                = if String.eqb n "__proto__" then None
                  else last (filter (fun c => bool_decide (name c = n)) l))
  /\ (forall c f, In c l -> In f (functions c) -> ~ In f objectPrototypeKeys).

End Reporter.

(** ** The dependency tree, read in preorder *)

(** the nodes of a tree, each with its path and depth, parents first *)
Fixpoint preorder (node : DependencyNode) : list (string * nat) :=
  match node with
  | mkDependencyNode _ p depth children => (p, depth) :: flat_map preorder children
  end.

(** a tree of the walk below a node of depth [depth - 1]: its root has depth
    [depth], no node has more than five children, and the children of a node
    are one level deeper *)
Fixpoint shapedAt (depth : nat) (node : DependencyNode) : Prop :=
  match node with
  | mkDependencyNode _ _ d children =>
      d = depth /\ (length children <= 5)%nat
      /\ fold_right (fun child rest => shapedAt (S depth) child /\ rest) True children
  end.

(** the most nodes a forest of [levels] levels can have when no node, and no
    level, has more than five children *)
Fixpoint forestBound (levels : nat) : nat :=
  match levels with
  | O => 0
  | S levels' => 5 * (1 + forestBound levels')
  end.

(** ** Further readings of the analyzer *)

Section AnalyzerReadings.

Variable parse : string -> option (list Node).
Variable path_dirname : string -> string.
Variable path_resolve : string -> string -> string.
Variable path_basename : string -> string.
Variable regexExportNames : string -> list string.
Variable findComponentFile : string -> list FileInfo -> option FileInfo.
Variable Analysis : Type.
Variable analyzeComponent : string -> string -> list string -> AnalyzerOutcome Analysis.
Variable relativeToCwd : string -> string.

(** what the analysis of one candidate contributes to the result: its
    information, or nothing when the analyzer throws *)
Definition analysisOf (componentFiles : list Component) (c : Component)
  : option (ComponentInfo Analysis) :=
  match buildDependencyContext path_dirname path_resolve path_basename
                               c componentFiles 3 with
  | Returned ctx =>
      match analyzeComponent (c_code c) (c_name c) (relatedFiles ctx) with
      | Analysed result =>
          Some (mkComponentInfo Analysis result (relativeToCwd (c_path c)))
      | Threw _ => None
      end
  | OutOfFuel => None
  end.

(** the analyzer never throws an error named AbortError *)
Definition neverAborts : Prop :=
  forall code name context,
    analyzeComponent code name context <> Threw "AbortError".

(** [cli.ts], getRelatedFiles *)
Definition relatedSnippet (depPath code : string) : string :=
  "// " ++ path_basename depPath ++ newline ++ Str.take 2000 code.

Definition getRelatedFiles (currentFile : FileInfo)
           (allComponentFiles : list Component) : list string :=
  let dependencies :=
    analyzeDependencies path_dirname path_resolve currentFile
                        (map c_file allComponentFiles) in
  fold_left
    (fun relatedFiles depPath =>
       match find (fun c => String.eqb (c_path c) depPath) allComponentFiles with
       | Some relatedComponent =>
           if (String.length (c_code relatedComponent) <? 5000)%nat
           then (relatedFiles
                   ++ [relatedSnippet depPath (c_code relatedComponent)])%list
           else relatedFiles
       | None => relatedFiles
       end)
    (firstn 3 dependencies) [].

(** *** identifyComponentsFromIndex *)

Record Identified : Type := mkIdentified {
  id_name : string;
  id_file : FileInfo;
  id_dependencies : list FileInfo
}.

(** [path.join] *)
Variable path_join : list string -> string.
(** the file system: the text of the file at a path, nothing when there is
    no file or it cannot be read *)
Variable readFile : string -> option string.
(** the rule-based identification of [parser.ts], the fallback *)
Variable fallbackToTraditionalIdentification : list FileInfo -> list Identified.
(** [config.entryPath] *)
Variable configEntryPath : option string.

Definition indexPathOf (projectDir : string) : string :=
  let targetPath :=
    match configEntryPath with
    | Some entry => if falsy entry then projectDir else path_join [projectDir; entry]
    | None => projectDir
    end in
  path_join [targetPath; "src"; "index.ts"].

(** the loop over the entries of the map.  The model of the map does not
    keep the insertion order; the entries are taken in the order of
    [map_to_list], and the caller sorts the result by name. *)
Definition traceAll (allFiles : list FileInfo) (componentInfoMap : gmap string string)
  : run (list Identified) :=
  match runAll (map (fun entry =>
                       traceComponentImplementation parse path_dirname path_resolve
                                                    entry.1 entry.2 allFiles)
                    (map_to_list componentInfoMap)) with
  | OutOfFuel => OutOfFuel
  | Returned traced =>
      Returned (omap (fun pair =>
                        match pair.2 with
                        | Some componentInfo =>
                            Some (mkIdentified pair.1.1 (tr_file componentInfo)
                                               (tr_dependencies componentInfo))
                        | None => None
                        end)
                     (zip (map_to_list componentInfoMap) traced))
  end.

Definition identifyComponentsFromIndex (fuel : nat) (projectDir : string)
           (allFiles : list FileInfo) : run (list Identified) :=
  let indexPath := indexPathOf projectDir in
  match readFile indexPath with
  | None => Returned (fallbackToTraditionalIdentification allFiles)
  | Some indexContent =>
      match extractComponentInfoFromIndex parse path_dirname path_resolve
                                          regexExportNames findComponentFile fuel allFiles
                                          indexContent indexPath with
      | OutOfFuel => OutOfFuel
      | Returned componentInfoMap =>
          if bool_decide (componentInfoMap = ∅)
          then Returned (fallbackToTraditionalIdentification allFiles)
          else traceAll allFiles componentInfoMap
      end
  end.

(** *** scanComponents *)

(** [parser.ts], scanDirectory: the files under the project directory and
    the entry path, nothing when the scan throws *)
Variable scanDirectory : string -> option string -> option (list FileInfo).
(** [components.sort((a, b) => a.name.localeCompare(b.name))] *)
Variable sortByName : list Component -> list Component.

Definition componentOfResult (result : Identified) : Component :=
  mkComponent (id_name result) (content (id_file result)) (path (id_file result))
              (id_file result) (Some (id_dependencies result)).

(** scanComponents: the candidates, nothing ([None]) when the scan throws;
    it does not return when the identification does not *)
Definition scanComponents (fuel : nat) (projectDir : string)
  : run (option (list Component)) :=
  match scanDirectory projectDir configEntryPath with
  | None => Returned None
  | Some allFiles =>
      match identifyComponentsFromIndex fuel projectDir allFiles with
      | OutOfFuel => OutOfFuel
      | Returned componentResults =>
          Returned (Some (sortByName (map componentOfResult componentResults)))
      end
  end.

End AnalyzerReadings.

(** what a call of the walk, entered with the state [w] at depth [depth],
    leaves behind: the children it hands to its parent and the state [w'] *)
Definition walked (maxDepth depth : nat) (w : Walk)
           (children : list DependencyNode) (w' : Walk) : Prop :=
  w_dependencyPaths w'
  = (w_dependencyPaths w ++ map fst (flat_map preorder children))%list
  /\ w_dependencyDepths w'
     = (w_dependencyDepths w ++ map snd (flat_map preorder children))%list
  /\ Forall (shapedAt (S depth)) children
  /\ w_processedPaths w ⊆ w_processedPaths w'
  /\ (forall p, In p (map fst (flat_map preorder children)) ->
                p ∉ w_processedPaths w)
  /\ (length (flat_map preorder children)
      <= length children * (1 + forestBound (maxDepth - S depth)))%nat.

(** ** The analysis pipeline ([cli.ts], ComponentAnalyzer.analyze) *)

Module Pipeline.

(** what the run does to the clone, in order *)
Inductive Step : Type :=
| Cloned (projectDir : string)
| Saved (filePath : string)
| CleanedUp (projectDir : string).

(** how [analyze] ends: with the report, by throwing, or with the process
    gone *)
Inductive Outcome (R : Type) : Type :=
| Resolves (report : R)
| Rejects
| ProcessExits (status : nat).
Arguments Resolves {R} report.
Arguments Rejects {R}.
Arguments ProcessExits {R} status.

Section Analyze.

Variable parse : string -> option (list Node).
Variable path_dirname : string -> string.
Variable path_resolve : string -> string -> string.
Variable path_basename : string -> string.
Variable regexExportNames : string -> list string.
Variable findComponentFile : string -> list FileInfo -> option FileInfo.
Variable Analysis : Type.
Variable analyzeComponent : string -> string -> list string -> AnalyzerOutcome Analysis.
Variable relativeToCwd : string -> string.
Variable path_join : list string -> string.
Variable readFile : string -> option string.
Variable fallbackToTraditionalIdentification : list FileInfo -> list Identified.
Variable scanDirectory : string -> option string -> option (list FileInfo).
Variable sortByName : list Component -> list Component.
(** the interrupt delivered during the run, if any *)
Variable interrupt : option nat.
Variable Report : Type.

(** the steps outside the analyzer, each yielding nothing when it throws *)
Variable cloneRepository : string -> option string.
Variable analyzeLibraryInfo : string -> option Types.LibraryInfo.
Variable generateReport :
  Types.LibraryInfo -> list (ComponentInfo Analysis) -> AnalysisConfig -> Report.
Variable saveReport : Report -> string -> option string.

(** the [finally] block: [if (projectDir) await this.gitManager.cleanup(projectDir)] *)
Definition cleanup (projectDir : string) (steps : list Step) : list Step :=
  if falsy projectDir then steps else (steps ++ [CleanedUp projectDir])%list.

(** [this.scanComponents(projectDir)], under the entry path of the
    configuration *)
Definition scan (fuel : nat) (config : AnalysisConfig) (projectDir : string)
  : run (option (list Component)) :=
  scanComponents parse path_dirname path_resolve regexExportNames
                 findComponentFile path_join readFile
                 fallbackToTraditionalIdentification (entryPath config)
                 scanDirectory sortByName fuel projectDir.

(** analyze.  [fuel] is the budget of the resolver of the export graph,
    the one step that need not return. *)
Definition analyze (fuel : nat) (config : AnalysisConfig)
  : run (Outcome Report * list Step) :=
  match cloneRepository (repositoryUrl config) with
  | None => Returned (Rejects, [])
  | Some projectDir =>
      let steps := [Cloned projectDir] in
      match analyzeLibraryInfo projectDir with
      | None => Returned (Rejects, cleanup projectDir steps)
      | Some libraryInfo =>
          match scan fuel config projectDir with
          | OutOfFuel => OutOfFuel
          | Returned None => Returned (Rejects, cleanup projectDir steps)
          | Returned (Some componentFiles) =>
              match analyzeComponents path_dirname path_resolve path_basename
                                      Analysis analyzeComponent relativeToCwd
                                      interrupt componentFiles with
              | OutOfFuel => OutOfFuel
              | Returned (Exits status, _) =>
                  (* [process.exit] runs no [finally] block *)
                  Returned (ProcessExits status, steps)
              | Returned (Returns components, _) =>
                  let report := generateReport libraryInfo components config in
                  match outputPath config with
                  | Some out =>
                      if falsy out
                      then Returned (Resolves report, cleanup projectDir steps)
                      else
                        match saveReport report out with
                        | Some filePath =>
                            Returned (Resolves report,
                                      cleanup projectDir
                                              (steps ++ [Saved filePath])%list)
                        | None => Returned (Rejects, cleanup projectDir steps)
                        end
                  | None => Returned (Resolves report, cleanup projectDir steps)
                  end
              end
          end
      end
  end.

End Analyze.
End Pipeline.

(** ** The command ([cli.ts], the action of the main command) *)

Module Command.







Section Action.

Variable Report : Type.
(** [analyzer.analyze()] *)
Variable analyze : AnalysisConfig -> Pipeline.Outcome Report.
(** generateMarkdownReport, nothing when it throws *)
Variable generateMarkdownReport : Report -> option string -> option string.
(** [outputPath.replace(/\.json$/, '.md')] *)
Variable markdownPathOf : string -> string.
(** the counters of the run that the statistics report *)
Variable requestCount totalTokens parserSize parserTotal : nat.


End Action.
End Command.

(** ** The model client ([llm.ts], LLMManager) *)

Module Llm.

Record Message : Type := mkMessage {
  role : string;
  msg_content : string
}.

Record Usage : Type := mkUsage {
  promptTokens : nat;
  completionTokens : nat;
  totalTokens : nat
}.

Record LLMResponse : Type := mkLLMResponse {
  content : string;
  usage : option Usage;
  responseTime : nat
}.

(** the counters of the manager *)
Record Stats : Type := mkStats {
  requestCount : nat;
  tokensUsed : nat
}.

(** [Math.ceil(n / 4)] *)
Definition ceilQuarter (n : nat) : nat := ((n + 3) / 4)%nat.

(** [messages.reduce((sum, msg) => sum + msg.content.length, 0)] *)
Definition promptLength (messages : list Message) : nat :=
  fold_left (fun sum msg => (sum + String.length (msg_content msg))%nat) messages 0%nat.

Section Chat.

(** the client: the text of the reply, nothing when the request fails *)
Variable invoke : list Message -> option string.

(** chat, on the counters: the response and the counters after it, or the
    error ([None]) with the counters as they were.  [elapsed] is the time
    measured around the request. *)
Definition chat (elapsed : nat) (messages : list Message) (stats : Stats)
  : option LLMResponse * Stats :=
  match invoke messages with
  | Some reply =>
      let estimatedTokens :=
        ceilQuarter (promptLength messages + String.length reply) in
      (Some (mkLLMResponse
               reply
               (Some (mkUsage (ceilQuarter (promptLength messages))
                              (ceilQuarter (String.length reply))
                              estimatedTokens))
               elapsed),
       mkStats (S (requestCount stats)) (tokensUsed stats + estimatedTokens))
  | None => (None, stats)
  end.

(** a sequence of requests, each with its elapsed time *)
Definition chats (requests : list (nat * list Message)) (stats : Stats)
  : list (option LLMResponse) * Stats :=
  fold_left (fun acc request =>
               let r := chat request.1 request.2 acc.2 in
               ((acc.1 ++ [r.1])%list, r.2))
            requests ([], stats).

End Chat.

Definition getStats (stats : Stats) : Stats := stats.
Definition resetStats (stats : Stats) : Stats := mkStats 0 0.

End Llm.

(** ** The cache ([cache.ts], CacheManager)

    The manager after [initialize]: its directories exist when it is
    enabled, so a write succeeds.  The cache directory is a map from paths
    to the data written there, and a file holds what was last written to
    it.  Times are in milliseconds since the epoch, which is what the ISO
    text of [cachedAt] is parsed back to. *)

Module Cache.

Record RepositoryData : Type := mkRepositoryData {
  repo_files : list (string * string * string);
  repo_components : list string
}.

(** what a cache file holds beside the two strings of its key *)
Inductive Payload : Type :=
| ComponentPayload (componentInfo : Types.ComponentInfo)
| LibraryPayload (libraryInfo : Types.LibraryInfo)
| RepositoryPayload (data : RepositoryData).

Record CacheData : Type := mkCacheData {
  key_fields : list (string * string);
  cachedAt : Z;
  payload : Payload
}.

Record Manager : Type := mkManager {
  cacheDir : string;
  enabled : bool;
  files : gmap string CacheData
}.

Definition msPerDay : Z := 1000 * 60 * 60 * 24.

Section Cache.

(** generateCacheKey: the MD5 digest of the JSON text of an object, given
    by its properties in order *)
Variable generateCacheKey : list (string * string) -> string.
Variable path_join : list string -> string.

Definition cachePath (m : Manager) (kind : string)
           (key : list (string * string)) : string :=
  path_join [cacheDir m; kind; generateCacheKey key ++ ".json"].

(** the body the three [cache...] methods share *)
Definition write (kind : string) (now : Z) (key : list (string * string))
           (p : Payload) (m : Manager) : Manager :=
  if enabled m
  then mkManager (cacheDir m) (enabled m)
                 (<[cachePath m kind key := mkCacheData key now p]> (files m))
  else m.

(** the body the three [getCached...] methods share: a file older than
    [maxDays] is removed and nothing is returned *)
Definition read (kind : string) (maxDays : Z) (now : Z)
           (key : list (string * string))
           (m : Manager) : option Payload * Manager :=
  if enabled m then
    match files m !! cachePath m kind key with
    | None => (None, m)
    | Some cacheData =>
        if (maxDays * msPerDay <? now - cachedAt cacheData)%Z
        then (None, mkManager (cacheDir m) (enabled m)
                              (delete (cachePath m kind key) (files m)))
        else (Some (payload cacheData), m)
    end
  else (None, m).

Definition repositoryKey (repositoryUrl commitHash : string) :=
  [("repositoryUrl", repositoryUrl); ("commitHash", commitHash)].
Definition componentKey (componentName codeHash : string) :=
  [("componentName", componentName); ("codeHash", codeHash)].
Definition libraryKey (repositoryUrl packageJsonHash : string) :=
  [("repositoryUrl", repositoryUrl); ("packageJsonHash", packageJsonHash)].

Definition cacheRepository (now : Z) (repositoryUrl commitHash : string)
           (data : RepositoryData) : Manager -> Manager :=
  write "repositories" now (repositoryKey repositoryUrl commitHash)
        (RepositoryPayload data).

Definition getCachedRepository (now : Z) (repositoryUrl commitHash : string)
           (m : Manager) : option RepositoryData * Manager :=
  let r := read "repositories" 7 now (repositoryKey repositoryUrl commitHash) m in
  (match r.1 with Some (RepositoryPayload data) => Some data | _ => None end, r.2).

Definition cacheComponent (now : Z) (componentName codeHash : string)
           (componentInfo : Types.ComponentInfo) : Manager -> Manager :=
  write "components" now (componentKey componentName codeHash)
        (ComponentPayload componentInfo).

Definition getCachedComponent (now : Z) (componentName codeHash : string)
           (m : Manager) : option Types.ComponentInfo * Manager :=
  let r := read "components" 3 now (componentKey componentName codeHash) m in
  (match r.1 with Some (ComponentPayload info) => Some info | _ => None end, r.2).

Definition cacheLibrary (now : Z) (repositoryUrl packageJsonHash : string)
           (libraryInfo : Types.LibraryInfo) : Manager -> Manager :=
  write "libraries" now (libraryKey repositoryUrl packageJsonHash)
        (LibraryPayload libraryInfo).

Definition getCachedLibrary (now : Z) (repositoryUrl packageJsonHash : string)
           (m : Manager) : option Types.LibraryInfo * Manager :=
  let r := read "libraries" 7 now (libraryKey repositoryUrl packageJsonHash) m in
  (match r.1 with Some (LibraryPayload info) => Some info | _ => None end, r.2).

Definition disable (m : Manager) : Manager :=
  mkManager (cacheDir m) false (files m).
Definition enable (m : Manager) : Manager :=
  mkManager (cacheDir m) true (files m).
Definition isEnabled (m : Manager) : bool := enabled m.

End Cache.
End Cache.

(** ** The name of the clone ([git.ts], GitManager.extractProjectName) *)

Module Text.

(** [s.includes(t)] *)
Fixpoint includes (t s : string) : bool :=
  String.prefix t s
  || match s with
     | EmptyString => false
     | String _ s' => includes t s'
     end.

(** [s.split(sep)] for a separator of one character *)
Fixpoint split (sep : ascii) (s : string) : list string :=
  match s with
  | EmptyString => [EmptyString]
  | String c s' =>
      if Ascii.eqb c sep then EmptyString :: split sep s'
      else match split sep s' with
           | part :: parts => String c part :: parts
           | [] => [String c EmptyString]
           end
  end.

(** [s.replace(t, '')] for a text [t]: the first occurrence is removed *)
Fixpoint removeFirst (t s : string) : string :=
  if String.prefix t s then Str.drop (String.length t) s
  else match s with
       | EmptyString => EmptyString
       | String c s' => String c (removeFirst t s')
       end.

Definition to_lower (c : ascii) : ascii :=
  if Str.is_upper c then ascii_of_nat (Str.code c + 32) else c.

End Text.

Module Git.

(** [[a-zA-Z0-9-_]]: after the range [0-9] the hyphen is a character of
    the class *)
Definition keptInName (c : ascii) : bool :=
  Str.is_alnum c || Ascii.eqb c "-" || Ascii.eqb c "_".

(** [projectName.replace(/[^a-zA-Z0-9-_]/g, '-').toLowerCase()] *)
Definition cleanName (projectName : string) : string :=
  Str.of_chars
    (map Text.to_lower
         (map (fun c => if keptInName c then c else "-"%char)
              (Str.chars projectName))).

(** what a cleaned name is made of *)
Definition safeInName (c : ascii) : bool :=
  Str.is_lower c || Str.is_digit c || Ascii.eqb c "-" || Ascii.eqb c "_".

Section ExtractProjectName.

(** [match[2]] of [/[\/:]([^\/]+)\/([^\/]+?)(?:\.git)?$/] on the URL,
    nothing when the expression does not match *)
Variable repositoryMatch : string -> option string.

Definition hosted (repositoryUrl : string) : bool :=
  Text.includes "github.com" repositoryUrl
  || Text.includes "gitlab.com" repositoryUrl.

Definition extractProjectName (repositoryUrl : string) : string :=
  let projectName :=
    if hosted repositoryUrl
    then match repositoryMatch repositoryUrl with
         | Some name => name
         | None => "unknown-project"
         end
    else
      let parts := Text.split "/" repositoryUrl in
      let stripped := Text.removeFirst ".git" (default "" (last parts)) in
      if falsy stripped then "unknown-project" else stripped in
  cleanName projectName.

End ExtractProjectName.
End Git.

(** ** Sample data *)

Module Samples.

Definition button : Types.ComponentInfo :=
  Types.mkComponentInfo "Button" "button" ["click"; "submit"] ["forms"]
                        "rounded" false [] "src/Button.tsx".
Definition layout : Types.ComponentInfo :=
  Types.mkComponentInfo "Layout" "layout" ["click"] ["pages"]
                        "grid" true [] "src/Layout.tsx".
Definition library : Types.LibraryInfo :=
  Types.mkLibraryInfo "ui" "ui" "a library" ["apps"] None None.
Definition llmConfig : LLMConfig :=
  mkLLMConfig "https://api.openai.com/v1" "key" "gpt-3.5-turbo" None None None.
Definition reportOf (config : AnalysisConfig) : Types.AnalysisReport :=
  Types.mkAnalysisReport library [button; layout] "2024-01-01T00:00:00.000Z" config.

(** an analysis that fails on the repositories without an entry path *)
Definition insight (config : AnalysisConfig) : option Types.AnalysisReport :=
  if falsy (default "" (entryPath config)) then None else Some (reportOf config).

Definition repositories : list Batch.Repository :=
  [Batch.mkRepository "https://github.com/a/one" (Some "packages/ui") None;
   Batch.mkRepository "https://github.com/a/two" None None;
   Batch.mkRepository "https://github.com/a/three" (Some "src") (Some "three");
   Batch.mkRepository "https://github.com/a/four" (Some "lib") None].

Definition join (segments : list string) : string := String.concat "/" segments.
Definition cacheKey (data : list (string * string)) : string :=
  String.concat "-" (map snd data).
Definition readFrom (files : list FileInfo) (p : string) : option string :=
  option_map content (findByPath p files).
Definition emptyCache : Cache.Manager := Cache.mkManager "./cache" true ∅.


End Samples.

(** * Properties *)

(** ** The implementation tracer *)

Section TracerProperties.

Variable parse : string -> option (list Node).
Variable path_dirname : string -> string.
Variable path_resolve : string -> string -> string.
Variable allFiles : list FileInfo.

Local Abbreviation resolveFile := (resolveFilePath path_dirname path_resolve).
Local Abbreviation targetsOf := (reexportTargets path_dirname path_resolve).
Local Abbreviation visit := (traceVisit path_dirname path_resolve).
Local Abbreviation trace := (traceImplementation parse path_dirname path_resolve).

Lemma findByPath_path p f : findByPath p allFiles = Some f -> path f = p.
Proof.
  unfold findByPath. intros H. apply find_some in H as [_ H].
  by apply String.eqb_eq in H.
Qed.

Lemma findByPath_self p f :
  findByPath p allFiles = Some f -> findByPath (path f) allFiles = Some f.
Proof. intros H. by rewrite (findByPath_path _ _ H). Qed.

Lemma firstExisting_found base exts p :
  firstExisting base exts allFiles = Some p ->
  exists f, findByPath p allFiles = Some f /\ path f = p.
Proof.
  induction exts as [|ext exts IH]; simpl; [done|].
  destruct (findByPath (base ++ ext) allFiles) as [f|] eqn:E; [|done].
  intros [= <-]. exists f. split; [by eapply findByPath_self|done].
Qed.

Lemma resolveFilePath_found rel from p :
  resolveFile rel from allFiles = Some p ->
  exists f, findByPath p allFiles = Some f /\ path f = p.
Proof. apply firstExisting_found. Qed.

(** *** The traversal, read off the re-export targets *)

Lemma setFound_applyTarget t c :
  applyTarget allFiles (setFound t) c = setFound (applyTarget allFiles t c).
Proof.
  destruct c as [tp|n tp]; simpl; [|done].
  by destruct (findByPath tp allFiles).
Qed.

Lemma orFound_fold b cs t :
  fold_left (applyTarget allFiles) cs (orFound b t)
  = orFound b (fold_left (applyTarget allFiles) cs t).
Proof.
  destruct b; [|done]. simpl. revert t.
  induction cs as [|c cs IH]; intros t; simpl; [done|].
  by rewrite setFound_applyTarget, IH.
Qed.

Lemma orFound_orb a b t : orFound a (orFound b t) = orFound (b || a) t.
Proof. by destruct a, b. Qed.

Lemma traceSpecifier_targets name from source t sp :
  traceSpecifier path_dirname path_resolve name from source allFiles t sp
  = fold_left (applyTarget allFiles)
      (flat_map (resolveCandidate path_dirname path_resolve name from allFiles)
                (specifierCandidate name source sp)) t.
Proof.
  destruct sp as [local exported kind| |]; simpl; [|done..].
  destruct (String.eqb (exportedNameOf exported) name) eqn:E; [|done].
  simpl. unfold resolveCandidate; simpl.
  destruct (resolveFile source from allFiles) as [tp|]; simpl; [|done].
  rewrite app_nil_r.
  by destruct (String.eqb _ "default").
Qed.

Lemma traceSpecifiers_targets name from source specs t :
  fold_left (traceSpecifier path_dirname path_resolve name from source allFiles)
            specs t
  = fold_left (applyTarget allFiles)
      (flat_map (resolveCandidate path_dirname path_resolve name from allFiles)
                (flat_map (specifierCandidate name source) specs)) t.
Proof.
  revert t. induction specs as [|sp specs IH]; intros t; simpl; [done|].
  rewrite flat_map_app, fold_left_app, IH.
  by rewrite traceSpecifier_targets.
Qed.

Lemma traceVisit_targets name from t node :
  visit name from allFiles t node
  = orFound (declaresNode name node)
      (fold_left (applyTarget allFiles)
         (flat_map (resolveCandidate path_dirname path_resolve name from allFiles)
                   (reexportCandidates name node)) t).
Proof.
  destruct node as [[n|]|[n|] init|[n|]|kind specs [source|] declared|source|decl];
    simpl; try done.
  - destruct (String.eqb n name); simpl; [|done].
    unfold componentInit.
    by destruct init; try destruct (looksLikeComponentCall _).
  - apply traceSpecifiers_targets.
  - unfold resolveCandidate; simpl.
    by destruct (resolveFile source from allFiles) as [tp|].
  - by destruct decl as [n|[n|]|].
Qed.

(** a traversal is the re-export targets applied in order, with the flag
    raised when the name is declared *)
Lemma traverse_targets name from ast t :
  fold_left (visit name from allFiles) ast t
  = orFound (declares name ast)
      (fold_left (applyTarget allFiles) (targetsOf name from allFiles ast) t).
Proof.
  revert t. induction ast as [|node ast IH]; intros t; simpl; [done|].
  rewrite IH, traceVisit_targets, orFound_fold, orFound_orb.
  unfold reexportTargets; simpl. by rewrite fold_left_app.
Qed.

(** with no [default as] among them, the targets only move the next hop *)
Lemma follow_targets ts t :
  Forall (fun c => isDefaultAs c = false) ts ->
  fold_left (applyTarget allFiles) ts t
  = mkTraversal (foundImplementation t)
      (match last ts with
       | Some (Follow n tp) => Some (n, tp)
       | _ => nextTraceTarget t
       end)
      (defaultAsTarget t) (collected t).
Proof.
  intros H. revert t. induction H as [|c ts Hc Hts IH]; intros t.
  - by destruct t.
  - simpl fold_left. rewrite IH, last_cons.
    destruct c as [tp|n tp]; [done|]. simpl.
    destruct (last ts) as [[?|? ?]|] eqn:E; try done.
    apply last_Some in E as [l' ->].
    apply Forall_app in Hts as [_ Hl]. by inversion Hl.
Qed.

Lemma nodefault_no_exists ts :
  Forall (fun c => isDefaultAs c = false) ts -> existsb isDefaultAs ts = false.
Proof.
  induction 1 as [|c ts Hc _ IH]; simpl; [done|]. by rewrite Hc, IH.
Qed.

Lemma addDependency_idem f deps :
  addDependency f (addDependency f deps) = addDependency f deps.
Proof.
  unfold addDependency.
  destruct (existsb _ deps) eqn:E; [by rewrite E|].
  rewrite existsb_app. simpl. by rewrite E, String.eqb_refl.
Qed.

(** when every [default as] among the targets leads to one file, that file
    is the answer of the traversal as soon as one occurs *)
Lemma default_targets ts t barPath barFile :
  findByPath barPath allFiles = Some barFile ->
  (forall tp, In (DefaultAs tp) ts -> tp = barPath) ->
  let t' := fold_left (applyTarget allFiles) ts t in
  if existsb isDefaultAs ts
  then foundImplementation t' = true
       /\ defaultAsTarget t' = Some barFile
       /\ (collected t' = addDependency barFile (collected t))
  else foundImplementation t' = foundImplementation t
       /\ defaultAsTarget t' = defaultAsTarget t
       /\ collected t' = collected t.
Proof.
  intros Hbar. revert t.
  induction ts as [|c ts IH]; intros t Hall; simpl; [done|].
  specialize (IH (applyTarget allFiles t c)
                 (fun tp H => Hall tp (or_intror H))).
  simpl in IH.
  destruct c as [tp|n tp]; simpl in *.
  - rewrite (Hall tp (or_introl eq_refl)), Hbar in *. simpl in IH.
    destruct (existsb isDefaultAs ts).
    + destruct IH as (-> & -> & ->). by rewrite addDependency_idem.
    + by destruct IH as (-> & -> & ->).
  - done.
Qed.

Lemma defaultAs_in_targets name from ast tp :
  In (DefaultAs tp) (targetsOf name from allFiles ast)
  <-> exists source, In source (defaultSources name ast)
                     /\ resolveFile source from allFiles = Some tp.
Proof.
  unfold reexportTargets, defaultSources.
  rewrite in_flat_map. setoid_rewrite in_flat_map.
  setoid_rewrite in_flat_map. split.
  - intros (node & Hnode & c & Hc & Hin). unfold resolveCandidate in Hin.
    destruct (resolveFile (candidateSource c) from allFiles) as [tp'|] eqn:E;
      [|done].
    destruct c as [local source|source]; simpl in *.
    + destruct (String.eqb local "default") eqn:El; simpl in Hin.
      * destruct Hin as [[= ->]|[]]. exists source. split; [|done].
        exists (NamedFrom local source). split; [by eauto|].
        rewrite El. by left.
      * by destruct Hin as [|[]].
    + by destruct Hin as [|[]].
  - intros (source & (c & (node & Hnode & Hc) & Hin) & Hres).
    exists node. split; [done|]. exists c. split; [done|].
    destruct c as [local source'|source']; [|done].
    destruct (String.eqb local "default") eqn:El; [|done].
    destruct Hin as [->|[]]. unfold resolveCandidate. simpl.
    rewrite Hres, El. by left.
Qed.

(** *** One call of the tracer *)

Lemma addDependency_new f deps :
  Forall (fun d => path d <> path f) deps -> addDependency f deps = (deps ++ [f])%list.
Proof.
  intros H. unfold addDependency.
  replace (existsb _ deps) with false; [done|].
  symmetry. apply not_true_is_false. intros He.
  apply existsb_exists in He as (d & Hd & He).
  apply String.eqb_eq in He. rewrite Forall_forall in H.
  apply (H d); [by apply list_elem_of_In|done].
Qed.

(** a file that forwards the name hands the search to the next file *)
Lemma trace_forward fuel name F name' G depth st :
  forwards parse path_dirname path_resolve allFiles name F name' G ->
  findByPath (path F) allFiles = Some F ->
  (depth <= 10)%nat ->
  path F ∉ visited st ->
  trace (S fuel) allFiles name (path F) depth st
  = trace fuel allFiles name' (path G) (S depth)
      (mkTraceState ({[path F]} ∪ visited st)
                    (addDependency F (dependencies st))).
Proof.
  intros (ast & Hparse & Hdecl & Hnodef & Hlast) HF Hdepth Hfresh.
  simpl. replace (10 <? depth)%nat with false
    by (symmetry; apply Nat.ltb_ge; lia).
  rewrite decide_False by done.
  rewrite HF, Hparse. unfold traceTraverse.
  rewrite traverse_targets, Hdecl, (follow_targets _ _ Hnodef), Hlast.
  done.
Qed.

(** a file that implements the name ends the search *)
Lemma trace_implemented fuel name F depth st :
  implements parse path_dirname path_resolve allFiles name F ->
  findByPath (path F) allFiles = Some F ->
  (depth <= 10)%nat ->
  path F ∉ visited st ->
  trace (S fuel) allFiles name (path F) depth st
  = Returned (Some F, mkTraceState ({[path F]} ∪ visited st)
                                   (addDependency F (dependencies st))).
Proof.
  intros (ast & Hparse & Hdecl & Hnodef) HF Hdepth Hfresh.
  simpl. replace (10 <? depth)%nat with false
    by (symmetry; apply Nat.ltb_ge; lia).
  rewrite decide_False by done.
  rewrite HF, Hparse. unfold traceTraverse.
  rewrite traverse_targets, Hdecl, (follow_targets _ _ Hnodef).
  done.
Qed.

(** a call on a file already visited returns [null] at once *)
Lemma trace_visited fuel name p depth st :
  p ∈ visited st ->
  trace (S fuel) allFiles name p depth st = Returned (None, st).
Proof.
  intros H. simpl. destruct (10 <? depth)%nat; [done|].
  by rewrite decide_True.
Qed.

(** the recursion budget is never exhausted *)
Lemma trace_total fuel name p depth st :
  (12 <= S fuel + depth)%nat ->
  exists r, trace (S fuel) allFiles name p depth st = Returned r.
Proof.
  revert name p depth st.
  induction fuel as [|fuel IH]; intros name p depth st Hfuel.
  - simpl. replace (10 <? depth)%nat with true
      by (symmetry; apply Nat.ltb_lt; lia).
    eauto.
  - cbn [traceImplementation].
    destruct (10 <? depth)%nat; [eauto|].
    destruct (decide _); [eauto|].
    destruct (findByPath p allFiles) as [f|]; [|eauto].
    destruct (parse (content f)) as [ast|]; [|eauto].
    destruct (foundImplementation _).
    + destruct (defaultAsTarget _); eauto.
    + destruct (nextTraceTarget _) as [[n' tp]|]; [|eauto].
      apply IH. lia.
Qed.

(** *** The file returned is one of the files collected *)

Lemma addDependency_indexed f deps :
  findByPath (path f) allFiles = Some f ->
  indexed allFiles deps ->
  indexed allFiles (addDependency f deps)
  /\ In f (addDependency f deps)
  /\ (forall d, In d deps -> In d (addDependency f deps)).
Proof.
  intros Hf Hdeps. unfold addDependency.
  destruct (existsb _ deps) eqn:E.
  - repeat split; try done.
    apply existsb_exists in E as (d & Hd & E). apply String.eqb_eq in E.
    unfold indexed in Hdeps. rewrite Forall_forall in Hdeps.
    pose proof (Hdeps d (proj2 (list_elem_of_In _ _) Hd)) as Hfd.
    rewrite E, Hf in Hfd. by injection Hfd as ->.
  - repeat split.
    + apply Forall_app. split; [done|]. by constructor.
    + apply in_app_iff. right. by left.
    + intros d Hd. apply in_app_iff. by left.
Qed.

Lemma applyTargets_indexed ts t :
  indexed allFiles (collected t) ->
  (forall x, defaultAsTarget t = Some x -> In x (collected t)) ->
  let t' := fold_left (applyTarget allFiles) ts t in
  indexed allFiles (collected t')
  /\ (forall d, In d (collected t) -> In d (collected t'))
  /\ (forall x, defaultAsTarget t' = Some x -> In x (collected t')).
Proof.
  revert t. induction ts as [|c ts IH]; intros t Hidx Hdef; simpl; [done|].
  destruct c as [tp|n tp]; simpl.
  - destruct (findByPath tp allFiles) as [tf|] eqn:Hfind; [|by apply IH].
    destruct (addDependency_indexed tf (collected t) (findByPath_self _ _ Hfind) Hidx)
      as (Hidx' & Hin & Hmono).
    destruct (IH (mkTraversal true (nextTraceTarget t) (Some tf)
                              (addDependency tf (collected t))))
      as (H1 & H2 & H3); [done|by intros x [= <-]|].
    repeat split; [done| |done]. intros d Hd. apply H2. by apply Hmono.
  - by apply (IH (setNext (n, tp) t)).
Qed.

Lemma orFound_fields b t :
  collected (orFound b t) = collected t
  /\ defaultAsTarget (orFound b t) = defaultAsTarget t
  /\ nextTraceTarget (orFound b t) = nextTraceTarget t.
Proof. by destruct b. Qed.

(** along a run the dependency set only grows, and a file the run returns
    is a member of it *)
Lemma trace_returns_collected fuel :
  forall name p depth st r st',
    trace fuel allFiles name p depth st = Returned (r, st') ->
    indexed allFiles (dependencies st) ->
    indexed allFiles (dependencies st')
    /\ (forall d, In d (dependencies st) -> In d (dependencies st'))
    /\ (forall f, r = Some f -> In f (dependencies st')).
Proof.
  induction fuel as [|fuel IH]; intros name p depth st r st'; [done|].
  cbn [traceImplementation].
  destruct (10 <? depth)%nat; [by intros [= <- <-]|].
  destruct (decide _); [by intros [= <- <-]|].
  destruct (findByPath p allFiles) as [currentFile|] eqn:Hfind;
    [|by intros [= <- <-]].
  intros Hrun Hidx.
  destruct (addDependency_indexed currentFile (dependencies st)
              (findByPath_self _ _ Hfind) Hidx) as (Hidx1 & Hin1 & Hmono1).
  destruct (parse (content currentFile)) as [ast|].
  2:{ injection Hrun as <- <-. simpl. repeat split; try done.
      by intros f [= <-]. }
  unfold traceTraverse in Hrun. rewrite traverse_targets in Hrun.
  set (t0 := mkTraversal false None None
                        (addDependency currentFile (dependencies st))) in *.
  destruct (applyTargets_indexed (targetsOf name p allFiles ast) t0)
    as (Hidx2 & Hmono2 & Hdef2); [done|done|].
  set (t1 := fold_left (applyTarget allFiles) _ t0) in *.
  destruct (orFound_fields (declares name ast) t1) as (Hc & Hd & Hn).
  set (t := orFound (declares name ast) t1) in *.
  destruct (foundImplementation t).
  - destruct (defaultAsTarget t) as [target|] eqn:Htarget.
    + injection Hrun as <- <-. simpl. rewrite Hc.
      repeat split; [done|by eauto|].
      intros f [= <-]. apply Hdef2. by rewrite <- Hd.
    + injection Hrun as <- <-. simpl. rewrite Hc.
      repeat split; [done|by eauto|].
      intros f [= <-]. by apply Hmono2.
  - destruct (nextTraceTarget t) as [[n' tp]|].
    + apply IH in Hrun as (H1 & H2 & H3); [|simpl; by rewrite Hc].
      simpl in H2. rewrite Hc in H2. repeat split; [done|by eauto|done].
    + injection Hrun as <- <-. simpl. rewrite Hc.
      repeat split; [done|by eauto|].
      intros f [= <-]. by apply Hmono2.
Qed.

(** X1.  The tracer returns on every input: twelve nested calls, the most
    the depth cap allows, are never exceeded, whatever the re-exports of
    the files. *)
Theorem trace_always_returns name p :
  exists r,
    traceComponentImplementation parse path_dirname path_resolve name p allFiles
    = Returned r.
Proof.
  unfold traceComponentImplementation, traceFuel.
  destruct (trace_total 11 name p 0%nat (mkTraceState ∅ [])) as [[r st] ->];
    [lia|].
  destruct r; eauto.
Qed.

(** X2.  When the tracer answers with a file, the file is one of the
    dependencies it reports. *)
Theorem trace_result_is_collected name p result :
  traceComponentImplementation parse path_dirname path_resolve name p allFiles
  = Returned (Some result) ->
  In (tr_file result) (tr_dependencies result).
Proof.
  unfold traceComponentImplementation.
  destruct (trace traceFuel allFiles name p 0%nat (mkTraceState ∅ []))
    as [|[[f|] st]] eqn:Hrun; try done.
  intros [= <-]. simpl.
  apply trace_returns_collected in Hrun as (_ & _ & H); [by apply H|].
  constructor.
Qed.

(** *** The claims about the tracer *)

(** the [default as] re-exports among the targets decide the answer of the
    traversal: the last of their files, each of them collected *)
Lemma default_fold ts t :
  let files := omap (targetFile allFiles) ts in
  let t' := fold_left (applyTarget allFiles) ts t in
  foundImplementation t'
  = match files with [] => foundImplementation t | _ => true end
  /\ defaultAsTarget t'
     = match last files with Some f => Some f | None => defaultAsTarget t end
  /\ collected t'
     = fold_left (fun deps f => addDependency f deps) files (collected t).
Proof.
  revert t. induction ts as [|c ts IH]; intros t; [done|].
  cbn zeta in *.
  assert (Hcons : omap (targetFile allFiles) (c :: ts)
                  = match targetFile allFiles c with
                    | Some f => f :: omap (targetFile allFiles) ts
                    | None => omap (targetFile allFiles) ts
                    end) by done.
  rewrite Hcons. cbn [fold_left].
  destruct (IH (applyTarget allFiles t c)) as (Hf & Hd & Hc).
  rewrite Hf, Hd, Hc. clear IH Hf Hd Hc Hcons.
  generalize (omap (targetFile allFiles) ts) as files. intros files.
  destruct c as [tp|n tp]; cbn [targetFile applyTarget].
  - destruct (findByPath tp allFiles) as [f|]; [|done].
    cbn [foundImplementation defaultAsTarget collected fold_left].
    rewrite last_cons. split; [by destruct files|].
    split; [|done]. by destruct (last files).
  - by destruct t.
Qed.

Lemma default_files_of_targets name from ast :
  omap (targetFile allFiles) (targetsOf name from allFiles ast)
  = defaultTargetFiles path_dirname path_resolve name from allFiles ast.
Proof.
  unfold reexportTargets, defaultTargetFiles, defaultSources.
  induction ast as [|node ast IH]; [done|].
  simpl. rewrite !omap_app, !flat_map_app, omap_app, IH. f_equal.
  induction (reexportCandidates name node) as [|c cs IHc]; [done|].
  simpl. rewrite !omap_app, IHc. f_equal.
  unfold resolveCandidate.
  destruct c as [local source|source]; simpl.
  - destruct (resolveFile source from allFiles) as [tp|] eqn:E.
    + destruct (String.eqb local "default"); simpl; [|done].
      rewrite E. by destruct (findByPath tp allFiles).
    + destruct (String.eqb local "default"); simpl; [|done]. by rewrite E.
  - by destruct (resolveFile source from allFiles).
Qed.

(** C5, as amended.  A file with one or more re-exports of [default as Foo]
    makes the tracer answer in its first call, whatever the recursion budget
    left and whatever the target holds: only the file itself is visited, and
    the answer is the file of the last of these re-exports whose module
    resolves in the Source Index.  The dependencies are the file and the
    files of all these re-exports that resolve; when no other module than
    the answer's resolves among them, they are the file and the answer. *)
Theorem default_as_resolves_to_module Foo F ast before barSource after barPath :
  findByPath (path F) allFiles = Some F ->
  parse (content F) = Some ast ->
  defaultSources Foo ast = (before ++ barSource :: after)%list ->
  resolveFile barSource (path F) allFiles = Some barPath ->
  Forall (fun source => resolveFile source (path F) allFiles = None) after ->
  exists barFile,
    findByPath barPath allFiles = Some barFile
    /\ let deps :=
         fold_left (fun deps f => addDependency f deps)
                   (defaultTargetFiles path_dirname path_resolve
                                       Foo (path F) allFiles ast)
                   [F] in
       (forall fuel,
           trace (S fuel) allFiles Foo (path F) 0 (mkTraceState ∅ [])
           = Returned (Some barFile, mkTraceState {[path F]} deps))
       /\ traceComponentImplementation parse path_dirname path_resolve
                                       Foo (path F) allFiles
          = Returned (Some (mkTraceResult Foo (content barFile) (path barFile)
                                          barFile deps))
       /\ (Forall (fun source =>
                     resolveFile source (path F) allFiles = None
                     \/ resolveFile source (path F) allFiles = Some barPath)
                  before ->
           deps = addDependency barFile [F]).
Proof.
  intros HF Hparse Hsources Hres Hafter.
  destruct (resolveFilePath_found _ _ _ Hres) as (barFile & Hbar & Hpath).
  exists barFile. split; [done|]. intros deps.
  set (resolved := fun source =>
         match resolveFile source (path F) allFiles with
         | Some targetPath => findByPath targetPath allFiles
         | None => None
         end).
  assert (Hfiles : defaultTargetFiles path_dirname path_resolve
                                      Foo (path F) allFiles ast
                   = (omap resolved before ++ [barFile])%list).
  { unfold defaultTargetFiles. fold resolved. rewrite Hsources, omap_app.
    f_equal. simpl. unfold resolved at 1. rewrite Hres, Hbar. f_equal.
    clear -Hafter. induction Hafter as [|x l Hx _ IH]; [done|].
    simpl. unfold resolved at 1. by rewrite Hx. }
  assert (Hstep : forall fuel,
             trace (S fuel) allFiles Foo (path F) 0 (mkTraceState ∅ [])
             = Returned (Some barFile, mkTraceState {[path F]} deps)).
  { intros fuel. simpl. rewrite decide_False by set_solver.
    rewrite HF, Hparse. unfold traceTraverse. rewrite traverse_targets.
    destruct (default_fold
                (targetsOf Foo (path F) allFiles ast)
                (mkTraversal false None None (addDependency F [])))
      as (Hfound & Hdef & Hcol).
    rewrite default_files_of_targets in Hfound, Hdef, Hcol.
    simpl in Hfound, Hdef, Hcol.
    rewrite Hfiles in Hfound, Hdef. rewrite last_snoc in Hdef.
    assert (Hfound' : foundImplementation
                        (fold_left (applyTarget allFiles)
                                   (targetsOf Foo (path F) allFiles ast)
                                   (mkTraversal false None None (addDependency F [])))
                      = true).
    { rewrite Hfound. by destruct (omap resolved before). }
    set (t' := fold_left _ _ _) in *.
    destruct (declares Foo ast); simpl;
      rewrite ?Hfound', Hdef, Hcol, union_empty_r_L; done. }
  split; [done|]. split.
  - unfold traceComponentImplementation, traceFuel. by rewrite Hstep.
  - intros Hbefore. subst deps. rewrite Hfiles, fold_left_app. simpl.
    assert (Hsame : Forall (fun f => f = barFile) (omap resolved before)).
    { clear -Hbefore Hbar. induction Hbefore as [|x l Hx _ IH]; [constructor|].
      change (omap resolved (x :: l))
        with (match resolved x with
              | Some f => f :: omap resolved l
              | None => omap resolved l
              end).
      unfold resolved at 1. destruct Hx as [Hx|Hx]; rewrite Hx; [done|].
      rewrite Hbar. by constructor. }
    revert Hsame. generalize (omap resolved before) as fs. clear.
    intros fs Hsame. generalize [F].
    induction Hsame as [|f fs -> _ IH]; intros acc; [done|].
    simpl. rewrite IH. apply addDependency_idem.
Qed.

(** C6, as amended.  In a chain where [A] forwards the name to [B], [B]
    forwards it to [C] and [C] implements it, the tracer started at [A]
    answers [C], and its dependency set is [A], [B], [C]. *)
Theorem trace_three_hop_chain name nameB nameC A B C :
  findByPath (path A) allFiles = Some A ->
  findByPath (path B) allFiles = Some B ->
  findByPath (path C) allFiles = Some C ->
  path A <> path B -> path A <> path C -> path B <> path C ->
  forwards parse path_dirname path_resolve allFiles name A nameB B ->
  forwards parse path_dirname path_resolve allFiles nameB B nameC C ->
  implements parse path_dirname path_resolve allFiles nameC C ->
  traceComponentImplementation parse path_dirname path_resolve
                               name (path A) allFiles
  = Returned (Some (mkTraceResult name (content C) (path C) C [A; B; C])).
Proof.
  intros HA HB HC Hab Hac Hbc HAB HBC HCi.
  unfold traceComponentImplementation, traceFuel.
  rewrite (trace_forward _ _ _ _ _ _ _ HAB HA); [|lia|set_solver].
  rewrite (trace_forward _ _ _ _ _ _ _ HBC HB); [|lia|simpl; set_solver].
  rewrite (trace_implemented _ _ _ _ _ HCi HC); [|lia|simpl; set_solver].
  simpl dependencies.
  rewrite (addDependency_new A []) by constructor. simpl app.
  rewrite (addDependency_new B [A]) by (repeat constructor; done). simpl app.
  rewrite (addDependency_new C [A; B]) by (repeat constructor; done).
  done.
Qed.

(** C1, as amended.  On a re-export cycle, [A] forwarding the name to [B]
    and [B] forwarding it back to [A], the tracer stops at its third call,
    far below the depth cap, having visited [A] and [B]; the call that
    meets [A] again returns [null], and so does the whole trace: the
    component is left out and no file is returned for it. *)
Theorem trace_reexport_cycle X A B :
  findByPath (path A) allFiles = Some A ->
  findByPath (path B) allFiles = Some B ->
  path A <> path B ->
  forwards parse path_dirname path_resolve allFiles X A X B ->
  forwards parse path_dirname path_resolve allFiles X B X A ->
  trace 3 allFiles X (path A) 0 (mkTraceState ∅ [])
  = Returned (None, mkTraceState ({[path A]} ∪ {[path B]}) [A; B])
  /\ traceComponentImplementation parse path_dirname path_resolve
                                  X (path A) allFiles
     = Returned None.
Proof.
  intros HA HB Hab HAB HBA.
  assert (Hrun : forall fuel,
             trace (3 + fuel) allFiles X (path A) 0 (mkTraceState ∅ [])
             = Returned (None, mkTraceState ({[path A]} ∪ {[path B]}) [A; B])).
  { intros fuel. change (3 + fuel)%nat with (S (S (S fuel))).
    rewrite (trace_forward _ _ _ _ _ _ _ HAB HA); [|lia|set_solver].
    rewrite (trace_forward _ _ _ _ _ _ _ HBA HB); [|lia|simpl; set_solver].
    rewrite trace_visited by (simpl; set_solver).
    simpl dependencies.
    rewrite (addDependency_new A []) by constructor. simpl app.
    rewrite (addDependency_new B [A]) by (repeat constructor; done).
    do 3 f_equal. set_solver. }
  split; [apply (Hrun 0%nat)|].
  unfold traceComponentImplementation, traceFuel.
  change 12%nat with (3 + 9)%nat. by rewrite Hrun.
Qed.

End TracerProperties.

(** ** The export graph resolver *)

Section ResolverProperties.

Variable parse : string -> option (list Node).
Variable path_dirname : string -> string.
Variable path_resolve : string -> string -> string.
Variable regexExportNames : string -> list string.
Variable findComponentFile : string -> list FileInfo -> option FileInfo.
Variable allFiles : list FileInfo.

Local Abbreviation resolveFile := (resolveFilePath path_dirname path_resolve).
Local Abbreviation extract :=
  (extractComponentInfoFromIndex parse path_dirname path_resolve regexExportNames findComponentFile).
Local Abbreviation expand :=
  (expandStar parse path_dirname path_resolve regexExportNames findComponentFile).
Local Abbreviation recorded := (recordedNames path_dirname path_resolve).
Local Abbreviation visitIndex := (indexVisit path_dirname path_resolve).
Local Abbreviation suppliesHere :=
  (supplies parse path_dirname path_resolve allFiles).

(** *** The synchronous traversal *)

Lemma indexSpecifier_record target specs m :
  fold_left (indexSpecifier (Some target)) specs m
  = recordAll (map (fun name => (name, target)) (flat_map valueName specs)) m.
Proof.
  revert m. induction specs as [|sp specs IH]; intros m; simpl; [done|].
  rewrite IH, map_app. unfold recordAll at 2. rewrite fold_left_app.
  by destruct sp as [local exported []| |].
Qed.

Lemma indexSpecifier_unresolved specs (m : gmap string string) :
  fold_left (indexSpecifier None) specs m = m.
Proof.
  induction specs as [|sp specs IH]; simpl; [done|].
  by destruct sp as [local exported []| |].
Qed.

Lemma indexVisit_record indexPath node m :
  visitIndex indexPath allFiles m node = recordAll (recorded indexPath allFiles node) m.
Proof.
  destruct node as [id|id init|id|[] specs [source|] declared|source|[n|[n|]|]];
    simpl; try done.
  - destruct (resolveFile source indexPath allFiles) as [target|].
    + apply indexSpecifier_record.
    + apply indexSpecifier_unresolved.
  - apply indexSpecifier_record.
Qed.

Lemma traverse_record indexPath ast m :
  fold_left (visitIndex indexPath allFiles) ast m
  = recordAll (flat_map (recorded indexPath allFiles) ast) m.
Proof.
  revert m. induction ast as [|node ast IH]; intros m; simpl; [done|].
  rewrite IH, indexVisit_record. unfold recordAll at 3.
  by rewrite fold_left_app.
Qed.

Lemma recordAll_keeps entries (m : gmap string string) name :
  is_Some (m !! name) -> is_Some (recordAll entries m !! name).
Proof.
  revert m. induction entries as [|[n p] entries IH]; intros m Hm; [done|].
  simpl. apply IH. destruct (isPascalCase n); [|done].
  destruct (decide (n = name)) as [->|Hne].
  - rewrite lookup_insert_eq. eauto.
  - by rewrite lookup_insert_ne.
Qed.

Lemma recordAll_holds entries (m : gmap string string) name p :
  In (name, p) entries -> isPascalCase name = true ->
  is_Some (recordAll entries m !! name).
Proof.
  revert m. induction entries as [|[n q] entries IH]; intros m Hin Hp; [done|].
  simpl. destruct Hin as [[= -> ->]|Hin].
  - apply recordAll_keeps. rewrite Hp, lookup_insert_eq. eauto.
  - by apply IH.
Qed.

(** when every write names the same file, the map is the set of written
    names under that file *)
Lemma recordAll_same entries target (m : gmap string string) name :
  Forall (fun entry => entry.2 = target) entries ->
  recordAll entries m !! name
  = if Str.included name (map fst entries) && isPascalCase name
    then Some target else m !! name.
Proof.
  intros H. revert m. induction H as [|[n p] entries Hn _ IH]; intros m.
  - done.
  - simpl in Hn. subst p. cbn [recordAll fold_left map fst].
    fold (recordAll entries). rewrite IH.
    unfold Str.included. cbn [existsb].
    destruct (String.eqb name n) eqn:E.
    + apply String.eqb_eq in E. subst n. simpl.
      destruct (isPascalCase name) eqn:Hp; simpl.
      * rewrite lookup_insert_eq. by destruct (existsb _ _ && true).
      * by rewrite andb_false_r.
    + apply String.eqb_neq in E. simpl.
      destruct (existsb _ _ && _); [done|].
      destruct (isPascalCase n); [|done]. by rewrite lookup_insert_ne.
Qed.

(** *** The merge of the wildcard expansions *)

Lemma merge_lookup results (named : gmap string string) name :
  fold_left mergeInto results named !! name
  = match wildcardPath name results with
    | Some p => Some p
    | None => named !! name
    end.
Proof.
  unfold wildcardPath.
  induction results as [|r results IH] using rev_ind; [done|].
  rewrite !fold_left_app. simpl. unfold mergeInto at 1.
  rewrite lookup_union. rewrite IH.
  destruct (r !! name) as [p|]; simpl.
  - by destruct (fold_left _ results None); destruct (named !! name).
  - by destruct (fold_left _ results None); destruct (named !! name).
Qed.

Lemma wildcardPath_holds results r name :
  In r results -> is_Some (r !! name) -> is_Some (wildcardPath name results).
Proof.
  unfold wildcardPath.
  induction results as [|r' results IH] using rev_ind; [done|].
  rewrite in_app_iff, fold_left_app. simpl.
  intros [Hin|[<-|[]]] [p Hp].
  - destruct (r' !! name); [eauto|]. apply IH; eauto.
  - rewrite Hp. eauto.
Qed.

Lemma runAll_In {A B} (f : A -> run B) l results x :
  runAll (map f l) = Returned results -> In x l ->
  exists r, f x = Returned r /\ In r results.
Proof.
  revert results. induction l as [|a l IH]; intros results; simpl; [done|].
  destruct (f a) as [|r] eqn:Ha; [done|].
  destruct (runAll (map f l)) as [|rs]; [done|].
  intros [= <-] [->|Hin].
  - exists r. split; [done|by left].
  - destruct (IH rs eq_refl Hin) as (r' & ? & ?). exists r'. split; [done|by right].
Qed.

Lemma star_sources ast source :
  In source (exportStarSources ast) <-> In (ExportAllDeclaration source) ast.
Proof.
  unfold exportStarSources. rewrite in_flat_map. split.
  - intros (node & Hnode & Hin). destruct node; try done.
    by destruct Hin as [->|[]].
  - intros H. exists (ExportAllDeclaration source). split; [done|by left].
Qed.

(** *** One call of the resolver *)

Lemma extract_parsed fuel content indexPath ast results :
  parse content = Some ast ->
  runAll (map (expand fuel allFiles indexPath) (exportStarSources ast))
  = Returned results ->
  extract (S fuel) allFiles content indexPath
  = Returned (filter (keepComponent content)
                     (fold_left mergeInto results
                                (fold_left (visitIndex indexPath allFiles) ast ∅))).
Proof.
  intros Hparse Hrun. simpl. rewrite Hparse.
  unfold expandStar in Hrun. by rewrite Hrun.
Qed.

Lemma extract_returned fuel content indexPath ast m :
  parse content = Some ast ->
  extract fuel allFiles content indexPath = Returned m ->
  exists fuel' results,
    fuel = S fuel'
    /\ runAll (map (expand fuel' allFiles indexPath) (exportStarSources ast))
       = Returned results
    /\ m = filter (keepComponent content)
                  (fold_left mergeInto results
                             (fold_left (visitIndex indexPath allFiles) ast ∅)).
Proof.
  intros Hparse. destruct fuel as [|fuel']; [done|].
  simpl. rewrite Hparse. fold (expand fuel' allFiles indexPath).
  destruct (runAll _) as [|results] eqn:Hrun; [done|].
  intros [= <-]. eauto.
Qed.

(** the lookups of the map a call returns *)
Lemma extract_lookup content results named name :
  filter (keepComponent content) (fold_left mergeInto results named) !! name
  = if isPascalCase name && isLikelyComponent name content
    then match wildcardPath name results with
         | Some p => Some p
         | None => named !! name
         end
    else None.
Proof.
  rewrite map_lookup_filter, merge_lookup.
  destruct (isPascalCase name && isLikelyComponent name content) eqn:Hk.
  - destruct (wildcardPath name results) as [p|]; simpl.
    + rewrite option_guard_True; [done|]. done.
    + destruct (named !! name) as [p|]; simpl; [|done].
      rewrite option_guard_True; [done|]. done.
  - destruct (wildcardPath name results) as [p|]; simpl.
    + rewrite option_guard_False; [done|]. unfold keepComponent. simpl.
      by rewrite Hk.
    + destruct (named !! name) as [p|]; simpl; [|done].
      rewrite option_guard_False; [done|]. unfold keepComponent. simpl.
      by rewrite Hk.
Qed.

(** *** The claims about the resolver *)

Lemma recorded_local indexPath node :
  isReexport node = false ->
  recorded indexPath allFiles node
  = map (fun name => (name, indexPath)) (listedNames node).
Proof.
  by destruct node as [id|id init|id|[] specs [source|] declared|source|[n|[n|]|]].
Qed.

Lemma recorded_all_local indexPath ast :
  existsb isReexport ast = false ->
  flat_map (recorded indexPath allFiles) ast
  = map (fun name => (name, indexPath)) (flat_map listedNames ast)
  /\ exportStarSources ast = [].
Proof.
  induction ast as [|node ast IH]; simpl; [done|].
  intros H. apply orb_false_elim in H as [Hnode Hast].
  destruct (IH Hast) as [-> Hstars]. rewrite (recorded_local _ _ Hnode), map_app.
  split; [done|]. unfold exportStarSources in *. simpl. rewrite Hstars.
  by destruct node.
Qed.

(** C3, as amended.  For an entry file that parses and holds no re-export,
    the map is made of the names that a value export list or an
    [export default] names, that are PascalCase and that the filter
    isLikelyComponent accepts against the file's text, each under the path
    of the entry file; no other name is in it. *)
Theorem local_exports_map fuel content indexPath ast :
  parse content = Some ast ->
  existsb isReexport ast = false ->
  exists m,
    extract (S fuel) allFiles content indexPath = Returned m
    /\ forall name,
         m !! name
         = if Str.included name (flat_map listedNames ast)
              && isPascalCase name && isLikelyComponent name content
           then Some indexPath else None.
Proof.
  intros Hparse Hlocal.
  destruct (recorded_all_local indexPath ast Hlocal) as [Hrec Hstars].
  eexists. split.
  { apply (extract_parsed fuel content indexPath ast []); [done|].
    by rewrite Hstars. }
  intros name. rewrite extract_lookup. simpl.
  rewrite traverse_record, Hrec.
  rewrite (recordAll_same _ indexPath) by (apply Forall_forall; intros [n p] Hin;
    apply list_elem_of_In, in_map_iff in Hin as (n' & [= <- <-] & _); done).
  rewrite map_map. simpl. rewrite map_id, lookup_empty.
  destruct (isPascalCase name); simpl; [|by rewrite andb_false_r].
  rewrite andb_true_r.
  by destruct (Str.included _ _), (isLikelyComponent _ _).
Qed.

Lemma keepComponent_name content name p q :
  keepComponent content (name, p) -> keepComponent content (name, q).
Proof. done. Qed.

(** a name a file supplies is in the map of every call on that file that
    returns *)
Lemma supplies_in_map F name :
  suppliesHere F name ->
  forall fuel m,
    extract fuel allFiles (content F) (path F) = Returned m ->
    is_Some (m !! name).
Proof.
  induction 1 as [F ast name p Hparse Hin Hkeep
                 |F ast source targetPath G name Hparse Hin Hres Hfind Hsup IH Hkeep];
    intros fuel m Hrun.
  - destruct (extract_returned _ _ _ _ _ Hparse Hrun)
      as (fuel' & results & -> & Hstars & ->).
    rewrite extract_lookup. unfold keepComponent in Hkeep. simpl in Hkeep.
    rewrite Hkeep.
    destruct (wildcardPath name results); [eauto|].
    rewrite traverse_record. eapply recordAll_holds; [done|].
    by apply andb_true_iff in Hkeep as [? _].
  - destruct (extract_returned _ _ _ _ _ Hparse Hrun)
      as (fuel' & results & -> & Hstars & ->).
    rewrite extract_lookup. unfold keepComponent in Hkeep. simpl in Hkeep.
    rewrite Hkeep.
    apply star_sources in Hin.
    destruct (runAll_In _ _ _ _ Hstars Hin) as (r & Hr & Hrin).
    unfold expandStar, extractComponentsFromReExportWithPaths in Hr.
    rewrite Hres, Hfind in Hr.
    destruct (wildcardPath_holds results r name Hrin (IH _ _ Hr)) as [q ->].
    eauto.
Qed.

Lemma runAll_total {A B} (f : A -> run B) l :
  Forall (fun x => exists r, f x = Returned r) l ->
  exists results, runAll (map f l) = Returned results.
Proof.
  induction 1 as [|x l [r Hr] _ [results IH]]; simpl; [eauto|].
  rewrite Hr, IH. eauto.
Qed.

Lemma expandsWithinb_true fuel :
  forall content indexPath,
    expandsWithinb parse path_dirname path_resolve fuel allFiles content indexPath
    = true ->
    expandsWithin parse path_dirname path_resolve fuel allFiles content indexPath.
Proof.
  induction fuel as [|fuel IH]; intros content indexPath H; [done|].
  cbn [expandsWithin]. cbn [expandsWithinb] in H.
  destruct (parse content) as [ast|];
    rewrite forallb_forall in H; apply Forall_forall; intros x Hx;
    apply list_elem_of_In in Hx; specialize (H x Hx).
  - destruct (resolveFile x indexPath allFiles) as [sp|]; [|done].
    destruct (findByPath sp allFiles) as [G|]; [|done]. by apply IH.
  - destruct (reExportTarget path_dirname path_resolve x indexPath allFiles)
      as [G|]; [|done].
    by apply IH.
Qed.

(** the resolver returns on a file whose wildcard re-exports nest fewer
    deep than its budget *)
Lemma expandsWithin_returns fuel :
  forall content indexPath,
    expandsWithin parse path_dirname path_resolve fuel allFiles content indexPath ->
    exists m, extract fuel allFiles content indexPath = Returned m.
Proof.
  induction fuel as [|fuel IH]; intros content indexPath H; [done|].
  cbn [expandsWithin] in H. cbn [extractComponentInfoFromIndex].
  destruct (parse content) as [ast|].
  - destruct (runAll_total
                (fun relativePath =>
                   extractComponentsFromReExportWithPaths path_dirname path_resolve
                     (extract fuel allFiles) relativePath indexPath allFiles)
                (exportStarSources ast)) as [results ->]; [|eauto].
    eapply Forall_impl; [exact H|]. intros source Hsource. simpl in Hsource.
    unfold extractComponentsFromReExportWithPaths.
    destruct (resolveFile source indexPath allFiles) as [sp|]; [|eauto].
    destruct (findByPath sp allFiles) as [G|]; [|eauto].
    by apply IH.
  - destruct (runAll_total
                (fun relativePath =>
                   extractComponentsFromReExport path_dirname path_resolve
                     (extract fuel allFiles) relativePath indexPath allFiles)
                (exec_all exportStarPattern content)) as [results ->]; [|eauto].
    eapply Forall_impl; [exact H|]. intros source Hsource. simpl in Hsource.
    unfold extractComponentsFromReExport.
    destruct (reExportTarget path_dirname path_resolve source indexPath allFiles)
      as [G|]; [|eauto].
    destruct (IH _ _ Hsource) as [m ->]. eauto.
Qed.

(** C4, as amended.  When an entry file has [export * from] a module that
    resolves in the Source Index, and its wildcard re-exports nest fewer
    deep than the budget (those of a file that Babel rejects being the ones
    the catch branch finds in the text of the file), the resolver returns a
    map that holds every name that module supplies (a name the resolver reads off one of its export
    lists or default exports, or one supplied through its own wildcard
    re-exports, transitively, and accepted by the filter of each file on the
    way) and that is PascalCase and accepted by the filter of the entry
    file. *)
Theorem wildcard_propagates entry ast source subPath sub name fuel :
  parse (content entry) = Some ast ->
  In (ExportAllDeclaration source) ast ->
  resolveFile source (path entry) allFiles = Some subPath ->
  findByPath subPath allFiles = Some sub ->
  suppliesHere sub name ->
  isPascalCase name = true ->
  isLikelyComponent name (content entry) = true ->
  expandsWithin parse path_dirname path_resolve fuel allFiles
                (content entry) (path entry) ->
  exists m,
    extract fuel allFiles (content entry) (path entry) = Returned m
    /\ is_Some (m !! name).
Proof.
  intros Hparse Hin Hres Hfind Hsup Hpascal Hlikely Hfuel.
  destruct (expandsWithin_returns fuel _ _ Hfuel) as [m Hrun].
  exists m. split; [done|].
  eapply (supplies_in_map entry name); [|done].
  eapply supplies_wildcard; try done.
  unfold keepComponent. simpl. by rewrite Hpascal, Hlikely.
Qed.

(** C9, as amended.  When an entry file has [export * from] a module that
    resolves in the Source Index and supplies a name (through an export
    list or default export the resolver reads, or through its own wildcard
    re-exports), and the wildcard re-exports nest fewer deep than the
    budget, the map the resolver returns gives that name the file of the
    last wildcard expansion of the entry that holds it, whatever the export
    lists and default exports of the entry record for the name and wherever
    they stand in the text. *)
Theorem wildcard_overrides_named entry ast source subPath sub name fuel :
  parse (content entry) = Some ast ->
  In (ExportAllDeclaration source) ast ->
  resolveFile source (path entry) allFiles = Some subPath ->
  findByPath subPath allFiles = Some sub ->
  suppliesHere sub name ->
  isPascalCase name = true ->
  isLikelyComponent name (content entry) = true ->
  expandsWithin parse path_dirname path_resolve (S fuel) allFiles
                (content entry) (path entry) ->
  exists m results p,
    extract (S fuel) allFiles (content entry) (path entry) = Returned m
    /\ runAll (map (expand fuel allFiles (path entry)) (exportStarSources ast))
       = Returned results
    /\ wildcardPath name results = Some p
    /\ m !! name = Some p.
Proof.
  intros Hparse Hin Hres Hfind Hsup Hpascal Hlikely Hfuel.
  destruct (expandsWithin_returns (S fuel) _ _ Hfuel) as [m Hrun].
  destruct (extract_returned _ _ _ _ _ Hparse Hrun)
    as (fuel' & results & [= <-] & Hstars & ->).
  apply star_sources in Hin.
  destruct (runAll_In _ _ _ _ Hstars Hin) as (r & Hr & Hrin).
  unfold expandStar, extractComponentsFromReExportWithPaths in Hr.
  rewrite Hres, Hfind in Hr.
  destruct (wildcardPath_holds results r name Hrin
              (supplies_in_map sub name Hsup _ _ Hr)) as [p Hp].
  eexists _, results, p. split; [done|]. split; [done|]. split; [done|].
  by rewrite extract_lookup, Hpascal, Hlikely, Hp.
Qed.

End ResolverProperties.

(** ** The dependency scan *)

Section ScanProperties.

Variable path_dirname : string -> string.
Variable path_resolve : string -> string -> string.
Variable allFiles : list FileInfo.

Local Abbreviation resolveFile := (resolveFilePath path_dirname path_resolve).
Local Abbreviation scan := (analyzeDependencies path_dirname path_resolve).
Local Abbreviation scanImport := (analyzeImport path_dirname path_resolve).













End ScanProperties.

(** ** The dependency context *)

Section ContextProperties.

Variable path_dirname : string -> string.
Variable path_resolve : string -> string -> string.
Variable path_basename : string -> string.
Variable allComponentFiles : list Component.
Variable maxDepth : nat.

Local Abbreviation collect :=
  (collectDependencies path_dirname path_resolve path_basename).
Local Abbreviation isSnippetHere :=
  (isSnippet path_basename allComponentFiles maxDepth).

Lemma string_length_append (s1 s2 : string) :
  String.length (s1 ++ s2) = (String.length s1 + String.length s2)%nat.
Proof. induction s1 as [|c s1 IH]; simpl; [done|]. by rewrite IH. Qed.

Lemma string_length_take n (s : string) :
  (String.length (Str.take n s) <= n)%nat.
Proof.
  unfold Str.take. revert n.
  induction s as [|c s IH]; intros [|n]; simpl; try lia.
  specialize (IH n). lia.
Qed.

(** the text of a snippet never exceeds the display ceiling by more than
    the truncation marker *)
Lemma truncateCode_length code :
  (String.length (truncateCode code)
   <= displayCeiling + String.length truncationMarker)%nat.
Proof.
  unfold truncateCode.
  destruct (displayCeiling <? String.length code)%nat eqn:E.
  - rewrite string_length_append. pose proof (string_length_take displayCeiling code).
    lia.
  - apply Nat.ltb_ge in E. lia.
Qed.

Lemma find_component depPath c :
  find (fun c => String.eqb (c_path c) depPath) allComponentFiles = Some c ->
  In c allComponentFiles /\ c_path c = depPath.
Proof.
  intros H. apply find_some in H as [Hin H]. by apply String.eqb_eq in H.
Qed.

Lemma recordDependency_snippets c depPath depth w :
  find (fun c => String.eqb (c_path c) depPath) allComponentFiles = Some c ->
  (depth < maxDepth)%nat ->
  Forall isSnippetHere (w_relatedFiles w) ->
  Forall isSnippetHere
         (w_relatedFiles (recordDependency path_basename c depPath depth w)).
Proof.
  intros Hfind Hdepth Hw. apply find_component in Hfind as [Hin <-].
  unfold recordDependency; simpl.
  destruct (String.length (c_code c) <? inclusionCeiling)%nat eqn:E; [|done].
  apply Forall_app. split; [done|]. constructor; [|done].
  exists c, (depth + 1)%nat. apply Nat.ltb_lt in E.
  repeat split; [done|done|lia|lia].
Qed.

(** The walk needs no more budget than the depth it has left, and keeps
    every property of the shared state that marking a path and recording a
    dependency keep. *)
Lemma collect_invariant (P : Walk -> Prop) :
  (forall w p,
      P w ->
      P (mkWalk (w_relatedFiles w) (w_dependencyPaths w) (w_dependencyDepths w)
                ({[p]} ∪ w_processedPaths w))) ->
  (forall c depPath depth w,
      find (fun c => String.eqb (c_path c) depPath) allComponentFiles = Some c ->
      (depth < maxDepth)%nat ->
      P w -> P (recordDependency path_basename c depPath depth w)) ->
  forall fuel file known currentDepth w,
    (maxDepth <= fuel + currentDepth)%nat ->
    P w ->
    exists children w',
      collect (S fuel) allComponentFiles maxDepth file known currentDepth w
      = Returned (children, w')
      /\ P w'.
Proof.
  intros Hmark Hrecord.
  induction fuel as [|fuel IH]; intros file known currentDepth w Hfuel Hw.
  - simpl. replace (maxDepth <=? currentDepth)%nat with true
      by (symmetry; apply Nat.leb_le; lia).
    simpl. eauto.
  - remember (S fuel) as fuel1 eqn:Hfuel1. cbn [collectDependencies].
    subst fuel1.
    destruct (maxDepth <=? currentDepth)%nat eqn:Hdepth; [simpl; eauto|].
    apply Nat.leb_gt in Hdepth.
    destruct (bool_decide _); [simpl; eauto|]. cbn [orb].
    set (w0 := mkWalk _ _ _ _).
    assert (Hw0 : P w0) by (by apply Hmark).
    clearbody w0. clear Hw w.
    match goal with |- context [fold_left ?f _ _] => set (step := f) end.
    assert (Hstep : forall children w1 depPath,
               P w1 ->
               exists children' w',
                 step (Returned (children, w1)) depPath = Returned (children', w')
                 /\ P w').
    { intros children w1 depPath Hw1. unfold step.
      destruct (find _ allComponentFiles) as [c|] eqn:Hfind; [|eauto].
      destruct (bool_decide (depPath ∈ w_processedPaths w1)); [eauto|].
      destruct (IH (c_file c) (c_dependencies c) (currentDepth + 1)%nat
                   (recordDependency path_basename c depPath currentDepth w1))
        as (grandchildren & w2 & -> & Hw2); [lia| |eauto].
      by apply Hrecord. }
    clearbody step.
    generalize (@nil DependencyNode) as children. revert w0 Hw0.
    induction (firstn 5 _) as [|depPath deps IHdeps];
      intros w0 Hw0 children; [simpl; eauto|].
    cbn [fold_left].
    destruct (Hstep children w0 depPath Hw0) as (children' & w' & -> & Hw').
    by apply IHdeps.
Qed.

(** every entry the walk appends is a snippet *)
Lemma collect_snippets fuel file known currentDepth w :
  (maxDepth <= fuel + currentDepth)%nat ->
  Forall isSnippetHere (w_relatedFiles w) ->
  exists children w',
    collect (S fuel) allComponentFiles maxDepth file known currentDepth w
    = Returned (children, w')
    /\ Forall isSnippetHere (w_relatedFiles w').
Proof.
  apply (collect_invariant (fun w => Forall isSnippetHere (w_relatedFiles w))).
  - done.
  - intros c depPath depth w0. apply recordDependency_snippets.
Qed.

(** the walk records a depth with each path, between one and the cap, and
    only paths of candidates *)
Lemma collect_paths fuel file known currentDepth w :
  (maxDepth <= fuel + currentDepth)%nat ->
  pathsWithDepths allComponentFiles maxDepth
                  (w_dependencyPaths w) (w_dependencyDepths w) ->
  exists children w',
    collect (S fuel) allComponentFiles maxDepth file known currentDepth w
    = Returned (children, w')
    /\ pathsWithDepths allComponentFiles maxDepth
                       (w_dependencyPaths w') (w_dependencyDepths w').
Proof.
  apply (collect_invariant
           (fun w => pathsWithDepths allComponentFiles maxDepth
                                     (w_dependencyPaths w) (w_dependencyDepths w))).
  - done.
  - intros c depPath depth w0 Hfind Hdepth H.
    apply find_component in Hfind as [Hin <-].
    unfold recordDependency; simpl.
    apply Forall2_app; [done|]. constructor; [|done].
    split; [lia|]. by exists c.
Qed.

Lemma limitFiles_length (l : list string) : (length (limitFiles l) <= S maxFiles)%nat.
Proof.
  unfold limitFiles. pose proof (firstn_le_length maxFiles l).
  destruct (maxFiles <? length l)%nat; [rewrite length_app; simpl|]; lia.
Qed.

Lemma limitFiles_lookup_lt (l : list string) i entry :
  limitFiles l !! i = Some entry -> (i < maxFiles)%nat -> In entry l.
Proof.
  unfold limitFiles. intros H Hi.
  assert (Ht : firstn maxFiles l !! i = Some entry).
  { destruct (maxFiles <? length l)%nat eqn:E; [|done].
    apply Nat.ltb_lt in E.
    rewrite lookup_app_l in H; [done|]. rewrite length_take. lia. }
  apply lookup_take_Some in Ht as [Ht _].
  apply list_elem_of_In. by eapply list_elem_of_lookup_2.
Qed.

Lemma limitFiles_lookup_last (l : list string) entry :
  limitFiles l !! maxFiles = Some entry ->
  exists omitted, (0 < omitted)%nat /\ entry = omissionMarker omitted.
Proof.
  unfold limitFiles. intros H.
  destruct (maxFiles <? length l)%nat eqn:E.
  - apply Nat.ltb_lt in E.
    rewrite lookup_app_r in H by (rewrite length_take; lia).
    rewrite length_take in H.
    replace (maxFiles - maxFiles `min` length l)%nat with 0%nat in H by lia.
    injection H as <-. exists (length l - maxFiles)%nat. split; [lia|done].
  - apply lookup_take_Some in H as [_ H]. lia.
Qed.

(** C2, as amended.  The context is always produced; it holds at most
    eight snippets, followed by one more entry, the omission marker, when
    more than eight were found (nine entries at most); and the text of
    each snippet is a component's code of less than 8,000 characters cut
    to at most 3,000 characters plus the truncation marker. *)
Theorem dependency_context_bounds component :
  exists ctx,
    buildDependencyContext path_dirname path_resolve path_basename
                           component allComponentFiles maxDepth
    = Returned ctx
    /\ (length (relatedFiles ctx) <= S maxFiles)%nat
    /\ (forall i entry,
           relatedFiles ctx !! i = Some entry -> (i < maxFiles)%nat ->
           exists depComponent depth,
             In depComponent allComponentFiles
             /\ (String.length (c_code depComponent) < inclusionCeiling)%nat
             /\ (1 <= depth <= maxDepth)%nat
             /\ entry = snippetHeader path_basename (c_path depComponent) depth
                          ++ truncateCode (c_code depComponent)
             /\ (String.length (truncateCode (c_code depComponent))
                 <= displayCeiling + String.length truncationMarker)%nat)
    /\ (forall entry,
           relatedFiles ctx !! maxFiles = Some entry ->
           exists omitted, (0 < omitted)%nat /\ entry = omissionMarker omitted).
Proof.
  unfold buildDependencyContext.
  destruct (collect_snippets maxDepth (c_file component)
              (c_dependencies component) 0%nat (mkWalk [] [] [] ∅))
    as (children & w & -> & Hw); [lia|done|].
  eexists. split; [done|]. simpl.
  split; [apply limitFiles_length|].
  split; [|apply limitFiles_lookup_last].
  intros i entry Hi Hlt.
  pose proof (limitFiles_lookup_lt _ _ _ Hi Hlt) as Hin.
  rewrite Forall_forall in Hw.
  destruct (Hw entry) as (c & depth & Hc & Hsize & Hdepth & ->);
    [by apply list_elem_of_In|].
  exists c, depth. repeat split; try done; try lia.
  apply truncateCode_length.
Qed.

(** X3.  The context lists one depth for each dependency path; every depth
    lies between one and the depth cap of the walk, and every path is the
    path of one of the components. *)
Theorem dependency_paths_have_depths component :
  exists ctx,
    buildDependencyContext path_dirname path_resolve path_basename
                           component allComponentFiles maxDepth
    = Returned ctx
    /\ length (dependencyPaths ctx) = length (dependencyDepths ctx)
    /\ pathsWithDepths allComponentFiles maxDepth
                       (dependencyPaths ctx) (dependencyDepths ctx).
Proof.
  unfold buildDependencyContext.
  destruct (collect_paths maxDepth (c_file component)
              (c_dependencies component) 0%nat (mkWalk [] [] [] ∅))
    as (children & w & -> & Hw); [lia|constructor|].
  eexists. split; [done|]. simpl. split; [|done].
  by eapply Forall2_length.
Qed.

End ContextProperties.

(** ** The batch orchestrator *)

Section OrchestratorProperties.

Variable path_dirname : string -> string.
Variable path_resolve : string -> string -> string.
Variable path_basename : string -> string.
Variable Analysis : Type.
Variable analyzeComponent : string -> string -> list string -> AnalyzerOutcome Analysis.
Variable relativeToCwd : string -> string.
Variable componentFiles : list Component.

Local Abbreviation context :=
  (buildDependencyContext path_dirname path_resolve path_basename).
Local Abbreviation task :=
  (processTask path_dirname path_resolve path_basename Analysis
               analyzeComponent relativeToCwd).
Local Abbreviation loop :=
  (batchLoop path_dirname path_resolve path_basename Analysis
             analyzeComponent relativeToCwd).
Local Abbreviation analysedHere :=
  (analysedFrom path_dirname path_resolve path_basename Analysis
                analyzeComponent relativeToCwd componentFiles).
Local Abbreviation wellEnded interrupt :=
  (wellEnded path_dirname path_resolve path_basename Analysis
             analyzeComponent relativeToCwd interrupt componentFiles).

Lemma context_total c maxDepth :
  exists ctx, context c componentFiles maxDepth = Returned ctx.
Proof.
  unfold buildDependencyContext.
  destruct (collect_snippets path_dirname path_resolve path_basename
              componentFiles maxDepth maxDepth (c_file c) (c_dependencies c)
              0%nat (mkWalk [] [] [] ∅))
    as (children & w & -> & _); [lia|done|eauto].
Qed.

Lemma task_total c : exists o, task c componentFiles = Returned o.
Proof.
  unfold processTask. destruct (context_total c 3) as [ctx ->].
  destruct (analyzeComponent _ _ _); [eauto|].
  destruct (String.eqb _ _); eauto.
Qed.

Lemma task_value c info :
  task c componentFiles = Returned (TaskValue Analysis (Some info)) ->
  analysedHere c info.
Proof.
  unfold processTask, analysedFrom.
  destruct (context c componentFiles 3) as [|ctx]; [done|].
  destruct (analyzeComponent _ _ _) as [r|e] eqn:E.
  - intros [= <-]. eauto.
  - by destruct (String.eqb _ _).
Qed.

Lemma tasks_total batch :
  exists tasks, runAll (map (fun c => task c componentFiles) batch) = Returned tasks.
Proof.
  induction batch as [|c batch [tasks IH]]; simpl; [eauto|].
  destruct (task_total c) as [o ->]. rewrite IH. eauto.
Qed.

(** every valid result of a batch is the analysis of one of its members *)
Lemma batch_results batch tasks results info :
  runAll (map (fun c => task c componentFiles) batch) = Returned tasks ->
  promiseAll Analysis tasks = inl results ->
  In info (validResultsOf Analysis results) ->
  exists c, In c batch /\ analysedHere c info.
Proof.
  revert tasks results.
  induction batch as [|c batch IH]; intros tasks results; simpl.
  - intros [= <-] [= <-]. done.
  - destruct (task c componentFiles) as [|o] eqn:Ho; [done|].
    destruct (runAll _) as [|tasks'] eqn:Ht; [done|].
    intros [= <-]. simpl. destruct o as [v|e]; [|done].
    destruct (promiseAll Analysis tasks') as [vs|e] eqn:Hp; [|done].
    intros [= <-]. unfold validResultsOf. simpl.
    destruct v as [info'|]; simpl.
    + intros [<-|Hin].
      * exists c. split; [by left|]. by apply task_value.
      * destruct (IH _ _ eq_refl Hp Hin) as (c' & Hc' & Ha). eauto.
    + intros Hin.
      destruct (IH _ _ eq_refl Hp Hin) as (c' & Hc' & Ha). eauto.
Qed.

Lemma In_slice {A} (x : A) n i (l : list A) :
  In x (firstn n (skipn i l)) -> In x l.
Proof.
  intros H. apply list_elem_of_In in H. apply list_elem_of_In.
  by apply (subseteq_drop i), (subseteq_take n).
Qed.

Lemma wellEnded_later interrupt toAnalyze outcome e extra :
  isNotice e = false -> e <> LogInterrupt ->
  wellEnded interrupt toAnalyze outcome extra ->
  wellEnded interrupt toAnalyze outcome (e :: extra).
Proof.
  intros He Hne (Hn & Hi & Hx & Hr). repeat split; try done.
  - simpl. by rewrite He.
  - intros [?|?]; [done|]. by apply Hi.
  - intros H. right. by apply Hi.
  - by apply Hx.
  - by eapply Hx.
Qed.

Lemma finishRun_wellEnded interrupt toAnalyze isAborted components log :
  Forall (fun info => exists c, In c toAnalyze /\ analysedHere c info) components ->
  exists outcome extra,
    finishRun Analysis isAborted components log = (outcome, (log ++ extra)%list)
    /\ wellEnded interrupt toAnalyze outcome extra.
Proof.
  intros Hc. unfold finishRun.
  destruct isAborted; eexists _, [_]; (split; [done|]);
    (split; [done|]); (split; [split; [by intros [?|[]]|done]|]);
    (split; [done|by intros ? [= <-]]).
Qed.

(** The loop always ends, and ends well. *)
Lemma batchLoop_results interrupt toAnalyze batchSize totalBatches fuel :
  (0 < batchSize)%nat ->
  forall i isAborted components log,
    (length toAnalyze <= fuel + i)%nat ->
    Forall (fun info => exists c, In c toAnalyze /\ analysedHere c info) components ->
    exists outcome extra,
      loop (S fuel) interrupt componentFiles toAnalyze batchSize totalBatches
           i isAborted components log
      = Returned (outcome, (log ++ extra)%list)
      /\ wellEnded interrupt toAnalyze outcome extra.
Proof.
  intros Hsize.
  induction fuel as [|fuel IH]; intros i isAborted components log Hfuel Hc.
  - simpl. replace (length toAnalyze <=? i)%nat with true
      by (symmetry; apply Nat.leb_le; lia).
    destruct (finishRun_wellEnded interrupt toAnalyze isAborted components log Hc)
      as (o & e & -> & ?). eauto.
  - remember (S fuel) as fuel1 eqn:Hfuel1. cbn [batchLoop]. subst fuel1.
    destruct (length toAnalyze <=? i)%nat.
    { destruct (finishRun_wellEnded interrupt toAnalyze isAborted components log Hc)
        as (o & e & -> & ?). eauto. }
    destruct isAborted.
    { destruct (finishRun_wellEnded interrupt toAnalyze true components log Hc)
        as (o & e & -> & ?). eauto. }
    destruct (bool_decide _) eqn:Hint.
    { simpl. eexists _, [_; _]. split; [done|].
      apply bool_decide_eq_true in Hint.
      split; [done|]. split; [split; [done|by left]|]. split.
      - intros code [= <-]. split; [done|]. by rewrite Hint.
      - by intros ? [=]. }
    destruct (tasks_total (firstn batchSize (skipn i toAnalyze)))
      as [tasks Htasks].
    rewrite Htasks.
    destruct (promiseAll Analysis tasks) as [results|errorName] eqn:Hp.
    + destruct (IH (i + batchSize)%nat false
                   (components ++ validResultsOf Analysis results)%list
                   (log ++ [LogBatchDone (i / batchSize + 1) totalBatches
                              (length (validResultsOf Analysis results))
                              (length (firstn batchSize (skipn i toAnalyze)))])%list)
        as (o & e & -> & He); [lia| |].
      * apply Forall_app. split; [done|]. apply Forall_forall.
        intros info Hin. apply list_elem_of_In in Hin.
        destruct (batch_results _ _ _ _ Htasks Hp Hin) as (c & Hcin & Ha).
        exists c. split; [by eapply In_slice|done].
      * eexists _, (_ :: e). rewrite <- app_assoc. split; [done|].
        by apply wellEnded_later.
    + destruct (String.eqb errorName "AbortError" || false).
      * destruct (finishRun_wellEnded interrupt toAnalyze false components
                    (log ++ [LogBatchCancelled (i / batchSize + 1)])%list Hc)
          as (o & e & -> & He).
        eexists _, (_ :: e). rewrite <- app_assoc. split; [done|].
        by apply wellEnded_later.
      * destruct (IH (i + batchSize)%nat false components
                     (log ++ [LogBatchFailed (i / batchSize + 1)])%list)
          as (o & e & -> & He); [lia|done|].
        eexists _, (_ :: e). rewrite <- app_assoc. split; [done|].
        by apply wellEnded_later.
Qed.

Lemma calculateOptimalBatchSize_pos n : (0 < calculateOptimalBatchSize n)%nat.
Proof.
  unfold calculateOptimalBatchSize.
  repeat (destruct (_ <=? _)%nat; [lia|]). lia.
Qed.

(** the batch size of the first hundred is the batch size of the whole *)
Lemma batch_size_of_analysed n :
  calculateOptimalBatchSize (n `min` maxComponents) = calculateOptimalBatchSize n.
Proof.
  unfold maxComponents.
  destruct (Nat.le_gt_cases n 100) as [H|H].
  - by rewrite Nat.min_l.
  - rewrite Nat.min_r by lia. unfold calculateOptimalBatchSize.
    replace (n <=? 10)%nat with false by (symmetry; apply Nat.leb_gt; lia).
    replace (n <=? 30)%nat with false by (symmetry; apply Nat.leb_gt; lia).
    replace (n <=? 60)%nat with false by (symmetry; apply Nat.leb_gt; lia).
    done.
Qed.

(** C7.  The batch size of a run over [n] candidates is 2 up to ten, 3 up
    to thirty, 4 up to sixty and 5 beyond.  At most a hundred candidates
    are analysed: when there are more, the run starts with the one notice
    it ever prints about it, before the batch plan, and whatever it returns
    is made of analyses of the first hundred. *)
Theorem batch_size_and_ceiling interrupt :
  let n := length componentFiles in
  let analysed := firstn maxComponents componentFiles in
  let batchSize := calculateOptimalBatchSize (length analysed) in
  batchSize = (if (n <=? 10)%nat then 2 else if (n <=? 30)%nat then 3
               else if (n <=? 60)%nat then 4 else 5)%nat
  /\ (length analysed <= 100)%nat
  /\ (n = 0%nat \/
      exists outcome totalBatches log,
        analyzeComponents path_dirname path_resolve path_basename Analysis
                          analyzeComponent relativeToCwd interrupt componentFiles
        = Returned (outcome,
                    ((if (100 <? n)%nat then [NoticeTooMany 100] else [])
                       ++ LogBatchPlan batchSize totalBatches :: log)%list)
        /\ existsb isNotice log = false
        /\ (forall returned,
               outcome = Returns returned ->
               Forall (fun info => exists c, In c analysed /\ analysedHere c info)
                      returned)).
Proof.
  intros n analysed batchSize.
  split.
  { unfold batchSize, analysed. rewrite length_take, Nat.min_comm.
    by rewrite batch_size_of_analysed. }
  split.
  { unfold analysed. apply firstn_le_length. }
  destruct (Nat.eq_dec n 0) as [Hn|Hn]; [by left|right].
  unfold analyzeComponents. fold n.
  replace (n =? 0)%nat with false by (symmetry; by apply Nat.eqb_neq).
  fold analysed. fold batchSize.
  destruct (batchLoop_results interrupt analysed batchSize
              ((length analysed + batchSize - 1) / batchSize)%nat
              (length analysed)
              (calculateOptimalBatchSize_pos _) 0%nat false []
              ((if (maxComponents <? n)%nat then [NoticeTooMany maxComponents]
                else []) ++ [LogBatchPlan batchSize
                               ((length analysed + batchSize - 1) / batchSize)])%list)
    as (outcome & extra & -> & Hextra & _ & _ & Hreturned); [lia|done|].
  exists outcome, ((length analysed + batchSize - 1) / batchSize)%nat, extra.
  rewrite <- app_assoc. done.
Qed.

(** C8.  The code departs from the claim: whenever the interrupt handler
    runs during analyzeComponents, which the run reports, the call does not
    return the candidates completed so far; the process exits with status
    130. *)
Theorem interrupt_exits interrupt outcome log :
  analyzeComponents path_dirname path_resolve path_basename Analysis
                    analyzeComponent relativeToCwd interrupt componentFiles
  = Returned (outcome, log) ->
  In LogInterrupt log ->
  outcome = Exits 130.
Proof.
  unfold analyzeComponents.
  destruct (length componentFiles =? 0)%nat.
  { intros [= <- <-] [?|[]]. done. }
  set (analysed := firstn maxComponents componentFiles).
  set (batchSize := calculateOptimalBatchSize (length analysed)).
  destruct (batchLoop_results interrupt analysed batchSize
              ((length analysed + batchSize - 1) / batchSize)%nat
              (length analysed)
              (calculateOptimalBatchSize_pos _) 0%nat false []
              ((if (maxComponents <? length componentFiles)%nat
                then [NoticeTooMany maxComponents]
                else []) ++ [LogBatchPlan batchSize
                               ((length analysed + batchSize - 1) / batchSize)])%list)
    as (o & extra & -> & _ & Hexit & _ & _); [lia|done|].
  intros [= <- <-] Hin. apply Hexit.
  apply in_app_iff in Hin as [Hin|Hin]; [|done].
  apply in_app_iff in Hin as [Hin|[?|[]]]; [|done].
  by destruct (maxComponents <? _)%nat; [destruct Hin as [?|[]]|].
Qed.


(** X4.  A run of analyzeComponents always ends: it returns a list, or it
    leaves the process with status 130, and the latter only when an
    interrupt is delivered. *)
Theorem run_always_ends interrupt :
  exists outcome log,
    analyzeComponents path_dirname path_resolve path_basename Analysis
                      analyzeComponent relativeToCwd interrupt componentFiles
    = Returned (outcome, log)
    /\ ((exists returned, outcome = Returns returned)
        \/ (outcome = Exits 130 /\ interrupt <> None)).
Proof.
  unfold analyzeComponents.
  destruct (length componentFiles =? 0)%nat.
  { eexists _, _. split; [done|]. left. eauto. }
  set (analysed := firstn maxComponents componentFiles).
  set (batchSize := calculateOptimalBatchSize (length analysed)).
  destruct (batchLoop_results interrupt analysed batchSize
              ((length analysed + batchSize - 1) / batchSize)%nat
              (length analysed)
              (calculateOptimalBatchSize_pos _) 0%nat false []
              ((if (maxComponents <? length componentFiles)%nat
                then [NoticeTooMany maxComponents]
                else []) ++ [LogBatchPlan batchSize
                               ((length analysed + batchSize - 1) / batchSize)])%list)
    as (o & extra & -> & _ & _ & Hexit & _); [lia|done|].
  eexists _, _. split; [done|].
  destruct o as [returned|code]; [left; eauto|right].
  by destruct (Hexit code eq_refl) as [-> ?].
Qed.

End OrchestratorProperties.

(** C2 fails as stated: a component whose imports reach ten others gets a
    context of nine entries, eight snippets and the omission marker. *)
Lemma context_with_nine_entries :
  exists ctx,
    buildDependencyContext Posix.dirname Posix.resolve Posix.basename
                           Demo.app Demo.appComponents 3
    = Returned ctx
    /\ length (relatedFiles ctx) = 9%nat
    /\ last (relatedFiles ctx) = Some (omissionMarker 2).
Proof.
  eexists. split; [vm_compute; reflexivity|]. split; reflexivity.
Qed.

(** ** The tracer on the worked inputs *)

Section TracerExamples.

Local Abbreviation traceWith parse :=
  (traceComponentImplementation parse Posix.dirname Posix.resolve).
Local Abbreviation forwardsWith parse :=
  (forwards parse Posix.dirname Posix.resolve).
Local Abbreviation implementsWith parse :=
  (implements parse Posix.dirname Posix.resolve).

Lemma default_as_resolves_to_module_witness :
  traceWith Demo.dialogParse "DialogModal" "/lib/src/index.ts" Demo.dialogFiles
  = Returned (Some (mkTraceResult "DialogModal" (content Demo.dialog)
                                  "/lib/src/ui/dialog.tsx" Demo.dialog
                                  [Demo.dialogIndex; Demo.dialog])).
Proof.
  destruct (default_as_resolves_to_module
              Demo.dialogParse Posix.dirname Posix.resolve Demo.dialogFiles
              "DialogModal" Demo.dialogIndex
              [ExportNamedDeclaration KindValue
                 [Demo.renamed "default" "DialogModal"] (Some "./ui/dialog") []]
              [] "./ui/dialog" [] "/lib/src/ui/dialog.tsx")
    as (barFile & Hbar & _ & Htrace & _).
  - vm_compute. reflexivity.
  - vm_compute. reflexivity.
  - vm_compute. reflexivity.
  - vm_compute. reflexivity.
  - constructor.
  - vm_compute in Hbar. injection Hbar as <-. exact Htrace.
Defined.

(** C5 fails as stated: the file re-exports [default as Foo] from [./Bar]
    and then from [./Baz], both resolve, and the tracer answers with the
    file of [./Baz]. *)
Lemma default_as_last_module_wins :
  Demo.twoDefaultsParse (content Demo.twoDefaultsIndex) = Some Demo.twoDefaultsAst
  /\ resolveFilePath Posix.dirname Posix.resolve "./Bar"
                     (path Demo.twoDefaultsIndex) Demo.twoDefaultsFiles
     = Some (path Demo.barModule)
  /\ traceWith Demo.twoDefaultsParse "Foo" (path Demo.twoDefaultsIndex)
               Demo.twoDefaultsFiles
     = Returned (Some (mkTraceResult "Foo" (content Demo.bazModule)
                                     "/lib/src/Baz.tsx" Demo.bazModule
                                     [Demo.twoDefaultsIndex; Demo.barModule;
                                      Demo.bazModule])).
Proof. repeat split; vm_compute; reflexivity. Qed.

Lemma trace_three_hop_chain_witness :
  traceWith Demo.chainParse "Button" "/lib/src/index.ts" Demo.chainFiles
  = Returned (Some (mkTraceResult "Button" (content Demo.chainC)
                                  "/lib/src/components/button.tsx" Demo.chainC
                                  [Demo.chainA; Demo.chainB; Demo.chainC])).
Proof.
  apply (trace_three_hop_chain
           Demo.chainParse Posix.dirname Posix.resolve Demo.chainFiles
           "Button" "Button" "Button" Demo.chainA Demo.chainB Demo.chainC);
    try (vm_compute; reflexivity); try (vm_compute; discriminate).
  - by_reading.
  - by_reading.
  - by_reading.
Defined.

(** C6 fails as stated: behind an entry that re-exports [Button] from the
    chain and then has a wildcard re-export of another module, the tracer
    follows the wildcard and answers with that module. *)
Lemma chain_lost_behind_wildcard :
  Demo.chainParse (content Demo.barrelA)
  = Some [ExportNamedDeclaration KindValue [Demo.named "Button"]
                                 (Some "./components") [];
          ExportAllDeclaration "./helpers"]
  /\ resolveFilePath Posix.dirname Posix.resolve "./components"
                     (path Demo.barrelA) Demo.barrelFiles
     = Some (path Demo.chainB)
  /\ forwardsWith Demo.chainParse Demo.barrelFiles "Button" Demo.chainB
                  "Button" Demo.chainC
  /\ implementsWith Demo.chainParse Demo.barrelFiles "Button" Demo.chainC
  /\ traceWith Demo.chainParse "Button" (path Demo.barrelA) Demo.barrelFiles
     = Returned (Some (mkTraceResult "Button" (content Demo.helpers)
                                     "/lib/src/helpers.ts" Demo.helpers
                                     [Demo.barrelA; Demo.helpers])).
Proof.
  split; [vm_compute; reflexivity|].
  split; [vm_compute; reflexivity|].
  split; [by_reading|]. split; [by_reading|].
  vm_compute. reflexivity.
Qed.

Lemma trace_reexport_cycle_witness :
  traceWith Demo.cycleParse "Card" "/lib/src/a.ts" Demo.cycleFiles
  = Returned None.
Proof.
  apply (trace_reexport_cycle
           Demo.cycleParse Posix.dirname Posix.resolve Demo.cycleFiles
           "Card" Demo.cycleA Demo.cycleB);
    try (vm_compute; reflexivity); try (vm_compute; discriminate).
  - by_reading.
  - by_reading.
Defined.

(** C1 fails as stated: the two files re-export [Card] from each other,
    and the tracer returns no file at all, neither of the two it visited. *)
Lemma reexport_cycle_returns_no_file :
  Demo.cycleParse (content Demo.cycleA)
  = Some [ExportNamedDeclaration KindValue [Demo.named "Card"] (Some "./b") []]
  /\ resolveFilePath Posix.dirname Posix.resolve "./b" (path Demo.cycleA)
                     Demo.cycleFiles = Some (path Demo.cycleB)
  /\ Demo.cycleParse (content Demo.cycleB)
     = Some [ExportNamedDeclaration KindValue [Demo.named "Card"] (Some "./a") []]
  /\ resolveFilePath Posix.dirname Posix.resolve "./a" (path Demo.cycleB)
                     Demo.cycleFiles = Some (path Demo.cycleA)
  /\ ~ (exists r,
           traceWith Demo.cycleParse "Card" (path Demo.cycleA) Demo.cycleFiles
           = Returned (Some r)).
Proof.
  repeat (split; [vm_compute; reflexivity|]).
  intros [r Hr]. vm_compute in Hr. discriminate.
Qed.

Lemma trace_result_is_collected_witness :
  In Demo.chainC [Demo.chainA; Demo.chainB; Demo.chainC].
Proof.
  apply (trace_result_is_collected
           Demo.chainParse Posix.dirname Posix.resolve Demo.chainFiles
           "Button" "/lib/src/index.ts"
           (mkTraceResult "Button" (content Demo.chainC)
                          "/lib/src/components/button.tsx" Demo.chainC
                          [Demo.chainA; Demo.chainB; Demo.chainC])).
  vm_compute. reflexivity.
Defined.

End TracerExamples.

(** ** The resolver on the worked inputs *)

Section ResolverExamples.

Local Abbreviation extractWith parse :=
  (extractComponentInfoFromIndex parse Posix.dirname Posix.resolve Demo.noNames Demo.noFile).

Lemma local_exports_map_witness :
  exists m,
    extractWith Demo.localParse 1 [Demo.localEntry]
                (content Demo.localEntry) (path Demo.localEntry)
    = Returned m
    /\ m !! "Card" = Some "/lib/src/index.ts"
    /\ m !! "ThemeConfig" = None
    /\ m !! "Button" = None.
Proof.
  destruct (local_exports_map Demo.localParse Posix.dirname Posix.resolve
              Demo.noNames Demo.noFile [Demo.localEntry] 0
              (content Demo.localEntry) (path Demo.localEntry) Demo.localAst)
    as (m & Hm & Hlookup).
  - vm_compute. reflexivity.
  - vm_compute. reflexivity.
  - exists m. split; [exact Hm|]. rewrite !Hlookup.
    vm_compute. repeat split.
Defined.

(** C3 fails as stated: the file has local definitions only and exports the
    PascalCase names [Button], [Card] and [ThemeConfig]; the map holds
    [Card] alone, since [Button] is exported by its declaration and
    [ThemeConfig] is refused by the filter. *)
Lemma local_exports_not_all_mapped :
  Demo.localParse (content Demo.localEntry) = Some Demo.localAst
  /\ existsb isReexport Demo.localAst = false
  /\ flat_map exportedNames Demo.localAst = ["Button"; "Card"; "ThemeConfig"]
  /\ forallb isPascalCase ["Button"; "Card"; "ThemeConfig"] = true
  /\ exists m,
       extractWith Demo.localParse 1 [Demo.localEntry]
                   (content Demo.localEntry) (path Demo.localEntry)
       = Returned m
       /\ m !! "Card" = Some "/lib/src/index.ts"
       /\ m !! "ThemeConfig" = None
       /\ m !! "Button" = None.
Proof.
  repeat (split; [vm_compute; reflexivity|]).
  eexists. split; [vm_compute; reflexivity|].
  vm_compute. repeat split.
Qed.

Lemma wildcard_propagates_witness :
  exists m,
    extractWith Demo.widgetsParse 3 Demo.widgetsFiles
                (content Demo.widgetsEntry) (path Demo.widgetsEntry)
    = Returned m
    /\ is_Some (m !! "Card").
Proof.
  eapply (wildcard_propagates Demo.widgetsParse Posix.dirname Posix.resolve
            Demo.noNames Demo.noFile Demo.widgetsFiles Demo.widgetsEntry
            Demo.widgetsEntryAst "./widgets" "/lib/src/widgets/index.ts"
            Demo.widgetsIndex "Card" 3).
  - vm_compute. reflexivity.
  - right. left. reflexivity.
  - vm_compute. reflexivity.
  - vm_compute. reflexivity.
  - eapply (supplies_wildcard _ _ _ _ Demo.widgetsIndex _ "./card"
              "/lib/src/widgets/card.tsx" Demo.widgetsCard).
    + vm_compute. reflexivity.
    + left. reflexivity.
    + vm_compute. reflexivity.
    + vm_compute. reflexivity.
    + eapply (supplies_recorded _ _ _ _ Demo.widgetsCard _ "Card"
                "/lib/src/widgets/card.tsx").
      * vm_compute. reflexivity.
      * vm_compute. left. reflexivity.
      * vm_compute. reflexivity.
    + vm_compute. reflexivity.
  - vm_compute. reflexivity.
  - vm_compute. reflexivity.
  - apply expandsWithinb_true. vm_compute. reflexivity.
Defined.

(** C4 fails as stated, on the shape of the repository's own test project:
    the entry has [export * from './basic'], the module exports the
    PascalCase names [Button] and [IconButton] by their declarations, and
    the map of the entry holds neither. *)
Lemma wildcard_misses_declared_exports :
  Demo.starParse (content Demo.starEntry) = Some [ExportAllDeclaration "./basic"]
  /\ resolveFilePath Posix.dirname Posix.resolve "./basic" (path Demo.starEntry)
                     Demo.starFiles = Some (path Demo.basic)
  /\ Demo.starParse (content Demo.basic) = Some Demo.basicAst
  /\ flat_map exportedNames Demo.basicAst = ["Button"; "IconButton"; "SubButton"]
  /\ forallb isPascalCase ["Button"; "IconButton"; "SubButton"] = true
  /\ exists m,
       extractWith Demo.starParse 2 Demo.starFiles
                   (content Demo.starEntry) (path Demo.starEntry)
       = Returned m
       /\ m !! "Button" = None
       /\ m !! "IconButton" = None
       /\ m !! "SubButton" = Some "/lib/src/basic.tsx".
Proof.
  repeat (split; [vm_compute; reflexivity|]).
  eexists. split; [vm_compute; reflexivity|].
  vm_compute. repeat split.
Qed.

(** a wildcard cycle through a file that Babel rejects: the catch branch
    of the resolver follows the [export * from] it finds in the text of the
    file, and the resolver does not return, whatever the budget *)
Example wildcard_cycle_through_rejected_file fuel :
  Demo.loopParse (content Demo.loopBroken) = None
  /\ extractWith Demo.loopParse fuel Demo.loopFiles
                 (content Demo.loopEntry) (path Demo.loopEntry)
     = OutOfFuel.
Proof.
  assert (Hentry : Demo.loopParse (content Demo.loopEntry)
                   = Some [ExportAllDeclaration "./sub";
                           ExportAllDeclaration "./broken"])
    by (vm_compute; reflexivity).
  assert (Hbroken : Demo.loopParse (content Demo.loopBroken) = None)
    by (vm_compute; reflexivity).
  assert (Hsub : resolveFilePath Posix.dirname Posix.resolve "./sub"
                                 (path Demo.loopEntry) Demo.loopFiles
                 = Some (path Demo.loopSub)) by (vm_compute; reflexivity).
  assert (Hsub' : findByPath (path Demo.loopSub) Demo.loopFiles
                  = Some Demo.loopSub) by (vm_compute; reflexivity).
  assert (Hbr : resolveFilePath Posix.dirname Posix.resolve "./broken"
                                (path Demo.loopEntry) Demo.loopFiles
                = Some (path Demo.loopBroken)) by (vm_compute; reflexivity).
  assert (Hbr' : findByPath (path Demo.loopBroken) Demo.loopFiles
                 = Some Demo.loopBroken) by (vm_compute; reflexivity).
  assert (Hstars : exec_all exportStarPattern (content Demo.loopBroken)
                   = ["./index"]) by (vm_compute; reflexivity).
  assert (Hback : reExportTarget Posix.dirname Posix.resolve "./index"
                                 (path Demo.loopBroken) Demo.loopFiles
                  = Some Demo.loopEntry) by (vm_compute; reflexivity).
  split; [exact Hbroken|].
  assert (H : forall n,
             extractWith Demo.loopParse n Demo.loopFiles
                         (content Demo.loopEntry) (path Demo.loopEntry)
             = OutOfFuel
             /\ extractWith Demo.loopParse n Demo.loopFiles
                            (content Demo.loopBroken) (path Demo.loopBroken)
                = OutOfFuel); [|apply H].
  induction n as [|n [He Hb]]; [split; reflexivity|].
  split; cbn [extractComponentInfoFromIndex].
  - rewrite Hentry. cbn [exportStarSources flat_map app map].
    unfold extractComponentsFromReExportWithPaths.
    rewrite Hsub, Hsub', Hbr, Hbr'. cbn [runAll]. rewrite Hb.
    destruct (extractWith Demo.loopParse n Demo.loopFiles
                          (content Demo.loopSub) (path Demo.loopSub));
      reflexivity.
  - rewrite Hbroken, Hstars. cbn [map].
    unfold extractComponentsFromReExport. rewrite Hback, He. reflexivity.
Qed.

Lemma wildcard_overrides_named_witness :
  fold_left (indexVisit Posix.dirname Posix.resolve (path Demo.widgetsEntry)
                        Demo.widgetsFiles)
            Demo.widgetsEntryAst ∅ !! "Card"
  = Some "/lib/src/legacy/card.tsx"
  /\ exists m,
       extractWith Demo.widgetsParse 3 Demo.widgetsFiles
                   (content Demo.widgetsEntry) (path Demo.widgetsEntry)
       = Returned m
       /\ m !! "Card" = Some "/lib/src/widgets/card.tsx".
Proof.
  split; [vm_compute; reflexivity|].
  destruct (wildcard_overrides_named
              Demo.widgetsParse Posix.dirname Posix.resolve
              Demo.noNames Demo.noFile Demo.widgetsFiles
              Demo.widgetsEntry Demo.widgetsEntryAst "./widgets"
              "/lib/src/widgets/index.ts" Demo.widgetsIndex "Card" 2)
    as (m & results & p & Hm & Hresults & Hp & Hcard).
  - vm_compute. reflexivity.
  - right. left. reflexivity.
  - vm_compute. reflexivity.
  - vm_compute. reflexivity.
  - eapply (supplies_wildcard _ _ _ _ Demo.widgetsIndex _ "./card"
              "/lib/src/widgets/card.tsx" Demo.widgetsCard).
    + vm_compute. reflexivity.
    + left. reflexivity.
    + vm_compute. reflexivity.
    + vm_compute. reflexivity.
    + eapply (supplies_recorded _ _ _ _ Demo.widgetsCard _ "Card"
                "/lib/src/widgets/card.tsx").
      * vm_compute. reflexivity.
      * vm_compute. left. reflexivity.
      * vm_compute. reflexivity.
    + vm_compute. reflexivity.
  - vm_compute. reflexivity.
  - vm_compute. reflexivity.
  - apply expandsWithinb_true. vm_compute. reflexivity.
  - exists m. split; [exact Hm|].
    vm_compute in Hresults. injection Hresults as <-.
    vm_compute in Hp. injection Hp as <-. exact Hcard.
Defined.

(** C9 fails as stated: the entry names [Card] in an export list and has a
    wildcard re-export of a module that exports [Card] by its declaration;
    the expansion of the wildcard does not hold the name, and the map keeps
    the file of the export list. *)
Lemma named_wins_over_declaring_wildcard :
  Demo.shadowParse (content Demo.shadowEntry) = Some Demo.shadowEntryAst
  /\ resolveFilePath Posix.dirname Posix.resolve "./panels" (path Demo.shadowEntry)
                     Demo.shadowFiles = Some (path Demo.panels)
  /\ (exists panelsAst,
         Demo.shadowParse (content Demo.panels) = Some panelsAst
         /\ In "Card" (flat_map exportedNames panelsAst))
  /\ exists m,
       extractWith Demo.shadowParse 2 Demo.shadowFiles
                   (content Demo.shadowEntry) (path Demo.shadowEntry)
       = Returned m
       /\ m !! "Card" = Some "/lib/src/legacy/card.tsx".
Proof.
  split; [vm_compute; reflexivity|]. split; [vm_compute; reflexivity|].
  split.
  - eexists. split; [vm_compute; reflexivity|]. left. reflexivity.
  - eexists. split; vm_compute; reflexivity.
Qed.

(** the same holds for [Badge], whose export list follows the wildcard *)
Example wildcard_overrides_later_list :
  fold_left (indexVisit Posix.dirname Posix.resolve (path Demo.widgetsEntry)
                        Demo.widgetsFiles)
            Demo.widgetsEntryAst ∅ !! "Badge"
  = Some "/lib/src/legacy/badge.tsx"
  /\ exists m,
       extractWith Demo.widgetsParse 3 Demo.widgetsFiles
                   (content Demo.widgetsEntry) (path Demo.widgetsEntry)
       = Returned m
       /\ m !! "Badge" = Some "/lib/src/widgets/badge.tsx".
Proof.
  split; [vm_compute; reflexivity|].
  eexists. split; vm_compute; reflexivity.
Qed.

End ResolverExamples.

(** ** The dependency scan and the orchestrator on the worked inputs *)

(** a directory import is lost by the scan and found by resolveFilePath *)
Example directory_import_not_scanned :
  importSpecifiers Demo.pageImporter = ["./components"]
  /\ analyzeDependencies Posix.dirname Posix.resolve Demo.pageImporter
                         Demo.pageFiles = []
  /\ resolveFilePath Posix.dirname Posix.resolve "./components"
                     (path Demo.pageImporter) Demo.pageFiles
     = Some "/lib/src/components/index.ts".
Proof. repeat split; vm_compute; reflexivity. Qed.

Example batch_size_7 : calculateOptimalBatchSize 7 = 2%nat.
Proof. reflexivity. Qed.
Example batch_size_45 : calculateOptimalBatchSize 45 = 4%nat.
Proof. reflexivity. Qed.
Example batch_size_200 :
  calculateOptimalBatchSize (length (firstn maxComponents (repeat Demo.app 200)))
  = 5%nat
  /\ length (firstn maxComponents (repeat Demo.app 200)) = 100%nat.
Proof. split; vm_compute; reflexivity. Qed.

(** five candidates make three batches of two; the run that is not
    interrupted returns the five analyses *)
Example run_without_interrupt :
  analyzeComponents Posix.dirname Posix.resolve Posix.basename string
                    Demo.echoAnalyzer Demo.relativeToLib None Demo.fiveComponents
  = Returned
      (Returns (map (fun n => mkComponentInfo string n ("src/" ++ n ++ ".tsx"))
                    ["Alpha"; "Beta"; "Gamma"; "Delta"; "Epsilon"]),
       [LogBatchPlan 2 3; LogBatchDone 1 3 2 2; LogBatchDone 2 3 2 2;
        LogBatchDone 3 3 1 1; SpinnerSucceed 5]).
Proof. vm_compute. reflexivity. Qed.

(** the interrupt delivered during the second batch: the first batch has
    completed two candidates, and the run ends the process *)
Lemma interrupt_exits_witness :
  exists outcome log,
    analyzeComponents Posix.dirname Posix.resolve Posix.basename string
                      Demo.echoAnalyzer Demo.relativeToLib (Some 2%nat)
                      Demo.fiveComponents
    = Returned (outcome, log)
    /\ log = [LogBatchPlan 2 3; LogBatchDone 1 3 2 2; LogInterrupt;
              SpinnerFailUserCancel]
    /\ outcome = Exits 130.
Proof.
  eexists _, _. split; [vm_compute; reflexivity|]. split; [reflexivity|].
  eapply (interrupt_exits Posix.dirname Posix.resolve Posix.basename string
            Demo.echoAnalyzer Demo.relativeToLib Demo.fiveComponents (Some 2%nat)).
  - vm_compute. reflexivity.
  - right. right. left. reflexivity.
Defined.

(** ** The name filters on sample names *)

Example isPascalCase_Button : isPascalCase "Button" = true.
Proof. vm_compute. reflexivity. Qed.
Example isPascalCase_camel : isPascalCase "useThing" = false.
Proof. vm_compute. reflexivity. Qed.
Example isPascalCase_dash : isPascalCase "Date-Picker" = false.
Proof. vm_compute. reflexivity. Qed.
Example likely_Button : isLikelyComponent "Button" "export { Button }" = true.
Proof. vm_compute. reflexivity. Qed.
Example likely_ThemeConfig :
  isLikelyComponent "ThemeConfig" "export { ThemeConfig }" = false.
Proof. vm_compute. reflexivity. Qed.
Example likely_Prototype : isLikelyComponent "Prototype" "" = false.
Proof. vm_compute. reflexivity. Qed.
Example likely_ThemeProvider : isLikelyComponent "ThemeProvider" "" = true.
Proof. vm_compute. reflexivity. Qed.
Example likely_ApiProvider : isLikelyComponent "ApiClientProvider" "" = false.
Proof. vm_compute. reflexivity. Qed.
Example likely_type_only :
  isLikelyComponent "ButtonProps" "export type ButtonProps = {}" = false.
Proof. vm_compute. reflexivity. Qed.
Example likely_type_and_value :
  isLikelyComponent "Button" "export type Button = {}; export { Button }" = true.
Proof. vm_compute. reflexivity. Qed.

(** * Properties of the rest of the tool *)

Section MatcherProperties.
Context {R : Type}.
Implicit Types (k : @cont R) (b s : list ascii) (c : option (list ascii)).

Lemma rmatch_Star r b s c k :
  rmatch (Star r) b s c k
  = star_loop (fun b s c k' => rmatch r b s c k') k (length s) b s c.
Proof. reflexivity. Qed.

(** a success of the matcher is a match, handed to the continuation *)
Lemma rmatch_sound r :
  forall b s c k x,
    rmatch r b s c k = Some x ->
    exists b' s' c', matches r b s c b' s' c' /\ k b' s' c' = Some x.
Proof.
  induction r as [|p|r1 IH1 r2 IH2|r1 IH1 r2 IH2|r IH| | | |r IH];
    intros b s c k x H.
  - exists b, s, c. split; [constructor|done].
  - simpl in H. destruct s as [|a s]; [done|].
    destruct (p a) eqn:Hp; [|done].
    exists (a :: b), s, c. split; [by constructor|done].
  - simpl in H. apply IH1 in H as (b1 & s1 & c1 & H1 & H).
    apply IH2 in H as (b2 & s2 & c2 & H2 & H).
    exists b2, s2, c2. split; [by econstructor|done].
  - simpl in H. destruct (rmatch r1 b s c k) as [y|] eqn:E.
    + injection H as <-. apply IH1 in E as (b1 & s1 & c1 & H1 & H).
      exists b1, s1, c1. split; [by apply matches_Alt_l|done].
    + apply IH2 in H as (b1 & s1 & c1 & H1 & H).
      exists b1, s1, c1. split; [by apply matches_Alt_r|done].
  - rewrite rmatch_Star in H. revert H.
    generalize (length s) as n. intros n. revert b s c.
    induction n as [|n IHn]; intros b s c H; simpl in H.
    + exists b, s, c. split; [constructor|done].
    + match type of H with
      | match ?m with _ => _ end = _ => destruct m as [y|] eqn:E
      end.
      * injection H as <-. apply IH in E as (b1 & s1 & c1 & H1 & H).
        destruct (length s1 <? length s)%nat eqn:Hlt; [|done].
        apply Nat.ltb_lt in Hlt.
        apply IHn in H as (b2 & s2 & c2 & H2 & H).
        exists b2, s2, c2. split; [by econstructor|done].
      * exists b, s, c. split; [constructor|done].
  - simpl in H. destruct b; [|done].
    exists [], s, c. split; [constructor|done].
  - simpl in H. destruct s; [|done].
    exists b, [], c. split; [constructor|done].
  - simpl in H. destruct (at_boundary b s) eqn:E; [|done].
    exists b, s, c. split; [by constructor|done].
  - simpl in H. apply IH in H as (b1 & s1 & c1 & H1 & H).
    exists b1, s1, (Some (firstn (length s - length s1) s)).
    split; [by eapply matches_Group|done].
Qed.

Lemma star_loop_stop body k n b s c x :
  k b s c = Some x -> exists y, star_loop body k n b s c = Some y.
Proof.
  intros H. destruct n as [|n]; simpl; [eauto|].
  destruct (body _ _ _ _); eauto.
Qed.

(** a match the continuation accepts makes the matcher succeed *)
Lemma rmatch_complete r :
  forall b s c b' s' c' k x,
    matches r b s c b' s' c' ->
    k b' s' c' = Some x ->
    exists y, rmatch r b s c k = Some y.
Proof.
  induction r as [|p|r1 IH1 r2 IH2|r1 IH1 r2 IH2|r IH| | | |r IH];
    intros b s c b' s' c' k x Hm Hk.
  - inversion Hm; subst. simpl. eauto.
  - inversion Hm; subst. simpl.
    match goal with H : p _ = true |- _ => rewrite H end. eauto.
  - inversion Hm; subst. simpl.
    match goal with
    | H1 : matches r1 _ _ _ ?b1 ?s1 ?c1, H2 : matches r2 _ _ _ _ _ _ |- _ =>
        destruct (IH2 _ _ _ _ _ _ _ _ H2 Hk) as [y Hy];
        apply (IH1 _ _ _ _ _ _ _ _ H1 Hy)
    end.
  - simpl. destruct (rmatch r1 b s c k) as [y|] eqn:E; [eauto|].
    inversion Hm; subst.
    + match goal with
      | H1 : matches r1 _ _ _ _ _ _ |- _ =>
          destruct (IH1 _ _ _ _ _ _ _ _ H1 Hk) as [y Hy]; congruence
      end.
    + match goal with
      | H2 : matches r2 _ _ _ _ _ _ |- _ => apply (IH2 _ _ _ _ _ _ _ _ H2 Hk)
      end.
  - rewrite rmatch_Star.
    assert (Hn : (length s <= length s)%nat) by lia. revert Hn.
    generalize (length s) at 2 3 as n. intros n Hn.
    remember (Star r) as sr eqn:Hsr. revert n Hn.
    induction Hm; try discriminate; injection Hsr as ->; intros n Hn.
    + by eapply star_loop_stop.
    + destruct n as [|n]; [lia|]. simpl.
      destruct (IHHm2 eq_refl Hk n) as [y Hy]; [lia|].
      match goal with
      | |- context [rmatch r b s c ?k'] =>
          destruct (IH _ _ _ _ _ _ k' y Hm1) as [z ->]; [|eauto]
      end.
      simpl. replace (length s1 <? length s)%nat with true
        by (symmetry; apply Nat.ltb_lt; lia).
      done.
  - inversion Hm; subst. simpl. eauto.
  - inversion Hm; subst. simpl. eauto.
  - inversion Hm; subst. simpl.
    match goal with H : at_boundary _ _ = true |- _ => rewrite H end. eauto.
  - inversion Hm; subst. simpl.
    match goal with
    | H1 : matches r _ _ _ _ _ _ |- _ => apply (IH _ _ _ _ _ _ _ _ H1 Hk)
    end.
Qed.

End MatcherProperties.

(** ** What [search] and [test] find *)

Lemma search_sound r :
  forall s b c' b' s',
    search r b s = Some (c', b', s') ->
    exists pre post,
      s = (pre ++ post)%list /\ matches r (rev pre ++ b)%list post None b' s' c'.
Proof.
  induction s as [|a s IH]; intros b c' b' s' H; simpl in H.
  - destruct (rmatch r b [] None _) as [m|] eqn:E; [|done].
    injection H as ->. apply rmatch_sound in E as (b1 & s1 & c1 & Hm & [= <- <- <-]).
    by exists [], [].
  - destruct (rmatch r b (a :: s) None _) as [m|] eqn:E.
    + injection H as ->.
      apply rmatch_sound in E as (b1 & s1 & c1 & Hm & [= <- <- <-]).
      by exists [], (a :: s).
    + apply IH in H as (pre & post & -> & Hm).
      exists (a :: pre), post. split; [done|].
      simpl. by rewrite <- app_assoc.
Qed.

Lemma search_complete r pre :
  forall post b b' s' c',
    matches r (rev pre ++ b)%list post None b' s' c' ->
    exists m, search r b (pre ++ post)%list = Some m.
Proof.
  induction pre as [|a pre IH]; intros post b b' s' c' Hm.
  - simpl in Hm.
    destruct (rmatch_complete r _ _ _ _ _ _ (fun b s c => Some (c, b, s)) _
                              Hm eq_refl) as [y Hy].
    destruct post; simpl; rewrite Hy; eauto.
  - simpl. destruct (rmatch r b _ None _); [eauto|].
    apply (IH post (a :: b) b' s' c').
    simpl in Hm. by rewrite <- app_assoc in Hm.
Qed.

(** [re.test(s)] holds exactly when the expression matches at some
    position of the text *)
Lemma test_true r (str : string) :
  test r str = true <->
  exists pre post b' s' c',
    Str.chars str = (pre ++ post)%list /\ matches r (rev pre) post None b' s' c'.
Proof.
  unfold test. split.
  - destruct (search r [] (Str.chars str)) as [[[c' b'] s']|] eqn:E; [|done].
    intros _. apply search_sound in E as (pre & post & Hs & Hm).
    rewrite app_nil_r in Hm. by exists pre, post, b', s', c'.
  - intros (pre & post & b' & s' & c' & -> & Hm).
    destruct (search_complete r pre post [] b' s' c') as [m ->]; [|done].
    by rewrite app_nil_r.
Qed.

(** ** The shape of the matches of the expressions in use *)

Lemma matches_seqs_cons r rs b s c b2 s2 c2 :
  matches (seqs (r :: rs)) b s c b2 s2 c2 <->
  exists b1 s1 c1,
    matches r b s c b1 s1 c1 /\ matches (seqs rs) b1 s1 c1 b2 s2 c2.
Proof.
  destruct rs as [|r' rs].
  - simpl. split.
    + intros H. exists b2, s2, c2. split; [done|constructor].
    + intros (b1 & s1 & c1 & H & He). by inversion He; subst.
  - change (seqs (r :: r' :: rs)) with (Seq r (seqs (r' :: rs))). split.
    + intros H. inversion H; subst. eauto.
    + intros (b1 & s1 & c1 & H1 & H2). by econstructor.
Qed.

(** a sequence of one-character classes matches a text of the same length,
    character by character *)
Lemma matches_classes {A} (f : A -> ascii -> bool) (l : list A) :
  forall b s c b' s' c',
    matches (seqs (map (fun x => Cls (f x)) l)) b s c b' s' c' <->
    exists t,
      s = (t ++ s')%list /\ b' = (rev t ++ b)%list /\ c' = c
      /\ Forall2 (fun x y => f x y = true) l t.
Proof.
  induction l as [|x l IH]; intros b s c b' s' c'.
  - simpl. split.
    + intros H. inversion H; subst. exists []. by repeat split.
    + intros (t & -> & -> & -> & Ht). inversion Ht; subst. constructor.
  - rewrite map_cons, matches_seqs_cons. split.
    + intros (b1 & s1 & c1 & H1 & H2). inversion H1; subst.
      apply IH in H2 as (t & -> & -> & -> & Ht).
      exists (x0 :: t). repeat split; [|by constructor].
      simpl. by rewrite <- app_assoc.
    + intros (t & -> & -> & -> & Ht). inversion Ht as [|x1 y l1 t1 Hy Hrest]; subst.
      exists (y :: b), (t1 ++ s')%list, c. split; [by constructor|].
      apply IH. exists t1. repeat split; [|done].
      simpl. by rewrite <- app_assoc.
Qed.

(** a repeated class takes any run of characters of the class *)
Lemma matches_Star_class p :
  forall b s c b' s' c',
    matches (Star (Cls p)) b s c b' s' c' <->
    exists t,
      s = (t ++ s')%list /\ b' = (rev t ++ b)%list /\ c' = c
      /\ forallb p t = true.
Proof.
  intros b s c b' s' c'. split.
  - intros H. remember (Star (Cls p)) as sr eqn:Hsr.
    induction H; try discriminate; injection Hsr as ->.
    + exists []. by repeat split.
    + inversion H; subst.
      destruct (IHmatches2 eq_refl) as (t & -> & -> & -> & Ht).
      exists (x :: t). repeat split; simpl; [by rewrite <- app_assoc|].
      by rewrite Ht, andb_true_r.
  - intros (t & -> & -> & -> & Ht). revert b Ht.
    induction t as [|x t IH]; intros b Ht; [constructor|].
    simpl in Ht. apply andb_true_iff in Ht as [Hx Ht].
    eapply matches_Star_step; [simpl; by apply matches_Cls|simpl; lia|].
    simpl. rewrite <- app_assoc. by apply IH.
Qed.


Lemma matches_Bol_start r pre post c b' s' c' :
  matches (Seq Bol r) (rev pre) post c b' s' c' ->
  pre = [] /\ matches r [] post c b' s' c'.
Proof.
  intros H. inversion H as [| |r1 r2 b0 s0 c0 b1 s1 c1 b2 s2 c2 Hbol Hr| | | | | | | |];
    subst.
  assert (Hpre : pre = []).
  { rewrite <- (rev_involutive pre). by inversion Hbol. }
  split; [done|]. subst pre. by inversion Hbol; subst.
Qed.

Lemma pascalCasePattern_matches post b' s' c' :
  matches pascalCasePattern [] post None b' s' c' <->
  exists first rest,
    post = first :: rest /\ Str.is_upper first = true
    /\ forallb Str.is_alnum rest = true
    /\ b' = (rev rest ++ [first])%list /\ s' = [] /\ c' = None.
Proof.
  unfold pascalCasePattern. split.
  - intros Hm.
    apply matches_seqs_cons in Hm as (b1 & s1 & c1 & Hbol & Hm).
    apply matches_seqs_cons in Hm as (b2 & s2 & c2 & Hfirst & Hm).
    apply matches_seqs_cons in Hm as (b3 & s3 & c3 & Hrest & Heol).
    simpl in Heol.
    inversion Hbol; subst. inversion Hfirst; subst.
    apply matches_Star_class in Hrest as (t & -> & -> & -> & Ht).
    inversion Heol; subst. exists x, t. by rewrite app_nil_r.
  - intros (first & rest & -> & Hfirst & Hrest & -> & -> & ->).
    apply matches_seqs_cons. exists [], (first :: rest), None.
    split; [constructor|].
    apply matches_seqs_cons. exists [first], rest, None.
    split; [by constructor|].
    apply matches_seqs_cons.
    exists (rev rest ++ [first])%list, [], None.
    split; [|constructor].
    apply matches_Star_class. exists rest. by rewrite app_nil_r.
Qed.

Lemma chars_String (name : string) first rest :
  Str.chars name = first :: rest -> name = String first (Str.of_chars rest).
Proof.
  intros H. rewrite <- (string_of_list_ascii_of_string name).
  unfold Str.chars in H. by rewrite H.
Qed.

Lemma chars_of_chars l : Str.chars (Str.of_chars l) = l.
Proof. apply list_ascii_of_string_of_list_ascii. Qed.

Lemma of_chars_chars s : Str.of_chars (Str.chars s) = s.
Proof. apply string_of_list_ascii_of_string. Qed.

Lemma isPascalCase_first (name : string) :
  isPascalCase name = true ->
  exists first rest,
    name = String first rest
    /\ Str.is_upper first = true
    /\ forallb Str.is_alnum (Str.chars rest) = true.
Proof.
  unfold isPascalCase. rewrite test_true.
  intros (pre & post & b' & s' & c' & Hname & Hm).
  assert (Hpre : pre = []).
  { unfold pascalCasePattern in Hm.
    change (seqs _) with (Seq Bol (seqs [Cls Str.is_upper;
                                          Star (Cls Str.is_alnum); Eol])) in Hm.
    by apply matches_Bol_start in Hm as [-> _]. }
  subst pre. simpl in Hm, Hname.
  apply pascalCasePattern_matches in Hm
      as (first & rest & Hpost & Hfirst & Hrest & _).
  rewrite Hpost in Hname.
  exists first, (Str.of_chars rest).
  split; [by apply chars_String|]. by rewrite chars_of_chars.
Qed.

(** X5.  isPascalCase accepts exactly the names that begin with an upper-case
    ASCII letter and go on with ASCII letters and digits only; the empty
    name is refused. *)
Theorem isPascalCase_spec (name : string) :
  isPascalCase name = true <->
  exists first rest,
    name = String first rest
    /\ Str.is_upper first = true
    /\ forallb Str.is_alnum (Str.chars rest) = true.
Proof.
  split; [apply isPascalCase_first|].
  intros (first & rest & -> & Hfirst & Hrest).
  unfold isPascalCase. rewrite test_true.
  exists [], (first :: Str.chars rest), (rev (Str.chars rest) ++ [first])%list,
    [], None.
  split; [done|].
  apply pascalCasePattern_matches. by exists first, (Str.chars rest).
Qed.

(** ** Literals, options and runs *)

Lemma Forall2_eqb l t :
  Forall2 (fun x y : ascii => Ascii.eqb x y = true) l t <-> t = l.
Proof.
  split.
  - induction 1 as [|x y l t Hxy _ IH]; [done|].
    apply Ascii.eqb_eq in Hxy. by subst.
  - intros ->. induction l; constructor; [apply Ascii.eqb_refl|done].
Qed.

Lemma matches_Lit w b s c b' s' c' :
  matches (Lit w) b s c b' s' c' <->
  s = (Str.chars w ++ s')%list /\ b' = (rev (Str.chars w) ++ b)%list /\ c' = c.
Proof.
  unfold Lit. rewrite matches_classes. split.
  - intros (t & -> & -> & -> & Ht). apply Forall2_eqb in Ht. by subst.
  - intros (-> & -> & ->). exists (Str.chars w). repeat split; try done.
    by apply Forall2_eqb.
Qed.

Lemma Forall2_sameLetters l t :
  Forall2 (fun x y : ascii => Str.eqb_ci x y = true) l t <-> sameLetters l t = true.
Proof.
  split.
  - induction 1 as [|x y l t Hxy _ IH]; [done|]. simpl. by rewrite Hxy.
  - revert t. induction l as [|x l IH]; intros [|y t]; simpl; try done.
    intros H. apply andb_true_iff in H as [Hxy H]. constructor; [done|by apply IH].
Qed.

Lemma matches_LitI w b s c b' s' c' :
  matches (LitI w) b s c b' s' c' <->
  exists t,
    s = (t ++ s')%list /\ b' = (rev t ++ b)%list /\ c' = c
    /\ sameLetters (Str.chars w) t = true.
Proof.
  unfold LitI. rewrite matches_classes.
  split; intros (t & ? & ? & ? & Ht); exists t; repeat split; try done;
    by apply Forall2_sameLetters.
Qed.

Lemma matches_Opt r b s c b' s' c' :
  matches (Opt r) b s c b' s' c' <->
  matches r b s c b' s' c' \/ (b' = b /\ s' = s /\ c' = c).
Proof.
  unfold Opt. split.
  - intros H. inversion H as [| | |? ? ? ? ? ? ? ? Hl|? ? ? ? ? ? ? ? Hr| | | | | |];
      subst; [by left|]. inversion Hr; subst. by right.
  - intros [H|(-> & -> & ->)]; [by apply matches_Alt_l|].
    apply matches_Alt_r. constructor.
Qed.

(** [p+] takes a run of the class that is not empty *)
Lemma matches_Plus_class p b s c b' s' c' :
  matches (Plus (Cls p)) b s c b' s' c' <->
  exists t,
    s = (t ++ s')%list /\ b' = (rev t ++ b)%list /\ c' = c
    /\ t <> [] /\ forallb p t = true.
Proof.
  unfold Plus. split.
  - intros H. inversion H as [| |? ? ? ? ? ? ? ? ? ? ? H1 H2| | | | | | | |]; subst.
    inversion H1; subst.
    apply matches_Star_class in H2 as (t & -> & -> & -> & Ht).
    exists (x :: t). repeat split; simpl; [by rewrite <- app_assoc|done|].
    by rewrite Ht, andb_true_r.
  - intros (t & -> & -> & -> & Hne & Ht).
    destruct t as [|x t]; [done|]. simpl in Ht.
    apply andb_true_iff in Ht as [Hx Ht].
    eapply matches_Seq; [simpl; by apply matches_Cls|].
    apply matches_Star_class. exists t. repeat split; [|done].
    simpl. by rewrite <- app_assoc.
Qed.

Lemma oneLine_spec t :
  oneLine t = true <->
  t <> [] /\ forallb (fun c => negb (Str.is_line_terminator c)) t = true.
Proof.
  unfold oneLine. destruct t as [|x t]; simpl; [by split; [|intros []]|].
  split; [by intros H|by intros [_ H]].
Qed.

Lemma matches_Plus_Dot b s c b' s' c' :
  matches (Plus Dot) b s c b' s' c' <->
  exists t,
    s = (t ++ s')%list /\ b' = (rev t ++ b)%list /\ c' = c /\ oneLine t = true.
Proof.
  unfold Dot. rewrite matches_Plus_class.
  split; intros (t & ? & ? & ? & H); exists t; repeat split; try done.
  - by apply oneLine_spec.
  - by apply oneLine_spec in H as [? ?].
  - by apply oneLine_spec in H as [? ?].
Qed.

Lemma matches_Eol_end b s c b' s' c' :
  matches Eol b s c b' s' c' <-> s = [] /\ b' = b /\ s' = [] /\ c' = c.
Proof.
  split; [by inversion 1|]. intros (-> & -> & -> & ->). constructor.
Qed.

Lemma matches_httpScheme b s c b' s' c' :
  matches httpScheme b s c b' s' c' <->
  exists scheme,
    (scheme = Str.chars "http" \/ scheme = Str.chars "https")
    /\ s = (scheme ++ s')%list /\ b' = (rev scheme ++ b)%list /\ c' = c.
Proof.
  unfold httpScheme. split.
  - intros H. inversion H as [| |? ? ? ? ? ? ? ? ? ? ? H1 H2| | | | | | | |]; subst.
    apply matches_Lit in H1 as (-> & -> & ->).
    apply matches_Opt in H2 as [H2|(-> & -> & ->)].
    + apply matches_Lit in H2 as (-> & -> & ->).
      exists (Str.chars "https"). split; [by right|done].
    + exists (Str.chars "http"). split; [by left|done].
  - intros (scheme & [->| ->] & -> & -> & ->).
    + eapply matches_Seq; [by apply matches_Lit|].
      apply matches_Opt. by right.
    + eapply matches_Seq; [apply matches_Lit; split; [|done]|].
      * instantiate (1 := (Str.chars "s" ++ s')%list). done.
      * apply matches_Opt. left. by apply matches_Lit.
Qed.

(** an expression anchored at the start is tested at the start only *)
Lemma test_anchored r (str : string) :
  test (Seq Bol r) str = true <->
  exists b' s' c', matches r [] (Str.chars str) None b' s' c'.
Proof.
  rewrite test_true. split.
  - intros (pre & post & b' & s' & c' & Hstr & Hm).
    apply matches_Bol_start in Hm as [-> Hm]. simpl in Hstr.
    rewrite Hstr. eauto.
  - intros (b' & s' & c' & Hm).
    exists [], (Str.chars str), b', s', c'. split; [done|].
    eapply matches_Seq; [constructor|done].
Qed.

Ltac split_seqs H :=
  repeat (let b := fresh "b" in let s := fresh "s" in let c := fresh "c" in
          let H1 := fresh "Hm" in
          apply matches_seqs_cons in H as (b & s & c & H1 & H)).

(** ** Git URLs *)

Lemma http_git_pattern cs :
  (exists b' s' c',
      matches (seqs [httpScheme; Lit "://"; Plus Dot; Lit ".git"; Eol])
              [] cs None b' s' c') <->
  exists scheme t,
    (scheme = Str.chars "http" \/ scheme = Str.chars "https")
    /\ oneLine t = true
    /\ cs = (scheme ++ Str.chars "://" ++ t ++ Str.chars ".git")%list.
Proof.
  split.
  - intros (b' & s' & c' & H). split_seqs H. simpl in H.
    apply matches_httpScheme in Hm as (scheme & Hscheme & -> & -> & ->).
    apply matches_Lit in Hm0 as (-> & -> & ->).
    apply matches_Plus_Dot in Hm1 as (t & -> & -> & -> & Ht).
    apply matches_Lit in Hm2 as (-> & -> & ->).
    apply matches_Eol_end in Hm3 as (-> & _).
    exists scheme, t. by rewrite app_nil_r.
  - intros (scheme & t & Hscheme & Ht & ->).
    do 3 eexists.
    apply matches_seqs_cons. do 3 eexists. split.
    { apply matches_httpScheme. exists scheme. by repeat split. }
    apply matches_seqs_cons. do 3 eexists. split.
    { by apply matches_Lit. }
    apply matches_seqs_cons. do 3 eexists. split.
    { apply matches_Plus_Dot. exists t. by repeat split. }
    apply matches_seqs_cons. do 3 eexists. split.
    { apply matches_Lit. split; [|done]. by rewrite app_nil_r. }
    simpl. apply matches_Eol_end. done.
Qed.

Lemma ssh_git_pattern cs :
  (exists b' s' c',
      matches (seqs [Lit "git@"; Plus Dot; Lit ":"; Plus Dot; Lit ".git"; Eol])
              [] cs None b' s' c') <->
  exists host repo,
    oneLine host = true /\ oneLine repo = true
    /\ cs = (Str.chars "git@" ++ host ++ Str.chars ":" ++ repo
               ++ Str.chars ".git")%list.
Proof.
  split.
  - intros (b' & s' & c' & H). split_seqs H. simpl in H.
    apply matches_Lit in Hm as (-> & -> & ->).
    apply matches_Plus_Dot in Hm0 as (host & -> & -> & -> & Hhost).
    apply matches_Lit in Hm1 as (-> & -> & ->).
    apply matches_Plus_Dot in Hm2 as (repo & -> & -> & -> & Hrepo).
    apply matches_Lit in Hm3 as (-> & -> & ->).
    apply matches_Eol_end in Hm4 as (-> & _).
    exists host, repo. by rewrite app_nil_r.
  - intros (host & repo & Hhost & Hrepo & ->).
    do 3 eexists.
    apply matches_seqs_cons. do 3 eexists. split.
    { by apply matches_Lit. }
    apply matches_seqs_cons. do 3 eexists. split.
    { apply matches_Plus_Dot. exists host. by repeat split. }
    apply matches_seqs_cons. do 3 eexists. split.
    { by apply matches_Lit. }
    apply matches_seqs_cons. do 3 eexists. split.
    { apply matches_Plus_Dot. exists repo. by repeat split. }
    apply matches_seqs_cons. do 3 eexists. split.
    { apply matches_Lit. split; [|done]. by rewrite app_nil_r. }
    simpl. apply matches_Eol_end. done.
Qed.

Lemma http_path_pattern sep cs :
  (exists b' s' c',
      matches (seqs [httpScheme; Lit sep; Plus Dot; Lit "/"; Plus Dot; Eol])
              [] cs None b' s' c') <->
  exists scheme t1 t2,
    (scheme = Str.chars "http" \/ scheme = Str.chars "https")
    /\ oneLine t1 = true /\ oneLine t2 = true
    /\ cs = (scheme ++ Str.chars sep ++ t1 ++ Str.chars "/" ++ t2)%list.
Proof.
  split.
  - intros (b' & s' & c' & H). split_seqs H. simpl in H.
    apply matches_httpScheme in Hm as (scheme & Hscheme & -> & -> & ->).
    apply matches_Lit in Hm0 as (-> & -> & ->).
    apply matches_Plus_Dot in Hm1 as (t1 & -> & -> & -> & Ht1).
    apply matches_Lit in Hm2 as (-> & -> & ->).
    apply matches_Plus_Dot in Hm3 as (t2 & -> & -> & -> & Ht2).
    apply matches_Eol_end in Hm4 as (-> & _).
    exists scheme, t1, t2. by rewrite app_nil_r.
  - intros (scheme & t1 & t2 & Hscheme & Ht1 & Ht2 & ->).
    do 3 eexists.
    apply matches_seqs_cons. do 3 eexists. split.
    { apply matches_httpScheme. exists scheme. by repeat split. }
    apply matches_seqs_cons. do 3 eexists. split.
    { by apply matches_Lit. }
    apply matches_seqs_cons. do 3 eexists. split.
    { apply matches_Plus_Dot. exists t1. by repeat split. }
    apply matches_seqs_cons. do 3 eexists. split.
    { by apply matches_Lit. }
    apply matches_seqs_cons. do 3 eexists. split.
    { apply matches_Plus_Dot. exists t2. split; [|done]. by rewrite app_nil_r. }
    simpl. apply matches_Eol_end. done.
Qed.

Lemma oneLine_app t1 t2 :
  oneLine t1 = true -> forallb (fun c => negb (Str.is_line_terminator c)) t2 = true ->
  oneLine (t2 ++ t1) = true.
Proof.
  intros H1 H2. apply oneLine_spec in H1 as [Hne H1]. apply oneLine_spec.
  split; [by destruct t2, t1|]. rewrite forallb_app. by rewrite H1, H2.
Qed.

Lemma scheme_prefix scheme :
  scheme = Str.chars "http" \/ scheme = Str.chars "https" ->
  httpPrefix (scheme ++ Str.chars "://").
Proof. intros [->| ->]; [by left|by right]. Qed.

Lemma prefix_scheme cs :
  httpPrefix cs ->
  exists scheme,
    (scheme = Str.chars "http" \/ scheme = Str.chars "https")
    /\ cs = (scheme ++ Str.chars "://")%list.
Proof.
  intros [->| ->]; [exists (Str.chars "http")|exists (Str.chars "https")];
    (split; [tauto|done]).
Qed.

(** X8.  validateGitUrl accepts exactly the URLs of three shapes, every
    free part non-empty and on one line: http(s)://TEXT.git,
    git@HOST:REPO.git and http(s)://HOST/REST.  The patterns for github.com
    and gitlab.com accept nothing the last pattern does not. *)
Theorem validateGitUrl_shapes (url : string) :
  validateGitUrl url = true <-> gitUrlShape url.
Proof.
  unfold validateGitUrl, gitUrlPatterns.
  repeat match goal with
         | |- context [seqs (Bol :: ?r :: ?rs)] =>
             change (seqs (Bol :: r :: rs)) with (Seq Bol (seqs (r :: rs)))
         end.
  cbn [existsb]. rewrite !orb_true_iff, !test_anchored.
  rewrite http_git_pattern, ssh_git_pattern, !http_path_pattern.
  split.
  - intros [H|[H|[H|[H|[H|?]]]]]; [| | | | |done].
    + destruct H as (scheme & t & Hscheme & Ht & Hurl).
      apply (shape_http_git url (scheme ++ Str.chars "://") t);
        [by apply scheme_prefix|done|].
      by rewrite Hurl, <- !app_assoc.
    + destruct H as (host & repo & Hhost & Hrepo & Hurl).
      by apply (shape_ssh_git url host repo).
    + destruct H as (scheme & t1 & t2 & Hscheme & Ht1 & Ht2 & Hurl).
      apply (shape_http_path url (scheme ++ Str.chars "://")
                             (Str.chars "github.com/" ++ t1) t2);
        [by apply scheme_prefix|by apply oneLine_app|done|].
      by rewrite Hurl, <- !app_assoc.
    + destruct H as (scheme & t1 & t2 & Hscheme & Ht1 & Ht2 & Hurl).
      apply (shape_http_path url (scheme ++ Str.chars "://")
                             (Str.chars "gitlab.com/" ++ t1) t2);
        [by apply scheme_prefix|by apply oneLine_app|done|].
      by rewrite Hurl, <- !app_assoc.
    + destruct H as (scheme & t1 & t2 & Hscheme & Ht1 & Ht2 & Hurl).
      apply (shape_http_path url (scheme ++ Str.chars "://") t1 t2);
        [by apply scheme_prefix|done|done|].
      by rewrite Hurl, <- !app_assoc.
  - intros [scheme t Hscheme Ht Hurl|host repo Hhost Hrepo Hurl
            |scheme host rest Hscheme Hhost Hrest Hurl].
    + left. apply prefix_scheme in Hscheme as (sch & Hsch & ->).
      exists sch, t. repeat split; [done|done|]. by rewrite Hurl, <- !app_assoc.
    + right; left. by exists host, repo.
    + do 4 right. left. apply prefix_scheme in Hscheme as (sch & Hsch & ->).
      exists sch, host, rest. repeat split; [done|done|done|].
      by rewrite Hurl, <- !app_assoc.
Qed.

(** ** The name filters *)

Lemma chars_app (s1 s2 : string) :
  Str.chars (s1 ++ s2) = (Str.chars s1 ++ Str.chars s2)%list.
Proof. induction s1 as [|c s1 IH]; simpl; [done|]. by rewrite <- IH. Qed.

Lemma matches_alts rs b s c b' s' c' :
  matches (alts rs) b s c b' s' c' ->
  exists r, In r rs /\ matches r b s c b' s' c'.
Proof.
  induction rs as [|r rs IH]; simpl; intros H.
  - by inversion H.
  - destruct rs as [|r' rs]; [exists r; by split; [left|]|].
    inversion H; subst; [exists r; by split; [left|]|].
    destruct IH as (r0 & Hin & Hr0); [done|].
    exists r0. split; [by right|done].
Qed.

(** a pattern that opens with one of a list of lower-case words *)
Lemma verb_pattern_fails words (name : string) first rest :
  forallb (fun w => match Str.chars w with
                    | x :: _ => negb (Str.is_upper x)
                    | [] => false
                    end) words = true ->
  name = String first rest ->
  Str.is_upper first = true ->
  test (seqs [Bol; alts (map Lit words); Cls Str.is_upper]) name = false.
Proof.
  intros Hwords -> Hfirst.
  destruct (test _ _) eqn:E; [|done]. exfalso.
  change (seqs [Bol; alts (map Lit words); Cls Str.is_upper])
    with (Seq Bol (seqs [alts (map Lit words); Cls Str.is_upper])) in E.
  apply test_anchored in E as (b' & s' & c' & H).
  apply matches_seqs_cons in H as (b1 & s1 & c1 & H & _).
  apply matches_alts in H as (r & Hin & H).
  apply in_map_iff in Hin as (w & <- & Hw).
  apply matches_Lit in H as (Hcs & _).
  rewrite forallb_forall in Hwords. specialize (Hwords w Hw).
  destruct (Str.chars w) as [|x cs]; [done|].
  simpl in Hcs. injection Hcs as -> _.
  by rewrite Hfirst in Hwords.
Qed.

(** X6.  The first two utility patterns of isLikelyComponent, the ones that
    begin with a lower-case verb (create, get, use, format, parse, ...),
    match no PascalCase name: on the names the analyzer keeps they reject
    nothing. *)
Theorem pascal_names_pass_verb_patterns (name : string) :
  isPascalCase name = true ->
  Forall (fun pattern => test pattern name = false) (firstn 2 utilPatterns).
Proof.
  intros H. apply isPascalCase_first in H as (first & rest & Hname & Hfirst & _).
  repeat constructor; by eapply verb_pattern_fails.
Qed.

Lemma sameLetters_app a a' t :
  sameLetters (a ++ a') t = true ->
  exists t1 t2,
    t = (t1 ++ t2)%list /\ sameLetters a t1 = true /\ sameLetters a' t2 = true.
Proof.
  revert t. induction a as [|x a IH]; intros t H.
  - by exists [], t.
  - destruct t as [|y t]; [done|]. simpl in H.
    apply andb_true_iff in H as [Hxy H].
    destruct (IH _ H) as (t1 & t2 & -> & H1 & H2).
    exists (y :: t1), t2. simpl. by rewrite Hxy, H1.
Qed.

(** the text ends with the word, in any case of its letters *)
Lemma word_at_end word t b c :
  sameLetters (Str.chars word) t = true ->
  matches (seqs [LitI word; Eol]) b t c (rev t ++ b)%list [] c.
Proof.
  intros H. apply matches_seqs_cons. exists (rev t ++ b)%list, [], c. split.
  - apply matches_LitI. exists t. by rewrite app_nil_r.
  - simpl. constructor.
Qed.

(** the text ends with the word or with its plural *)
Lemma word_or_plural_at_end word t b c :
  sameLetters (Str.chars word) t = true
  \/ sameLetters (Str.chars (word ++ "s")) t = true ->
  matches (seqs [LitI word; Opt (LitI "s"); Eol]) b t c (rev t ++ b)%list [] c.
Proof.
  intros [H|H].
  - apply matches_seqs_cons. exists (rev t ++ b)%list, [], c. split.
    { apply matches_LitI. exists t. by rewrite app_nil_r. }
    apply matches_seqs_cons. exists (rev t ++ b)%list, [], c. split.
    { apply matches_Opt. by right. }
    simpl. constructor.
  - rewrite chars_app in H.
    apply sameLetters_app in H as (t1 & t2 & -> & H1 & H2).
    apply matches_seqs_cons. exists (rev t1 ++ b)%list, t2, c. split.
    { apply matches_LitI. by exists t1. }
    apply matches_seqs_cons. exists (rev (t1 ++ t2) ++ b)%list, [], c. split.
    { apply matches_Opt. left. apply matches_LitI. exists t2.
      rewrite app_nil_r, rev_app_distr, <- app_assoc. done. }
    simpl. constructor.
Qed.

Lemma test_at_end r (stem ending : string) b' c' :
  matches r (rev (Str.chars stem)) (Str.chars ending) None b' [] c' ->
  test r (stem ++ ending) = true.
Proof.
  intros H. apply test_true.
  exists (Str.chars stem), (Str.chars ending), b', [], c'.
  split; [apply chars_app|done].
Qed.

(** a name of letters that ends with the word, for the patterns anchored
    at both ends *)
Lemma letters_then_word (tail : list regex) (stem ending : string) b' c' :
  stem <> "" ->
  forallb Str.is_alpha (Str.chars stem) = true ->
  matches (seqs tail) (rev (Str.chars stem)) (Str.chars ending) None b' [] c' ->
  tail <> [] ->
  test (seqs (Bol :: Plus LetterI :: tail)) (stem ++ ending) = true.
Proof.
  intros Hne Hletters H Htail.
  change (seqs (Bol :: Plus LetterI :: tail))
    with (Seq Bol (seqs (Plus LetterI :: tail))).
  apply test_anchored. exists b', [], c'.
  apply matches_seqs_cons.
  exists (rev (Str.chars stem)), (Str.chars ending), None. split; [|done].
  apply matches_Plus_class. exists (Str.chars stem).
  rewrite chars_app, app_nil_r. repeat split; [|done].
  destruct stem; [done|]. done.
Qed.

(** X7.  isLikelyComponent refuses a PascalCase name, whatever the index
    says, when the name ends with Config; when it ends with Constant,
    Constants, Type, Types or Enum in any case of the letters; or when it is
    made of letters and ends, after at least one letter, with Util, Utils,
    Helper, Manager or Service in any case.  So Prototype is refused. *)
Theorem utility_endings_rejected (stem ending indexContent : string) :
  isPascalCase (stem ++ ending) = true ->
  utilityEnding stem ending = true ->
  isLikelyComponent (stem ++ ending) indexContent = false.
Proof.
  intros _ H. unfold isLikelyComponent.
  match goal with |- (if ?b then _ else _) = _ => destruct b end; [done|].
  assert (Hutil : existsb (fun p => test p (stem ++ ending)) utilPatterns = true);
    [|by rewrite Hutil].
  apply existsb_exists.
  unfold utilityEnding in H. apply orb_true_iff in H as [H|H];
    [apply orb_true_iff in H as [H|H]|].
  - apply String.eqb_eq in H as ->.
    exists (seqs [Lit "Config"; Eol]). split; [simpl; tauto|].
    eapply test_at_end. apply matches_seqs_cons.
    do 3 eexists. split; [by apply matches_Lit|]. simpl. constructor.
  - cbn [existsb] in H. unfold ciEquals in H.
    repeat (apply orb_true_iff in H as [H|H]); try done.
    + exists (seqs [LitI "Constant"; Opt (LitI "s"); Eol]). split; [simpl; tauto|].
      eapply test_at_end, word_or_plural_at_end. by left.
    + exists (seqs [LitI "Constant"; Opt (LitI "s"); Eol]). split; [simpl; tauto|].
      eapply test_at_end, word_or_plural_at_end. by right.
    + exists (seqs [LitI "Type"; Opt (LitI "s"); Eol]). split; [simpl; tauto|].
      eapply test_at_end, word_or_plural_at_end. by left.
    + exists (seqs [LitI "Type"; Opt (LitI "s"); Eol]). split; [simpl; tauto|].
      eapply test_at_end, word_or_plural_at_end. by right.
    + exists (seqs [LitI "Enum"; Eol]). split; [simpl; tauto|].
      by eapply test_at_end, word_at_end.
  - apply andb_true_iff in H as [H Hword].
    apply andb_true_iff in H as [Hne Hletters].
    apply negb_true_iff, String.eqb_neq in Hne.
    cbn [existsb] in Hword. unfold ciEquals in Hword.
    repeat (apply orb_true_iff in Hword as [Hword|Hword]); try done.
    + exists (seqs [Bol; Plus LetterI; LitI "Util"; Opt (LitI "s"); Eol]).
      split; [simpl; tauto|].
      eapply (letters_then_word [LitI "Util"; Opt (LitI "s"); Eol]); try done.
      apply word_or_plural_at_end. by left.
    + exists (seqs [Bol; Plus LetterI; LitI "Util"; Opt (LitI "s"); Eol]).
      split; [simpl; tauto|].
      eapply (letters_then_word [LitI "Util"; Opt (LitI "s"); Eol]); try done.
      apply word_or_plural_at_end. by right.
    + exists (seqs [Bol; Plus LetterI; LitI "Helper"; Eol]).
      split; [simpl; tauto|].
      eapply (letters_then_word [LitI "Helper"; Eol]); try done.
      by apply word_at_end.
    + exists (seqs [Bol; Plus LetterI; LitI "Manager"; Eol]).
      split; [simpl; tauto|].
      eapply (letters_then_word [LitI "Manager"; Eol]); try done.
      by apply word_at_end.
    + exists (seqs [Bol; Plus LetterI; LitI "Service"; Eol]).
      split; [simpl; tauto|].
      eapply (letters_then_word [LitI "Service"; Eol]); try done.
      by apply word_at_end.
Qed.

(** ** Maps in insertion order *)

Section JsMapProperties.
Context {V : Type}.
Implicit Types (m : @JsMap.t V) (k : string) (v : V).

Lemma JsMap_has_keys k m : JsMap.has k m = true <-> In k (JsMap.keys m).
Proof.
  unfold JsMap.has, JsMap.keys. rewrite existsb_exists, in_map_iff.
  split.
  - intros ([k' v] & Hin & H). apply String.eqb_eq in H. by exists (k', v).
  - intros ([k' v] & <- & Hin). exists (k', v). split; [done|apply String.eqb_refl].
Qed.

Lemma JsMap_get_set k' k v m :
  JsMap.get k' (JsMap.set k v m)
  = if String.eqb k k' then Some v else JsMap.get k' m.
Proof.
  unfold JsMap.get. induction m as [|[k0 v0] m IH]; simpl.
  - destruct (String.eqb k k'); done.
  - destruct (String.eqb k0 k) eqn:E0; simpl.
    + apply String.eqb_eq in E0 as ->.
      by destruct (String.eqb k k').
    + destruct (String.eqb k0 k') eqn:E1; [|done].
      apply String.eqb_eq in E1 as ->. rewrite String.eqb_sym in E0.
      by rewrite E0.
Qed.

Lemma JsMap_keys_set k v m :
  JsMap.keys (JsMap.set k v m)
  = if JsMap.has k m then JsMap.keys m else (JsMap.keys m ++ [k])%list.
Proof.
  unfold JsMap.keys, JsMap.has. induction m as [|[k0 v0] m IH]; simpl; [done|].
  destruct (String.eqb k0 k) eqn:E0; simpl; [done|].
  rewrite IH. by destruct (existsb _ m).
Qed.

Lemma JsMap_NoDup_set k v m :
  NoDup (JsMap.keys m) -> NoDup (JsMap.keys (JsMap.set k v m)).
Proof.
  intros H. rewrite JsMap_keys_set.
  destruct (JsMap.has k m) eqn:E; [done|].
  apply NoDup_app. repeat split; [done| |apply NoDup_singleton].
  intros x Hx Hk. apply list_elem_of_singleton in Hk as ->.
  apply list_elem_of_In, JsMap_has_keys in Hx. congruence.
Qed.

Lemma JsMap_fold_NoDup (entries : list (string * V)) m :
  NoDup (JsMap.keys m) ->
  NoDup (JsMap.keys (fold_left (fun m e => JsMap.set e.1 e.2 m) entries m)).
Proof.
  revert m. induction entries as [|e entries IH]; intros m H; simpl; [done|].
  by apply IH, JsMap_NoDup_set.
Qed.

Lemma JsMap_NoDup_of_entries (entries : list (string * V)) :
  NoDup (JsMap.keys (JsMap.of_entries entries)).
Proof. apply JsMap_fold_NoDup. constructor. Qed.

Lemma JsMap_fold_keys (entries : list (string * V)) m k :
  In k (JsMap.keys (fold_left (fun m e => JsMap.set e.1 e.2 m) entries m))
  <-> In k (JsMap.keys m) \/ In k (map fst entries).
Proof.
  revert m. induction entries as [|e entries IH]; intros m; simpl; [tauto|].
  rewrite IH, JsMap_keys_set.
  destruct (JsMap.has e.1 m) eqn:E.
  - apply JsMap_has_keys in E. split; [tauto|].
    intros [H|[<-|H]]; tauto.
  - rewrite in_app_iff. simpl. tauto.
Qed.

Lemma JsMap_keys_of_entries (entries : list (string * V)) k :
  In k (JsMap.keys (JsMap.of_entries entries)) <-> In k (map fst entries).
Proof. unfold JsMap.of_entries. rewrite JsMap_fold_keys. simpl. tauto. Qed.

Lemma JsMap_fold_get (entries : list (string * V)) m k :
  JsMap.get k (fold_left (fun m e => JsMap.set e.1 e.2 m) entries m)
  = match last (filter (fun e => bool_decide (e.1 = k)) entries) with
    | Some e => Some e.2
    | None => JsMap.get k m
    end.
Proof.
  revert m. induction entries as [|e entries IH]; intros m; simpl; [done|].
  rewrite IH, JsMap_get_set. rewrite filter_cons.
  destruct (decide (bool_decide (e.1 = k))) as [Hk|Hk].
  - apply bool_decide_unpack in Hk.
    rewrite last_cons.
    destruct (last (filter _ entries)); [done|].
    by rewrite (proj2 (String.eqb_eq _ _) Hk).
  - destruct (last (filter _ entries)); [done|].
    destruct (String.eqb e.1 k) eqn:E; [|done].
    apply String.eqb_eq in E. exfalso. apply Hk. by apply bool_decide_pack.
Qed.

Lemma JsMap_get_In k v m :
  NoDup (JsMap.keys m) -> (In (k, v) m <-> JsMap.get k m = Some v).
Proof.
  unfold JsMap.get, JsMap.keys. induction m as [|[k0 v0] m IH]; simpl; intros Hnd.
  - split; [done|discriminate].
  - apply NoDup_cons in Hnd as [Hk0 Hnd].
    destruct (String.eqb k0 k) eqn:E; simpl.
    + apply String.eqb_eq in E as ->. split.
      * intros [[= ->]|Hin]; [done|].
        exfalso. apply Hk0. apply list_elem_of_In, in_map_iff. by exists (k, v).
      * intros [= ->]. by left.
    + rewrite <- IH by done. split; [|tauto].
      intros [[= -> ->]|Hin]; [|done]. by rewrite String.eqb_refl in E.
Qed.

End JsMapProperties.

(** ** Comparing reports ([index.ts], compareReports) *)

Section CompareProperties.
Import Types Compare.

Lemma componentMap_get n report :
  JsMap.get n (componentMap report) = lastNamed n report.
Proof.
  unfold componentMap, JsMap.of_entries, lastNamed.
  rewrite JsMap_fold_get. simpl.
  induction (components report) as [|c l IH]; [done|].
  rewrite map_cons, !filter_cons. simpl.
  destruct (decide (bool_decide (name c = n))) as [Hc|Hc].
  - rewrite !last_cons, <- IH. by destruct (last (filter _ (map _ l))).
  - done.
Qed.

Lemma componentMap_keys n report :
  In n (JsMap.keys (componentMap report)) <-> In n (map name (components report)).
Proof.
  unfold componentMap. rewrite JsMap_keys_of_entries, map_map. done.
Qed.

Lemma componentMap_has n report :
  JsMap.has n (componentMap report) = true <-> In n (map name (components report)).
Proof. by rewrite JsMap_has_keys, componentMap_keys. Qed.

Lemma componentMap_In n c report :
  In (n, c) (componentMap report) <-> lastNamed n report = Some c.
Proof.
  rewrite <- componentMap_get. apply JsMap_get_In, JsMap_NoDup_of_entries.
Qed.

Lemma changesOf_same c : changesOf c c = [].
Proof.
  unfold changesOf, differ.
  rewrite !String.eqb_refl, Nat.eqb_refl, !bool_decide_true by done. done.
Qed.

Lemma filter_nil_all {A} (P : A -> bool) (l : list A) :
  (forall x, In x l -> P x = false) -> filter P l = [].
Proof.
  induction l as [|x l IH]; intros H; [done|].
  rewrite filter_cons. rewrite (H x) by (by left). simpl.
  destruct (decide False); [done|]. apply IH. intros y Hy. apply H. by right.
Qed.

(** what the loop over the second map appends *)
Lemma modified_fold (components1 : JsMap.t) entries acc n changes :
  In (n, changes)
     (fold_left
        (fun modified (entry : string * ComponentInfo) =>
           match JsMap.get entry.1 components1 with
           | Some component1 =>
               let changes := changesOf component1 entry.2 in
               if (0 <? length changes)%nat
               then (modified ++ [(entry.1, changes)])%list
               else modified
           | None => modified
           end) entries acc)
  <-> In (n, changes) acc
      \/ exists c1 c2,
           In (n, c2) entries /\ JsMap.get n components1 = Some c1
           /\ changes = changesOf c1 c2 /\ changes <> [].
Proof.
  revert acc. induction entries as [|[k c] entries IH]; intros acc; simpl.
  - split; [tauto|]. intros [H|(c1 & c2 & [] & _)]. done.
  - rewrite IH. clear IH.
    destruct (JsMap.get k components1) as [c1|] eqn:Hget.
    + destruct (0 <? length (changesOf c1 c))%nat eqn:Hlen.
      * rewrite in_app_iff. simpl. split.
        -- intros [[H|[[= <- <-]|[]]]|(c1' & c2 & Hin & H)].
           ++ by left.
           ++ right. exists c1, c. split; [by left|]. split; [done|].
              split; [done|]. apply Nat.ltb_lt in Hlen.
              destruct (changesOf c1 c); [simpl in Hlen; lia|done].
           ++ right. exists c1', c2. split; [by right|done].
        -- intros [H|(c1' & c2 & [[= <- <-]|Hin] & Hg & -> & Hne)].
           ++ by left; left.
           ++ left; right; left. congruence.
           ++ right. by exists c1', c2.
      * split.
        -- intros [H|(c1' & c2 & Hin & H)]; [by left|].
           right. exists c1', c2. split; [by right|done].
        -- intros [H|(c1' & c2 & [[= <- <-]|Hin] & Hg & -> & Hne)]; [by left| |].
           ++ exfalso. rewrite Hget in Hg. injection Hg as <-.
              apply Nat.ltb_ge in Hlen. destruct (changesOf c1 c); [done|].
              simpl in Hlen. lia.
           ++ right. by exists c1', c2.
    + split.
      * intros [H|(c1' & c2 & Hin & H)]; [by left|].
        right. exists c1', c2. split; [by right|done].
      * intros [H|(c1' & c2 & [[= <- <-]|Hin] & Hg & H')]; [by left|congruence|].
        right. by exists c1', c2.
Qed.

(** X21.  A report compared with itself shows no change: no library field
    differs and nothing is added, removed or modified. *)
Theorem compareReports_same report :
  compareReports report report
  = (mkLibraryChanges false false false, mkComponentChanges [] [] []).
Proof.
  unfold compareReports, differ.
  rewrite !String.eqb_refl, bool_decide_true by done. simpl.
  assert (Hnone : filter (fun name => negb (JsMap.has name (componentMap report)))
                         (JsMap.keys (componentMap report)) = []).
  { apply filter_nil_all. intros n Hn.
    apply JsMap_has_keys in Hn. by rewrite Hn. }
  rewrite Hnone. do 2 f_equal.
  match goal with |- ?l = [] => destruct l as [|[n changes] rest] eqn:E end;
    [done|].
  exfalso.
  assert (Hin : In (n, changes) ((n, changes) :: rest)) by (by left).
  rewrite <- E in Hin.
  apply modified_fold in Hin as [[]|(c1 & c2 & Hin & Hget & -> & Hne)].
  apply (JsMap_get_In _ _ _ (JsMap_NoDup_of_entries _)) in Hin.
  unfold componentMap in Hget. rewrite Hget in Hin. injection Hin as ->.
  by rewrite changesOf_same in Hne.
Qed.

(** X22.  compareReports lists as added exactly the component names of
    the second report absent from the first, as removed exactly those of
    the first absent from the second, each name once. *)
Theorem compareReports_added_removed report1 report2 :
  let changes := (compareReports report1 report2).2 in
  (forall n, In n (added changes)
             <-> In n (map name (components report2))
                 /\ ~ In n (map name (components report1)))
  /\ (forall n, In n (removed changes)
                <-> In n (map name (components report1))
                    /\ ~ In n (map name (components report2)))
  /\ NoDup (added changes) /\ NoDup (removed changes).
Proof.
  simpl.
  assert (Hfilter : forall r r' n,
             In n (filter (fun name => negb (JsMap.has name (componentMap r)))
                          (JsMap.keys (componentMap r')))
             <-> In n (map name (components r'))
                 /\ ~ In n (map name (components r))).
  { intros r r' n. rewrite <- list_elem_of_In, list_elem_of_filter, list_elem_of_In.
    rewrite componentMap_keys, <- (componentMap_has n r).
    destruct (JsMap.has n (componentMap r)); simpl; intuition congruence. }
  split; [intros n; apply Hfilter|]. split; [intros n; apply Hfilter|].
  split; apply NoDup_filter, JsMap_NoDup_of_entries.
Qed.

(** X23.  compareReports lists a name as modified, with its changes,
    exactly when both reports have a component of that name and the changes
    between the two (for a name that occurs several times in a report, the
    last component of that name counts) are not empty. *)
Theorem compareReports_modified report1 report2 n changes :
  In (n, changes) (modified (compareReports report1 report2).2)
  <-> exists component1 component2,
        lastNamed n report1 = Some component1
        /\ lastNamed n report2 = Some component2
        /\ changes = changesOf component1 component2
        /\ changes <> [].
Proof.
  simpl. rewrite modified_fold. split.
  - intros [[]|(c1 & c2 & Hin & Hget & H)].
    exists c1, c2. rewrite <- componentMap_get. split; [done|].
    split; [by apply componentMap_In|done].
  - intros (c1 & c2 & H1 & H2 & H). right. exists c1, c2.
    split; [by apply componentMap_In|]. by rewrite componentMap_get.
Qed.

End CompareProperties.

(** ** Configuration *)

Lemma falsy_spec s : falsy s = true <-> s = "".
Proof. unfold falsy. apply String.eqb_eq. Qed.

Lemma falsy_false s : falsy s = false <-> s <> "".
Proof. unfold falsy. apply String.eqb_neq. Qed.

Lemma api_validateConfig_valid config check :
  Api.validateConfig config = Some check ->
  Api.isValid check = true <->
  (exists url, Api.co_repositoryUrl config = Some url /\ url <> "")
  /\ (exists l, Api.co_llm config = Some l
                /\ apiKey l <> "" /\ baseUrl l <> "" /\ model l <> "").
Proof.
  unfold Api.validateConfig.
  destruct (Api.co_llm config) as [l|]; [|done].
  destruct (Api.co_parseStrategy config) as [strategy|]; [|done].
  intros [= <-]. simpl.
  destruct (Api.co_repositoryUrl config) as [url|]; simpl.
  - destruct (falsy url) eqn:Hu, (falsy (apiKey l)) eqn:Hk,
      (falsy (baseUrl l)) eqn:Hb, (falsy (model l)) eqn:Hm; simpl; split;
      try done;
      try (intros [(url' & [= <-] & Hu') (l' & [= <-] & Hk' & Hb' & Hm')];
           apply falsy_false in Hu', Hk', Hb', Hm'; congruence).
    intros _. apply falsy_false in Hu, Hk, Hb, Hm.
    split; [by exists url|by exists l].
  - split; [by destruct (falsy (apiKey l)), (falsy (baseUrl l)), (falsy (model l))|].
    by intros [(url' & [=] & _) _].
Qed.

(** X17.  validateConfig accepts createDefaultConfig(overrides) exactly
    when the overrides hold a non-empty repository URL and an [llm] object
    whose API key, base URL and model are all non-empty, and do not hold
    [parseStrategy] with the value undefined: the spread replaces the
    default [llm] as a whole, so the default base URL and model are not
    kept under an [llm] override.  validateConfig throws exactly when the
    overrides hold [llm] or [parseStrategy] with the value undefined, which
    the spread copies over the default. *)
Theorem default_config_valid overrides :
  ((exists check,
       Api.validateConfig (Api.createDefaultConfig overrides) = Some check
       /\ Api.isValid check = true)
   <-> (exists url, Api.ov_repositoryUrl overrides = Api.Value url /\ url <> "")
       /\ (exists l, Api.ov_llm overrides = Api.Value l
                     /\ apiKey l <> "" /\ baseUrl l <> "" /\ model l <> "")
       /\ Api.ov_parseStrategy overrides <> Api.Undefined)
  /\ (Api.validateConfig (Api.createDefaultConfig overrides) = None
      <-> Api.ov_llm overrides = Api.Undefined
          \/ Api.ov_parseStrategy overrides = Api.Undefined).
Proof.
  split.
  - split.
    + intros (check & Hcheck & Hvalid).
      pose proof (proj1 (api_validateConfig_valid _ _ Hcheck) Hvalid)
        as [(url & Hurl & Hne) (l & Hl & Hk)].
      unfold Api.validateConfig, Api.createDefaultConfig in Hcheck, Hurl, Hl.
      simpl in Hcheck, Hurl, Hl.
      destruct (Api.ov_repositoryUrl overrides) as [| |url'];
        simpl in Hurl; try done; [by injection Hurl as <-|].
      injection Hurl as ->.
      destruct (Api.ov_llm overrides) as [| |l']; simpl in Hl, Hcheck; try done.
      { injection Hl as <-. by destruct Hk as [Hk _]. }
      injection Hl as ->.
      destruct (Api.ov_parseStrategy overrides); simpl in Hcheck; try done;
        (split; [by exists url|]); (split; [by exists l|]); done.
    + intros [(url & Hurl & Hne) [(l & Hl & Hk & Hb & Hm) Hps]].
      assert (Hstrategy : exists strategy,
                 Api.co_parseStrategy (Api.createDefaultConfig overrides)
                 = Some strategy).
      { unfold Api.createDefaultConfig. simpl.
        destruct (Api.ov_parseStrategy overrides); simpl; eauto. done. }
      destruct Hstrategy as [strategy Hstrategy].
      assert (Hllm : Api.co_llm (Api.createDefaultConfig overrides) = Some l).
      { unfold Api.createDefaultConfig. simpl. by rewrite Hl. }
      assert (Hrepo : Api.co_repositoryUrl (Api.createDefaultConfig overrides)
                      = Some url).
      { unfold Api.createDefaultConfig. simpl. by rewrite Hurl. }
      assert (Hsome : exists check,
                 Api.validateConfig (Api.createDefaultConfig overrides)
                 = Some check).
      { unfold Api.validateConfig. rewrite Hllm, Hstrategy. eauto. }
      destruct Hsome as [check Hcheck]. exists check. split; [done|].
      apply (api_validateConfig_valid _ _ Hcheck).
      split; [by exists url|by exists l].
  - unfold Api.validateConfig, Api.createDefaultConfig. simpl.
    destruct (Api.ov_llm overrides), (Api.ov_parseStrategy overrides); simpl;
      split; intros H; try done; try (by left); try (by right);
      by destruct H.
Qed.

Lemma orDefault_jsOr a b d :
  orDefault (jsOr a b) d = default d (firstTruthy [a; b]).
Proof.
  unfold orDefault, jsOr. simpl.
  destruct a as [s|]; [destruct (falsy s) eqn:E|];
    try (by rewrite ?E); destruct b as [t|]; try done; by destruct (falsy t).
Qed.

Lemma orDefault_jsOr3 a b c d :
  orDefault (jsOr (jsOr a b) c) d = default d (firstTruthy [a; b; c]).
Proof.
  unfold orDefault, jsOr. simpl.
  destruct a as [s|]; [destruct (falsy s) eqn:E|]; try (by rewrite ?E);
    (destruct b as [t|]; [destruct (falsy t) eqn:E'|]; try (by rewrite ?E'));
    destruct c as [u|]; try done; by destruct (falsy u).
Qed.

Lemma firstTruthy_truthy candidates s :
  firstTruthy candidates = Some s -> s <> "".
Proof.
  induction candidates as [|[t|] rest IH]; simpl; try done.
  destruct (falsy t) eqn:E; [done|]. intros [= <-]. by apply falsy_false.
Qed.

Lemma orDefault_truthy a d : d <> "" -> orDefault a d <> "".
Proof.
  intros Hd. unfold orDefault. destruct a as [s|]; [|done].
  destruct (falsy s) eqn:E; [done|]. by apply falsy_false.
Qed.

Lemma validateGitUrl_empty : validateGitUrl "" = false.
Proof. reflexivity. Qed.

(** X9.  The command line's validateConfig passes the configuration that
    loadConfig builds exactly when a repository URL of an accepted shape
    comes from the argument or the configuration file, and an API key comes
    from the option, the configuration file or the environment.  Otherwise
    the process exits with status 1, and the only errors printed are the
    three about the URL and the key: the base URL and the model always have
    a value. *)
Theorem cli_config_accepted repositoryUrl options configFile envKey :
  let config := default emptyConfig configFile in
  let url := firstTruthy [repositoryUrl; pc_repositoryUrl config] in
  let key := firstTruthy [Cli.opt_apiKey options;
                          option_map apiKey (pc_llm config); envKey] in
  let accepted :=
    exists u k, url = Some u /\ validateGitUrl u = true /\ key = Some k in
  match Cli.validateConfig
          (Cli.loadConfig repositoryUrl options configFile envKey) with
  | Cli.Passes => accepted
  | Cli.ExitsWith status errors =>
      status = 1%nat
      /\ ~ accepted
      /\ incl errors
              ["缺少仓库URL，请通过参数或配置文件指定"; "仓库URL格式无效";
               "缺少API密钥，请设置环境变量 OPENAI_API_KEY 或通过配置文件指定"]
  end.
Proof.
  intros config url key accepted.
  unfold Cli.validateConfig, Cli.configErrors, Cli.loadConfig. simpl.
  fold config. rewrite orDefault_jsOr, orDefault_jsOr3. fold url key.
  rewrite (proj2 (falsy_false (orDefault _ "https://api.openai.com/v1")))
    by (by apply orDefault_truthy).
  rewrite (proj2 (falsy_false (orDefault _ "gpt-3.5-turbo")))
    by (by apply orDefault_truthy).
  simpl. rewrite !app_nil_r.
  destruct url as [u|] eqn:Hu; simpl.
  - pose proof (firstTruthy_truthy _ _ Hu) as Hne.
    rewrite (proj2 (falsy_false u) Hne). simpl.
    destruct (validateGitUrl u) eqn:Hvalid; simpl.
    + destruct key as [k|] eqn:Hk; simpl.
      * rewrite (proj2 (falsy_false k) (firstTruthy_truthy _ _ Hk)).
        by exists u, k.
      * split; [done|]. split; [by intros (? & ? & _ & _ & ?)|].
        intros e [<-|[]]. simpl. tauto.
    + split; [done|]. split; [intros (? & ? & [= <-] & ? & _); congruence|].
      destruct key as [k|] eqn:Hk; simpl.
      * rewrite (proj2 (falsy_false k) (firstTruthy_truthy _ _ Hk)).
        intros e [<-|[]]. simpl. tauto.
      * intros e [<-|[<-|[]]]; simpl; tauto.
  - split; [done|]. split; [by intros (? & ? & ? & _)|].
    destruct key as [k|] eqn:Hk; simpl.
    + rewrite (proj2 (falsy_false k) (firstTruthy_truthy _ _ Hk)).
      intros e [<-|[<-|[]]]; simpl; tauto.
    + intros e [<-|[<-|[<-|[]]]]; simpl; tauto.
Qed.

(** ** Batches of repositories ([index.ts], batchAnalysis) *)

Section BatchProperties.
Import Batch.

Variable insight : AnalysisConfig -> option Types.AnalysisReport.
Variable repositories : list Repository.
Variable llmConfig : LLMConfig.
Variable options : option Options.

Local Abbreviation mc := (concurrency options).
Local Abbreviation configs := (configurations repositories llmConfig options).
Local Abbreviation cfg := (repositoryConfig llmConfig options).
Local Abbreviation loop := (batchLoop insight repositories llmConfig options).

Lemma omap_id_map {A B} (f : A -> option B) (l : list A) :
  omap id (map f l) = omap f l.
Proof.
  induction l as [|x l IH]; [done|]. simpl.
  destruct (f x); [f_equal|]; exact IH.
Qed.





(** X19.  With [maxConcurrency] 0 and at least one repository the loop of
    batchAnalysis makes no progress: it does not return, whatever the
    budget. *)
Theorem batchAnalysis_zero_concurrency fuel :
  mc = 0%nat -> repositories <> [] ->
  batchAnalysis insight repositories llmConfig options fuel = OutOfFuel.
Proof.
  intros Hmc Hne. unfold batchAnalysis. generalize (@nil Types.AnalysisReport).
  induction fuel as [|fuel IH]; intros results; [done|].
  cbn [batchLoop]. rewrite Hmc.
  assert (Hlen : (length repositories <=? 0)%nat = false).
  { apply Nat.leb_gt. destruct repositories; [done|simpl; lia]. }
  rewrite Hlen. simpl. apply IH.
Qed.

(** X20.  Two different repositories without a name that fall in the same
    batch are given the same output file: repo-I.json in the output
    directory, with I the index at which their batch starts. *)
Theorem batch_output_collision k1 k2 repo1 repo2 dir :
  (0 < mc)%nat ->
  repositories !! k1 = Some repo1 ->
  repositories !! k2 = Some repo2 ->
  k1 <> k2 ->
  (k1 / mc = k2 / mc)%nat ->
  unnamed repo1 = true ->
  unnamed repo2 = true ->
  options ≫= outputDir = Some dir -> dir <> "" ->
  exists config1 config2,
    configs !! k1 = Some config1 /\ configs !! k2 = Some config2
    /\ outputPath config1
       = Some (dir ++ "/repo-" ++ Str.of_nat (k1 / mc * mc) ++ ".json")
    /\ outputPath config2 = outputPath config1.
Proof.
  intros _ H1 H2 _ Hbatch Hname1 Hname2 Hdir Hne.
  unfold configurations. rewrite !list_lookup_imap, H1, H2. simpl.
  do 2 eexists. split; [done|]. split; [done|].
  unfold repositoryConfig. simpl. rewrite Hdir.
  rewrite (proj2 (falsy_false dir) Hne), Hbatch.
  assert (Hor : forall r d, unnamed r = true -> orDefault (repo_name r) d = d).
  { intros r d. unfold unnamed, orDefault. destruct (repo_name r) as [s|]; [|done].
    by intros ->. }
  rewrite !Hor by done. done.
Qed.

End BatchProperties.

(** ** Reports ([reporter.ts]) *)

Section ReporterProperties.
Import Types Reporter.

Lemma checkComponents_errors l :
  forall index acc,
    length (forEachIndexed checkComponent index l acc).1
    = (length acc.1 + length (filter (fun c => falsy (name c)) l))%nat.
Proof.
  induction l as [|c l IH]; intros index acc; simpl; [lia|].
  rewrite IH, filter_cons. unfold checkComponent at 1. simpl.
  destruct (falsy (name c)); simpl; [rewrite length_app; simpl; lia|lia].
Qed.

(** X24.  validateReport accepts a report exactly when the library and
    every component have a non-empty name; the number of errors is the
    number of empty names.  Warnings never make a report invalid. *)
Theorem validateReport_valid report :
  let check := validateReport report in
  (isValid check = true <->
   lib_name (library report) <> ""
   /\ Forall (fun c => name c <> "") (components report))
  /\ length (errors check)
     = ((if falsy (lib_name (library report)) then 1 else 0)
        + length (filter (fun c => falsy (name c)) (components report)))%nat.
Proof.
  simpl. rewrite checkComponents_errors. simpl.
  assert (Hlen : length (if falsy (lib_name (library report))
                         then ["缺少组件库名称"] else [])
                 = if falsy (lib_name (library report)) then 1%nat else 0%nat)
    by (by destruct (falsy _)).
  rewrite Hlen. split; [|done].
  rewrite Nat.eqb_eq, <- falsy_false.
  assert (Hall : length (filter (fun c => falsy (name c)) (components report)) = 0%nat
                 <-> Forall (fun c => name c <> "") (components report)).
  { induction (components report) as [|c l IH]; [by split|].
    rewrite filter_cons, Forall_cons, <- IH, <- falsy_false.
    destruct (falsy (name c)); simpl; intuition (try congruence; try lia). }
  rewrite <- Hall. destruct (falsy (lib_name (library report))); split;
    try lia; intuition (try congruence; try lia).
Qed.

Lemma pushFeature_None c fs : fold_left (pushFeature c) fs None = None.
Proof. by induction fs. Qed.

Lemma included_In f l : Str.included f l = true <-> In f l.
Proof.
  unfold Str.included. rewrite existsb_exists. split.
  - intros (x & Hin & H). apply String.eqb_eq in H. by subst.
  - intros H. exists f. split; [done|apply String.eqb_refl].
Qed.

Lemma pushFeatures c fs :
  forall (m : gmap string (list ComponentInfo)) (g : string -> list ComponentInfo),
    (forall f, m !! f = asEntry (g f)) ->
    (forall f, In f objectPrototypeKeys -> g f = []) ->
    match fold_left (pushFeature c) fs (Some m) with
    | None => exists f, In f fs /\ In f objectPrototypeKeys
    | Some m' =>
        (forall f, In f fs -> ~ In f objectPrototypeKeys)
        /\ forall f,
            m' !! f
            = asEntry (g f ++ map (fun _ => c)
                                  (filter (fun f' => bool_decide (f' = f)) fs))
    end.
Proof.
  induction fs as [|f0 fs IH]; intros m g Hm Hg.
  - simpl. split; [done|]. intros f. by rewrite app_nil_r.
  - cbn [fold_left]. unfold pushFeature at 2. rewrite Hm.
    destruct (g f0) as [|x l] eqn:Hg0; cbn [asEntry].
    + destruct (Str.included f0 objectPrototypeKeys) eqn:Hproto.
      * rewrite pushFeature_None. exists f0. split; [by left|].
        by apply included_In.
      * assert (Hf0 : ~ In f0 objectPrototypeKeys).
        { intros H. apply included_In in H. congruence. }
        specialize (IH (<[f0 := [c]]> m)
                       (fun f => if decide (f = f0) then [c] else g f)).
        destruct (fold_left _ fs _) as [m'|].
        -- destruct IH as [Hfs Hm'].
           { intros f. destruct (decide (f = f0)) as [->|Hne].
             - by rewrite lookup_insert_eq.
             - by rewrite lookup_insert_ne. }
           { intros f Hf. destruct (decide (f = f0)) as [->|Hne]; [done|].
             by apply Hg. }
           split; [intros f [<-|Hf]; [done|by apply Hfs]|].
           intros f. rewrite Hm', filter_cons.
           destruct (decide (f = f0)) as [->|Hne].
           ++ rewrite Hg0. rewrite decide_True by (by apply bool_decide_pack).
              done.
           ++ rewrite decide_False; [done|].
              intros H. apply bool_decide_unpack in H. congruence.
        -- destruct IH as (f & Hf & Hp).
           { intros f. destruct (decide (f = f0)) as [->|Hne].
             - by rewrite lookup_insert_eq.
             - by rewrite lookup_insert_ne. }
           { intros f Hf. destruct (decide (f = f0)) as [->|Hne]; [done|].
             by apply Hg. }
           exists f. split; [by right|done].
    + assert (Hf0 : ~ In f0 objectPrototypeKeys).
      { intros H. apply Hg in H. congruence. }
      specialize (IH (<[f0 := ((x :: l) ++ [c])%list]> m)
                     (fun f => if decide (f = f0) then ((x :: l) ++ [c])%list
                               else g f)).
      destruct (fold_left _ fs _) as [m'|].
      * destruct IH as [Hfs Hm'].
        { intros f. destruct (decide (f = f0)) as [->|Hne].
          - by rewrite lookup_insert_eq.
          - by rewrite lookup_insert_ne. }
        { intros f Hf. destruct (decide (f = f0)) as [->|Hne]; [done|].
          by apply Hg. }
        split; [intros f [<-|Hf]; [done|by apply Hfs]|].
        intros f. rewrite Hm', filter_cons.
        destruct (decide (f = f0)) as [->|Hne].
        -- rewrite Hg0. rewrite decide_True by (by apply bool_decide_pack).
           simpl. by rewrite <- app_assoc.
        -- rewrite decide_False; [done|].
           intros H. apply bool_decide_unpack in H. congruence.
      * destruct IH as (f & Hf & Hp).
        { intros f. destruct (decide (f = f0)) as [->|Hne].
          - by rewrite lookup_insert_eq.
          - by rewrite lookup_insert_ne. }
        { intros f Hf. destruct (decide (f = f0)) as [->|Hne]; [done|].
          by apply Hg. }
        exists f. split; [by right|done].
Qed.

Lemma listing_app f l1 l2 :
  listing f (l1 ++ l2) = (listing f l1 ++ listing f l2)%list.
Proof. unfold listing. by rewrite flat_map_app. Qed.

Lemma listing_none f l :
  (forall c, In c l -> ~ In f (functions c)) -> listing f l = [].
Proof.
  induction l as [|c l IH]; intros H; [done|].
  unfold listing. simpl. fold (listing f l).
  rewrite IH by (intros c' Hc'; apply H; by right).
  rewrite app_nil_r.
  assert (Hnone : filter (fun f' => bool_decide (f' = f)) (functions c) = []).
  { specialize (H c (or_introl eq_refl)).
    induction (functions c) as [|f0 fs IHfs]; [done|].
    rewrite filter_cons. rewrite decide_False.
    - apply IHfs. intros Hin. apply H. by right.
    - intros Hf0. apply bool_decide_unpack in Hf0. apply H. by left. }
  by rewrite Hnone.
Qed.

Lemma indexComponents comps :
  forall idx l0,
    indexesOf l0 idx ->
    match fold_left indexComponent comps (Some idx) with
    | None =>
        exists c f, In c comps /\ In f (functions c) /\ In f objectPrototypeKeys
    | Some idx' => indexesOf (l0 ++ comps)%list idx'
    end.
Proof.
  induction comps as [|c comps IH]; intros idx l0 Hidx.
  - simpl. by rewrite app_nil_r.
  - cbn [fold_left]. unfold indexComponent at 2.
    destruct Hidx as (Hcont & Hnorm & Hfeat & Hname & Hgood).
    pose proof (pushFeatures c (functions c) (byFeature idx)
                  (fun f => listing f l0) Hfeat) as Hpush.
    destruct (fold_left (pushFeature c) (functions c) (Some (byFeature idx)))
      as [m'|].
    + destruct Hpush as [Hfs Hm'].
      { intros f Hf. apply listing_none. intros c' Hc' Hin.
        by apply (Hgood c' f). }
      match goal with
      | |- match fold_left _ _ (Some ?i) with _ => _ end =>
          specialize (IH i (l0 ++ [c])%list)
      end.
      destruct (fold_left indexComponent comps _) as [idx'|].
      * rewrite <- app_assoc in IH. apply IH. unfold indexesOf. simpl.
        split; [|split; [|split; [|split]]].
        -- rewrite filter_app, filter_cons, Hcont.
           destruct (isContainer c); simpl; [done|by rewrite app_nil_r].
        -- rewrite filter_app, filter_cons, Hnorm.
           destruct (isContainer c); simpl; [by rewrite app_nil_r|done].
        -- intros f. rewrite Hm', listing_app. do 2 f_equal.
           unfold listing. simpl. by rewrite app_nil_r.
        -- intros n. unfold assignByName. rewrite filter_app, filter_cons.
           destruct (String.eqb (name c) "__proto__") eqn:Eproto.
           ++ rewrite Hname. destruct (String.eqb n "__proto__") eqn:En; [done|].
              apply String.eqb_eq in Eproto. apply String.eqb_neq in En.
              rewrite decide_False; [by rewrite app_nil_r|].
              intros H. apply bool_decide_unpack in H. congruence.
           ++ destruct (decide (name c = n)) as [<-|Hne].
              ** rewrite lookup_insert_eq, Eproto.
                 rewrite decide_True by (by apply bool_decide_pack).
                 by rewrite filter_nil, last_snoc.
              ** rewrite lookup_insert_ne by done. rewrite Hname.
                 rewrite decide_False; [by rewrite app_nil_r|].
                 intros H. by apply bool_decide_unpack in H.
        -- intros c' f Hc' Hf. apply in_app_iff in Hc' as [Hc'|[<-|[]]].
           ++ by apply (Hgood c' f).
           ++ by apply Hfs.
      * destruct IH as (c' & f & Hc' & H).
        { unfold indexesOf. simpl.
          split; [|split; [|split; [|split]]].
          -- rewrite filter_app, filter_cons, Hcont.
             destruct (isContainer c); simpl; [done|by rewrite app_nil_r].
          -- rewrite filter_app, filter_cons, Hnorm.
             destruct (isContainer c); simpl; [by rewrite app_nil_r|done].
          -- intros f. rewrite Hm', listing_app. do 2 f_equal.
             unfold listing. simpl. by rewrite app_nil_r.
          -- intros n. unfold assignByName. rewrite filter_app, filter_cons.
             destruct (String.eqb (name c) "__proto__") eqn:Eproto.
             ++ rewrite Hname. destruct (String.eqb n "__proto__") eqn:En; [done|].
                apply String.eqb_eq in Eproto. apply String.eqb_neq in En.
                rewrite decide_False; [by rewrite app_nil_r|].
                intros H. apply bool_decide_unpack in H. congruence.
             ++ destruct (decide (name c = n)) as [<-|Hne].
                ** rewrite lookup_insert_eq, Eproto.
                   rewrite decide_True by (by apply bool_decide_pack).
                   by rewrite filter_nil, last_snoc.
                ** rewrite lookup_insert_ne by done. rewrite Hname.
                   rewrite decide_False; [by rewrite app_nil_r|].
                   intros H. by apply bool_decide_unpack in H.
          -- intros c'' f Hc'' Hf. apply in_app_iff in Hc'' as [Hc''|[<-|[]]].
             ++ by apply (Hgood c'' f).
             ++ by apply Hfs. }
        exists c', f. split; [by right|done].
    + destruct Hpush as (f & Hf & Hp).
      { intros f Hf. apply listing_none. intros c' Hc' Hin.
        by apply (Hgood c' f). }
      assert (Hnone : forall l, fold_left indexComponent l None = None)
        by (by induction l).
      rewrite Hnone. exists c, f. split; [by left|done].
Qed.

Lemma indexesOf_empty : indexesOf [] (mkComponentIndex ∅ [] [] ∅).
Proof.
  unfold indexesOf. simpl. split; [done|]. split; [done|].
  split; [intros f; apply lookup_empty|]. split; [|done].
  intros n. rewrite lookup_empty. by destruct (String.eqb n "__proto__").
Qed.

(** X25.  generateComponentIndex throws exactly when some component lists
    a feature whose name is a member of Object.prototype (constructor,
    toString, __proto__, ...). *)
Theorem generateComponentIndex_throws components :
  generateComponentIndex components = None <->
  exists c f,
    In c components /\ In f (functions c) /\ In f objectPrototypeKeys.
Proof.
  unfold generateComponentIndex.
  pose proof (indexComponents components (mkComponentIndex ∅ [] [] ∅) []) as H.
  destruct (fold_left indexComponent components _) as [idx|].
  - split; [done|]. intros (c & f & Hc & Hf & Hp).
    destruct H as (_ & _ & _ & _ & Hgood); [apply indexesOf_empty|].
    exfalso. by apply (Hgood c f).
  - split; [|done]. intros _. apply H, indexesOf_empty.
Qed.

(** X26.  When generateComponentIndex returns: the container and the normal
    lists partition the components in order; a feature maps to the
    components that list it, in order, and has no entry when none does; a
    name maps to the last component of that name, and [__proto__] never
    becomes an entry. *)
Theorem generateComponentIndex_contents components idx :
  generateComponentIndex components = Some idx ->
  byType_container idx = filter (fun c => isContainer c) components
  /\ byType_normal idx = filter (fun c => negb (isContainer c)) components
  /\ (forall f, byFeature idx !! f = asEntry (listing f components))
  /\ (forall n, byName idx !! n
                = if String.eqb n "__proto__" then None
                  else last (filter (fun c => bool_decide (name c = n))
                                    components)).
Proof.
  unfold generateComponentIndex. intros Hidx.
  pose proof (indexComponents components (mkComponentIndex ∅ [] [] ∅) []) as H.
  rewrite Hidx in H. simpl in H.
  by destruct H as (H1 & H2 & H3 & H4 & _); [apply indexesOf_empty|].
Qed.

End ReporterProperties.

(** ** File resolution ([cli.ts], resolveFilePath) *)

Section ResolutionProperties.

Variable path_dirname : string -> string.
Variable path_resolve : string -> string -> string.
Variable allFiles : list FileInfo.

Lemma firstExisting_spec base exts :
  match firstExisting base exts allFiles with
  | Some p =>
      exists before ext after,
        exts = (before ++ ext :: after)%list
        /\ p = base ++ ext
        /\ scanned allFiles p
        /\ Forall (fun e => ~ scanned allFiles (base ++ e)) before
  | None => Forall (fun e => ~ scanned allFiles (base ++ e)) exts
  end.
Proof.
  induction exts as [|e exts IH]; simpl; [constructor|].
  destruct (findByPath (base ++ e) allFiles) as [f|] eqn:Hfind.
  - exists [], e, exts. unfold findByPath in Hfind.
    apply find_some in Hfind as [Hin Hpath]. apply String.eqb_eq in Hpath.
    repeat split; [done| |constructor]. by exists f.
  - assert (Hno : ~ scanned allFiles (base ++ e)).
    { intros (f & Hin & Hpath). unfold findByPath in Hfind.
      apply (find_none _ _ Hfind) in Hin. apply String.eqb_neq in Hin. done. }
    destruct (firstExisting base exts allFiles) as [p|].
    + destruct IH as (before & ext & after & -> & -> & Hs & Hb).
      exists (e :: before), ext, after. repeat split; [done|by constructor].
    + by constructor.
Qed.

(** X13.  resolveFilePath returns the first of its candidates that is the
    path of a scanned file, and null exactly when none is.  The candidates
    are the resolved path followed by .ts, .tsx, .js, .jsx, /index.ts,
    /index.tsx, /index.js and /index.jsx, in this order: what it returns
    always carries one of these suffixes after the path as written. *)
Theorem resolveFilePath_first relativePath indexPath :
  let absolutePath :=
    path_resolve (path_dirname indexPath)
                 (if Str.startsWith "./" relativePath
                  then Str.drop 2 relativePath else relativePath) in
  match resolveFilePath path_dirname path_resolve relativePath indexPath allFiles with
  | Some p =>
      exists before ext after,
        possibleExtensions = (before ++ ext :: after)%list
        /\ p = absolutePath ++ ext
        /\ scanned allFiles p
        /\ Forall (fun e => ~ scanned allFiles (absolutePath ++ e)) before
  | None =>
      Forall (fun e => ~ scanned allFiles (absolutePath ++ e)) possibleExtensions
  end.
Proof. intros absolutePath. apply firstExisting_spec. Qed.

End ResolutionProperties.

(** ** What a run without interrupt returns *)

Section RunProperties.

Variable path_dirname : string -> string.
Variable path_resolve : string -> string -> string.
Variable path_basename : string -> string.
Variable Analysis : Type.
Variable analyzeComponent : string -> string -> list string -> AnalyzerOutcome Analysis.
Variable relativeToCwd : string -> string.
Variable componentFiles : list Component.

Local Abbreviation task :=
  (processTask path_dirname path_resolve path_basename Analysis
               analyzeComponent relativeToCwd).
Local Abbreviation loop :=
  (batchLoop path_dirname path_resolve path_basename Analysis
             analyzeComponent relativeToCwd).
Local Abbreviation analysis :=
  (analysisOf path_dirname path_resolve path_basename Analysis
              analyzeComponent relativeToCwd componentFiles).

Hypothesis never_aborts : neverAborts Analysis analyzeComponent.

Lemma task_analysis c :
  task c componentFiles = Returned (TaskValue Analysis (analysis c)).
Proof.
  unfold processTask, analysisOf.
  destruct (context_total path_dirname path_resolve path_basename
                          componentFiles c 3) as [ctx ->].
  destruct (analyzeComponent _ _ _) as [r|e] eqn:E; [done|].
  destruct (String.eqb e "AbortError") eqn:Ee; [|done].
  apply String.eqb_eq in Ee as ->. by apply never_aborts in E.
Qed.

Lemma batch_analysis batch :
  exists tasks,
    runAll (map (fun c => task c componentFiles) batch) = Returned tasks
    /\ promiseAll Analysis tasks = inl (map analysis batch).
Proof.
  induction batch as [|c batch (tasks & Hrun & Hall)]; simpl; [by exists []|].
  rewrite task_analysis, Hrun. eexists. split; [done|]. simpl. by rewrite Hall.
Qed.

Lemma batchLoop_analysis toAnalyze batchSize totalBatches fuel :
  (0 < batchSize)%nat ->
  forall i components log,
    (length toAnalyze <= fuel + i)%nat ->
    exists log',
      loop (S fuel) None componentFiles toAnalyze batchSize totalBatches
           i false components log
      = Returned (Returns (components ++ omap analysis (skipn i toAnalyze))%list,
                  log').
Proof.
  intros Hsize.
  induction fuel as [|fuel IH]; intros i components log Hfuel.
  - simpl. replace (length toAnalyze <=? i)%nat with true
      by (symmetry; apply Nat.leb_le; lia).
    rewrite skipn_all2 by lia. simpl. rewrite app_nil_r. eauto.
  - remember (S fuel) as fuel1 eqn:Hfuel1. cbn [batchLoop]. subst fuel1.
    destruct (length toAnalyze <=? i)%nat eqn:Hend.
    { apply Nat.leb_le in Hend. rewrite skipn_all2 by lia.
      simpl. rewrite app_nil_r. eauto. }
    rewrite bool_decide_false by done.
    destruct (batch_analysis (firstn batchSize (skipn i toAnalyze)))
      as (tasks & -> & ->).
    edestruct (IH (i + batchSize)%nat) as [log' ->]; [lia|].
    eexists. do 2 f_equal. rewrite <- app_assoc. f_equal.
    unfold validResultsOf. rewrite omap_id_map.
    rewrite <- (firstn_skipn batchSize (skipn i toAnalyze)) at 2.
    rewrite omap_app. f_equal.
    change (skipn ?n ?l) with (drop n l). rewrite drop_drop. done.
Qed.

(** X14.  When the analyzer of a component never throws an AbortError and
    no interrupt arrives, analyzeComponents returns, in the order of the
    candidates, the analyses of the first hundred candidates, those whose
    analysis throws left out, whatever the batches are. *)
Theorem analyzeComponents_results :
  exists log,
    analyzeComponents path_dirname path_resolve path_basename Analysis
                      analyzeComponent relativeToCwd None componentFiles
    = Returned (Returns (omap analysis (firstn maxComponents componentFiles)), log).
Proof.
  unfold analyzeComponents.
  destruct (length componentFiles =? 0)%nat eqn:Hn.
  - apply Nat.eqb_eq in Hn. destruct componentFiles; [|done]. simpl. eauto.
  - edestruct (batchLoop_analysis (firstn maxComponents componentFiles))
      as [log' ->]; [apply calculateOptimalBatchSize_pos|..]; [|eauto].
    simpl. lia.
Qed.

End RunProperties.

(** ** The dependency tree *)

Section TreeProperties.

Variable path_dirname : string -> string.
Variable path_resolve : string -> string -> string.
Variable path_basename : string -> string.
Variable allComponentFiles : list Component.
Variable maxDepth : nat.

Local Abbreviation collect :=
  (collectDependencies path_dirname path_resolve path_basename).

Lemma shaped_children depth children :
  fold_right (fun child rest => shapedAt depth child /\ rest) True children
  <-> Forall (shapedAt depth) children.
Proof.
  induction children as [|c l IH]; simpl; [by split|].
  rewrite Forall_cons, IH. done.
Qed.

Lemma walked_refl depth w : walked maxDepth depth w [] w.
Proof.
  unfold walked. simpl. rewrite !app_nil_r.
  repeat split; try done.
Qed.

(** a call of the walk returns, and leaves behind what [walked] says *)
Lemma collect_walked fuel :
  forall file known depth w,
    (maxDepth <= fuel + depth)%nat ->
    exists children w',
      collect (S fuel) allComponentFiles maxDepth file known depth w
      = Returned (children, w')
      /\ walked maxDepth depth w children w'
      /\ (length children <= 5)%nat
      /\ (length (flat_map preorder children) <= forestBound (maxDepth - depth))%nat
      /\ (forall p, In p (map fst (flat_map preorder children)) ->
                    p <> path file).
Proof.
  assert (Hnone : forall file depth w,
             walked maxDepth depth w [] w
             /\ (length (@nil DependencyNode) <= 5)%nat
             /\ (length (flat_map preorder []) <= forestBound (maxDepth - depth))%nat
             /\ (forall p, In p (map fst (flat_map preorder [])) -> p <> path file)).
  { intros file depth w. split; [apply walked_refl|]. simpl.
    split; [lia|]. split; [lia|done]. }
  induction fuel as [|fuel IH]; intros file known depth w Hfuel.
  - simpl. replace (maxDepth <=? depth)%nat with true
      by (symmetry; apply Nat.leb_le; lia).
    simpl. exists [], w. split; [done|apply Hnone].
  - remember (S fuel) as fuel1 eqn:Hfuel1. cbn [collectDependencies].
    subst fuel1.
    destruct (maxDepth <=? depth)%nat eqn:Hdepth.
    { simpl. exists [], w. split; [done|apply Hnone]. }
    apply Nat.leb_gt in Hdepth.
    destruct (bool_decide (path file ∈ w_processedPaths w)).
    { simpl. exists [], w. split; [done|apply Hnone]. }
    cbn [orb].
    set (w0 := mkWalk _ _ _ ({[path file]} ∪ w_processedPaths w)).
    match goal with |- context [fold_left ?f _ _] => set (step := f) end.
    assert (Hstep : forall children w1 depPath,
               walked maxDepth depth w0 children w1 ->
               exists children' w',
                 step (Returned (children, w1)) depPath = Returned (children', w')
                 /\ walked maxDepth depth w0 children' w'
                 /\ (length children' <= S (length children))%nat).
    { intros children w1 depPath Hw1. unfold step.
      destruct (find _ allComponentFiles) as [c|] eqn:Hfind.
      2:{ exists children, w1. split; [done|]. split; [done|lia]. }
      destruct (bool_decide (depPath ∈ w_processedPaths w1)) eqn:Hproc.
      { exists children, w1. split; [done|]. split; [done|lia]. }
      apply bool_decide_eq_false in Hproc.
      destruct (IH (c_file c) (c_dependencies c) (depth + 1)%nat
                   (recordDependency path_basename c depPath depth w1))
        as (gc & w2 & -> & Hgc & Hlen & Hgcb & _); [lia|].
      eexists _, w2. split; [done|]. split; [|rewrite length_app; simpl; lia].
      destruct Hw1 as (Hp1 & Hd1 & Hs1 & Hsub1 & Hfresh1 & Hbound1).
      destruct Hgc as (Hp2 & Hd2 & Hs2 & Hsub2 & Hfresh2 & _).
      unfold recordDependency in Hp2, Hd2, Hsub2, Hfresh2.
      cbn [w_dependencyPaths w_dependencyDepths w_processedPaths] in *.
      unfold walked.
      rewrite flat_map_app, !map_app. cbn [flat_map preorder map fst snd].
      rewrite !app_nil_r.
      rewrite Hp2, Hd2, Hp1, Hd1, <- !app_assoc. cbn [app].
      split; [done|]. split; [done|].
      split.
      { apply Forall_app. split; [done|]. constructor; [|done].
        cbn [shapedAt]. split; [lia|]. split; [done|].
        apply shaped_children. by rewrite Nat.add_1_r in Hs2. }
      split; [set_solver|].
      split.
      { intros p Hp. rewrite in_app_iff in Hp. destruct Hp as [Hp|[<-|Hp]].
        - by apply Hfresh1.
        - set_solver.
        - apply Hfresh2 in Hp. set_solver. }
      rewrite !length_app. cbn [length].
      replace (maxDepth - (depth + 1))%nat with (maxDepth - S depth)%nat
        in Hgcb by lia.
      nia. }
    clearbody step.
    assert (Hfold : forall deps children w1,
               walked maxDepth depth w0 children w1 ->
               exists children' w',
                 fold_left step deps (Returned (children, w1))
                 = Returned (children', w')
                 /\ walked maxDepth depth w0 children' w'
                 /\ (length children' <= length children + length deps)%nat).
    { induction deps as [|depPath deps IHdeps]; intros children w1 Hw1.
      - exists children, w1. split; [done|]. split; [done|simpl; lia].
      - cbn [fold_left].
        destruct (Hstep children w1 depPath Hw1) as (ch1 & w1' & -> & Hw1' & Hl1).
        destruct (IHdeps ch1 w1' Hw1') as (ch2 & w2 & -> & Hw2 & Hl2).
        exists ch2, w2. split; [done|]. split; [done|simpl; lia]. }
    destruct (Hfold (firstn 5 (dependenciesOf path_dirname path_resolve
                                              file known allComponentFiles))
                    [] w0 (walked_refl depth w0))
      as (children & w' & -> & Hw' & Hlen).
    simpl in Hlen. rewrite length_take in Hlen.
    exists children, w'. split; [done|].
    destruct Hw' as (Hp & Hd & Hs & Hsub & Hfresh & Hbound).
    subst w0. cbn [w_dependencyPaths w_dependencyDepths w_processedPaths] in *.
    split.
    { unfold walked. split; [done|]. split; [done|]. split; [done|].
      split; [set_solver|]. split; [|done].
      intros p Hin. apply Hfresh in Hin. set_solver. }
    split; [lia|]. split.
    + replace (maxDepth - depth)%nat with (S (maxDepth - S depth)) by lia.
      cbn [forestBound]. nia.
    + intros p Hin. apply Hfresh in Hin. set_solver.
Qed.

(** X15.  buildDependencyContext always returns; the paths and the depths
    it lists are those of the nodes of the dependency tree in preorder,
    the root left out; the root has at most five children, and below it
    every node has at most five children, each one level deeper than its
    parent. *)
Theorem dependency_tree_in_preorder component :
  exists ctx,
    buildDependencyContext path_dirname path_resolve path_basename
                           component allComponentFiles maxDepth
    = Returned ctx
    /\ let children := (dependencyTree ctx).2 in
       dependencyPaths ctx = map fst (flat_map preorder children)
       /\ dependencyDepths ctx = map snd (flat_map preorder children)
       /\ (length children <= 5)%nat
       /\ Forall (shapedAt 1) children.
Proof.
  unfold buildDependencyContext.
  destruct (collect_walked maxDepth (c_file component) (c_dependencies component)
                           0%nat (mkWalk [] [] [] ∅))
    as (children & w & -> & (Hp & Hd & Hs & _) & Hlen & _); [lia|].
  eexists. split; [done|]. simpl. done.
Qed.

(** X16.  The context of a component lists at most 5 + 25 + ... + 5^maxDepth
    dependency paths (155 for the depth of 3 that the analyzer uses), and
    never the path of the component's own file. *)
Theorem dependency_paths_bounded component :
  exists ctx,
    buildDependencyContext path_dirname path_resolve path_basename
                           component allComponentFiles maxDepth
    = Returned ctx
    /\ (length (dependencyPaths ctx) <= forestBound maxDepth)%nat
    /\ ~ In (path (c_file component)) (dependencyPaths ctx).
Proof.
  unfold buildDependencyContext.
  destruct (collect_walked maxDepth (c_file component) (c_dependencies component)
                           0%nat (mkWalk [] [] [] ∅))
    as (children & w & -> & (Hp & _) & _ & Hbound & Hself); [lia|].
  eexists. split; [done|]. simpl in *. rewrite Hp. split.
  - rewrite length_map. by rewrite Nat.sub_0_r in Hbound.
  - intros Hin. by apply Hself in Hin.
Qed.

End TreeProperties.

(** ** Identification through the index ([cli.ts], identifyComponentsFromIndex) *)

Section IdentificationProperties.

Variable parse : string -> option (list Node).
Variable path_dirname : string -> string.
Variable path_resolve : string -> string -> string.
Variable regexExportNames : string -> list string.
Variable findComponentFile : string -> list FileInfo -> option FileInfo.
Variable path_join : list string -> string.
Variable readFile : string -> option string.
Variable fallbackToTraditionalIdentification : list FileInfo -> list Identified.
Variable configEntryPath : option string.
Variable allFiles : list FileInfo.

Local Abbreviation trace :=
  (traceComponentImplementation parse path_dirname path_resolve).
Local Abbreviation identify :=
  (identifyComponentsFromIndex parse path_dirname path_resolve regexExportNames findComponentFile
                               path_join readFile
                               fallbackToTraditionalIdentification
                               configEntryPath).

(** what the tracer answers is a scanned file, among the files it reports *)
Lemma trace_result_scanned name p r :
  trace name p allFiles = Returned (Some r) ->
  findByPath (path (tr_file r)) allFiles = Some (tr_file r)
  /\ In (tr_file r) (tr_dependencies r).
Proof.
  unfold traceComponentImplementation.
  destruct (traceImplementation _ _ _ _ _ _ _ _ _) as [|[[f|] st]] eqn:Hrun;
    try done.
  intros [= <-]. simpl.
  apply trace_returns_collected in Hrun as (Hidx & _ & Hin); [|constructor].
  specialize (Hin f eq_refl). split; [|done].
  unfold indexed in Hidx. rewrite Forall_forall in Hidx.
  apply Hidx. by apply list_elem_of_In.
Qed.

Lemma traced_entries (entries : list (string * string)) :
  forall traced,
    runAll (map (fun entry => trace entry.1 entry.2 allFiles) entries)
    = Returned traced ->
    let result :=
      omap (fun pair : (string * string) * option TraceResult =>
              match pair.2 with
              | Some componentInfo =>
                  Some (mkIdentified pair.1.1 (tr_file componentInfo)
                                     (tr_dependencies componentInfo))
              | None => None
              end) (zip entries traced) in
    map id_name result `sublist_of` map fst entries
    /\ Forall (fun x =>
                 In (id_name x) (map fst entries)
                 /\ findByPath (path (id_file x)) allFiles = Some (id_file x)
                 /\ In (id_file x) (id_dependencies x)) result.
Proof.
  induction entries as [|[n p] entries IH]; intros traced; simpl.
  - intros [= <-]. simpl. split; [constructor|constructor].
  - destruct (trace n p allFiles) as [|r] eqn:Hr; [done|].
    destruct (runAll _) as [|rs] eqn:Hrs; [done|].
    intros [= <-]. simpl.
    destruct (IH rs eq_refl) as [Hsub Hall].
    destruct r as [r|]; simpl.
    + split; [by apply sublist_skip|].
      constructor.
      * simpl. split; [by left|]. by eapply trace_result_scanned.
      * eapply Forall_impl; [exact Hall|]. simpl. intros x (? & ? & ?).
        split; [by right|done].
    + split; [by apply sublist_cons|].
      eapply Forall_impl; [exact Hall|]. simpl. intros x (? & ? & ?).
      split; [by right|done].
Qed.

Lemma traceComponent_returns name p :
  exists r, trace name p allFiles = Returned r.
Proof.
  unfold traceComponentImplementation, traceFuel.
  destruct (trace_total parse path_dirname path_resolve allFiles
                        11 name p 0%nat (mkTraceState ∅ [])) as [[r st] ->];
    [lia|].
  destruct r; eauto.
Qed.

(** X12.  When src/index.ts is read and parsed, and its wildcard re-exports
    nest within the budget (those of a file that Babel rejects being the
    ones the catch branch finds in the text of the file),
    identifyComponentsFromIndex returns either the
    result of the fallback or components with distinct names, each name
    PascalCase and a likely component of the index, each file a scanned
    file that is among the dependencies reported with it. *)
Theorem identified_from_index fuel projectDir indexContent ast :
  readFile (indexPathOf path_join configEntryPath projectDir) = Some indexContent ->
  parse indexContent = Some ast ->
  expandsWithin parse path_dirname path_resolve fuel allFiles indexContent
                (indexPathOf path_join configEntryPath projectDir) ->
  exists result,
    identify fuel projectDir allFiles = Returned result
    /\ (result = fallbackToTraditionalIdentification allFiles
        \/ (NoDup (map id_name result)
            /\ Forall (fun x =>
                         isPascalCase (id_name x) = true
                         /\ isLikelyComponent (id_name x) indexContent = true
                         /\ findByPath (path (id_file x)) allFiles = Some (id_file x)
                         /\ In (id_file x) (id_dependencies x)) result)).
Proof.
  intros Hread Hparse Hexp.
  unfold identifyComponentsFromIndex. rewrite Hread.
  destruct (expandsWithin_returns parse path_dirname path_resolve regexExportNames findComponentFile
              allFiles fuel _ _ Hexp) as [m Hm].
  rewrite Hm.
  destruct (bool_decide (m = ∅)); [eexists; split; [done|by left]|].
  unfold traceAll.
  destruct (runAll_total (fun entry : string * string =>
                            trace entry.1 entry.2 allFiles) (map_to_list m))
    as [traced Htraced].
  { apply Forall_forall. intros entry _. apply traceComponent_returns. }
  rewrite Htraced. eexists. split; [done|]. right.
  destruct (traced_entries _ _ Htraced) as [Hsub Hall].
  split.
  - eapply sublist_NoDup; [|exact Hsub]. apply NoDup_fst_map_to_list.
  - eapply Forall_impl; [exact Hall|]. simpl. intros x (Hname & Hfile & Hdeps).
    apply in_map_iff in Hname as ([n p] & Hn & Hin). simpl in Hn. subst n.
    apply list_elem_of_In, elem_of_map_to_list in Hin.
    apply (extract_returned parse path_dirname path_resolve regexExportNames findComponentFile
                            allFiles _ _ _ _ _ Hparse) in Hm
        as (fuel' & results & _ & _ & ->).
    apply map_lookup_filter_Some in Hin as [_ Hkeep].
    unfold keepComponent in Hkeep. simpl in Hkeep.
    apply andb_true_iff in Hkeep as [? ?]. done.
Qed.

End IdentificationProperties.

(** ** The pipeline and the command *)

Section PipelineProperties.
Import Pipeline.

Variable parse : string -> option (list Node).
Variable path_dirname : string -> string.
Variable path_resolve : string -> string -> string.
Variable path_basename : string -> string.
Variable regexExportNames : string -> list string.
Variable findComponentFile : string -> list FileInfo -> option FileInfo.
Variable Analysis : Type.
Variable analyzeComponent : string -> string -> list string -> AnalyzerOutcome Analysis.
Variable relativeToCwd : string -> string.
Variable path_join : list string -> string.
Variable readFile : string -> option string.
Variable fallbackToTraditionalIdentification : list FileInfo -> list Identified.
Variable scanDirectory : string -> option string -> option (list FileInfo).
Variable sortByName : list Component -> list Component.
Variable interrupt : option nat.
Variable Report : Type.
Variable cloneRepository : string -> option string.
Variable analyzeLibraryInfo : string -> option Types.LibraryInfo.

Variable generateReport :
  Types.LibraryInfo -> list (ComponentInfo Analysis) -> AnalysisConfig -> Report.
Variable saveReport : Report -> string -> option string.

Local Abbreviation run_analyze :=
  (analyze parse path_dirname path_resolve path_basename regexExportNames
           findComponentFile Analysis analyzeComponent relativeToCwd
           path_join readFile fallbackToTraditionalIdentification
           scanDirectory sortByName interrupt Report cloneRepository
           analyzeLibraryInfo generateReport saveReport).
Local Abbreviation run_scan :=
  (scan parse path_dirname path_resolve regexExportNames findComponentFile
        path_join readFile fallbackToTraditionalIdentification
        scanDirectory sortByName).

Lemma cleanup_last projectDir steps :
  projectDir <> "" ->
  last (cleanup projectDir steps) = Some (CleanedUp projectDir).
Proof.
  intros Hne. unfold cleanup. rewrite (proj2 (falsy_false _) Hne).
  apply last_snoc.
Qed.

Lemma analyzeComponents_returns componentFiles :
  exists outcome log,
    analyzeComponents path_dirname path_resolve path_basename Analysis
                      analyzeComponent relativeToCwd interrupt componentFiles
    = Returned (outcome, log)
    /\ (forall code, outcome = Exits code -> code = 130%nat /\ interrupt <> None).
Proof.
  unfold analyzeComponents.
  destruct (length componentFiles =? 0)%nat.
  { eexists _, _. split; [done|]. by intros code [=]. }
  set (analysed := firstn maxComponents componentFiles).
  set (batchSize := calculateOptimalBatchSize (length analysed)).
  destruct (batchLoop_results path_dirname path_resolve path_basename Analysis
              analyzeComponent relativeToCwd componentFiles
              interrupt analysed batchSize
              ((length analysed + batchSize - 1) / batchSize)%nat
              (length analysed)
              (calculateOptimalBatchSize_pos _) 0%nat false []
              ((if (maxComponents <? length componentFiles)%nat
                then [NoticeTooMany maxComponents]
                else []) ++ [LogBatchPlan batchSize
                               ((length analysed + batchSize - 1) / batchSize)])%list)
    as (o & extra & -> & _ & _ & Hexit & _); [lia|done|].
  eexists _, _. split; [done|]. exact Hexit.
Qed.

(** X11.  ComponentAnalyzer.analyze ends whenever its scan of the
    components does; the scan is the one step that need not return (the
    resolver of the export graph has no guard against wildcard cycles).
    When the clone fails analyze rejects and nothing is done.  When it
    resolves or rejects after the clone, its first step is the clone and,
    the path of the clone not being empty, its last step removes the clone.
    When the run is interrupted the process exits with status 130 and the
    clone is left behind: the clone is the only step. *)
Theorem analyze_cleans_up fuel config :
  match analyze parse path_dirname path_resolve path_basename regexExportNames
                findComponentFile Analysis analyzeComponent relativeToCwd
                path_join readFile fallbackToTraditionalIdentification
                scanDirectory sortByName interrupt Report cloneRepository
                analyzeLibraryInfo generateReport saveReport fuel config with
  | OutOfFuel =>
      exists projectDir,
        cloneRepository (repositoryUrl config) = Some projectDir
        /\ is_Some (analyzeLibraryInfo projectDir)
        /\ run_scan fuel config projectDir = OutOfFuel
  | Returned (ProcessExits status, steps) =>
      status = 130%nat /\ interrupt <> None
      /\ exists projectDir,
           cloneRepository (repositoryUrl config) = Some projectDir
           /\ steps = [Cloned projectDir]
  | Returned (outcome, steps) =>
      match cloneRepository (repositoryUrl config) with
      | None => outcome = Rejects /\ steps = []
      | Some projectDir =>
          head steps = Some (Cloned projectDir)
          /\ (projectDir <> "" -> last steps = Some (CleanedUp projectDir))
      end
  end.
Proof.
  unfold analyze.
  destruct (cloneRepository (repositoryUrl config)) as [projectDir|]; [|done].
  assert (Hclean : forall steps',
             head (cleanup projectDir (Cloned projectDir :: steps'))
             = Some (Cloned projectDir)
             /\ (projectDir <> ""
                 -> last (cleanup projectDir (Cloned projectDir :: steps'))
                    = Some (CleanedUp projectDir))).
  { intros steps'. split; [|apply cleanup_last].
    unfold cleanup. by destruct (falsy projectDir). }
  destruct (analyzeLibraryInfo projectDir) as [libraryInfo|] eqn:Hlib;
    [|apply (Hclean [])].
  destruct (run_scan fuel config projectDir) as [|[componentFiles|]] eqn:Hscan.
  - exists projectDir. rewrite Hlib. eauto.
  - destruct (analyzeComponents_returns componentFiles)
      as ([components|status] & log & -> & Hexit).
    + destruct (outputPath config) as [out|]; [|apply (Hclean [])].
      destruct (falsy out); [apply (Hclean [])|].
      destruct (saveReport _ out) as [filePath|];
        [apply (Hclean [Saved filePath])|apply (Hclean [])].
    + destruct (Hexit status eq_refl) as [-> ?]. eauto.
  - apply (Hclean []).
Qed.

End PipelineProperties.

Section CommandProperties.
Import Command.

Variable Report : Type.
Variable analyze : AnalysisConfig -> Pipeline.Outcome Report.
Variable generateMarkdownReport : Report -> option string -> option string.
Variable markdownPathOf : string -> string.
Variable requestCount totalTokens parserSize parserTotal : nat.




End CommandProperties.

(** ** The model client *)

Section ChatProperties.

Variable invoke : list Llm.Message -> option string.

Lemma ceilQuarter_bounds (a b : nat) :
  (Llm.ceilQuarter (a + b) <= Llm.ceilQuarter a + Llm.ceilQuarter b
   <= Llm.ceilQuarter (a + b) + 1)%nat.
Proof.
  unfold Llm.ceilQuarter.
  pose proof (Nat.div_mod_eq (a + b + 3) 4).
  pose proof (Nat.div_mod_eq (a + 3) 4).
  pose proof (Nat.div_mod_eq (b + 3) 4).
  pose proof (Nat.mod_upper_bound (a + b + 3) 4).
  pose proof (Nat.mod_upper_bound (a + 3) 4).
  pose proof (Nat.mod_upper_bound (b + 3) 4).
  lia.
Qed.

(** X27.  A successful chat counts one request and adds its total token
    estimate to the counter; the estimate of the total is at most the sum
    of the prompt and completion estimates, and at most one less.  A failed
    chat leaves both counters as they were. *)
Theorem chat_usage elapsed messages stats :
  match Llm.chat invoke elapsed messages stats with
  | (Some response, stats') =>
      exists u,
        Llm.usage response = Some u
        /\ (Llm.totalTokens u <= Llm.promptTokens u + Llm.completionTokens u
            <= Llm.totalTokens u + 1)%nat
        /\ Llm.requestCount stats' = S (Llm.requestCount stats)
        /\ Llm.tokensUsed stats' = (Llm.tokensUsed stats + Llm.totalTokens u)%nat
  | (None, stats') => stats' = stats
  end.
Proof.
  unfold Llm.chat. destruct (invoke messages) as [reply|]; [|done].
  eexists. split; [reflexivity|]. simpl.
  split; [apply ceilQuarter_bounds|done].
Qed.

End ChatProperties.

(** ** The cache *)

Section CacheProperties.

Variable generateCacheKey : list (string * string) -> string.
Variable path_join : list string -> string.

Lemma read_after_write kind maxDays now later key p m :
  Cache.enabled m = true ->
  Cache.read generateCacheKey path_join kind maxDays later key
             (Cache.write generateCacheKey path_join kind now key p m)
  = if (maxDays * Cache.msPerDay <? later - now)%Z
    then (None, Cache.mkManager (Cache.cacheDir m) true
                  (delete (Cache.cachePath generateCacheKey path_join m kind key)
                          (Cache.files m)))
    else (Some p, Cache.write generateCacheKey path_join kind now key p m).
Proof.
  intros He. unfold Cache.read, Cache.write. rewrite He. simpl.
  unfold Cache.cachePath at 1. simpl.
  fold (Cache.cachePath generateCacheKey path_join m kind key).
  rewrite lookup_insert_eq. simpl.
  destruct (_ <? _)%Z; [|done].
  unfold Cache.cachePath at 1. simpl.
  fold (Cache.cachePath generateCacheKey path_join m kind key).
  by rewrite delete_insert_eq.
Qed.

(** X28.  With the cache enabled, a component analysis that was cached is
    returned unchanged by getCachedComponent for the same name and code hash
    up to three days later, and the cache is left as it was; after more
    than three days nothing is returned, the file is removed, and every
    later lookup returns nothing as well. *)
Theorem cached_component_round_trip now later componentName codeHash info m :
  Cache.enabled m = true ->
  let m1 := Cache.cacheComponent generateCacheKey path_join
              now componentName codeHash info m in
  let r := Cache.getCachedComponent generateCacheKey path_join
              later componentName codeHash m1 in
  (later - now <= 3 * Cache.msPerDay -> r = (Some info, m1))%Z
  /\ (3 * Cache.msPerDay < later - now ->
      r.1 = None
      /\ forall again,
           (Cache.getCachedComponent generateCacheKey path_join
              again componentName codeHash r.2).1 = None)%Z.
Proof.
  intros He m1 r. subst m1 r.
  unfold Cache.getCachedComponent, Cache.cacheComponent.
  rewrite read_after_write by done.
  split; intros Ht.
  - destruct (Z.ltb_spec (3 * Cache.msPerDay) (later - now)); [lia|done].
  - destruct (Z.ltb_spec (3 * Cache.msPerDay) (later - now)); [|lia].
    split; [done|]. intros again. simpl.
    unfold Cache.read. simpl.
    unfold Cache.cachePath at 1. simpl.
    fold (Cache.cachePath generateCacheKey path_join m "components"
            (Cache.componentKey componentName codeHash)).
    by rewrite lookup_delete_eq.
Qed.

(** X29.  With the cache enabled, a library analysis that was cached is
    returned unchanged by getCachedLibrary for the same repository and
    package hash up to seven days later; after more than seven days nothing
    is returned, the file is removed, and every later lookup returns
    nothing as well. *)
Theorem cached_library_round_trip now later repositoryUrl packageJsonHash info m :
  Cache.enabled m = true ->
  let m1 := Cache.cacheLibrary generateCacheKey path_join
              now repositoryUrl packageJsonHash info m in
  let r := Cache.getCachedLibrary generateCacheKey path_join
              later repositoryUrl packageJsonHash m1 in
  (later - now <= 7 * Cache.msPerDay -> r = (Some info, m1))%Z
  /\ (7 * Cache.msPerDay < later - now ->
      r.1 = None
      /\ forall again,
           (Cache.getCachedLibrary generateCacheKey path_join
              again repositoryUrl packageJsonHash r.2).1 = None)%Z.
Proof.
  intros He m1 r. subst m1 r.
  unfold Cache.getCachedLibrary, Cache.cacheLibrary.
  rewrite read_after_write by done.
  split; intros Ht.
  - destruct (Z.ltb_spec (7 * Cache.msPerDay) (later - now)); [lia|done].
  - destruct (Z.ltb_spec (7 * Cache.msPerDay) (later - now)); [|lia].
    split; [done|]. intros again. simpl.
    unfold Cache.read. simpl.
    unfold Cache.cachePath at 1. simpl.
    fold (Cache.cachePath generateCacheKey path_join m "libraries"
            (Cache.libraryKey repositoryUrl packageJsonHash)).
    by rewrite lookup_delete_eq.
Qed.

End CacheProperties.

(** ** The related files of a component *)

Section RelatedFilesProperties.

Variable path_dirname : string -> string.
Variable path_resolve : string -> string -> string.
Variable path_basename : string -> string.

Lemma related_fold (allComponentFiles : list Component) deps acc
      (P : string -> Prop) :
  (forall c, In c allComponentFiles ->
             (String.length (c_code c) < 5000)%nat ->
             P (relatedSnippet path_basename (c_path c) (c_code c))) ->
  Forall P acc ->
  let out :=
    fold_left
      (fun relatedFiles depPath =>
         match find (fun c => String.eqb (c_path c) depPath) allComponentFiles with
         | Some relatedComponent =>
             if (String.length (c_code relatedComponent) <? 5000)%nat
             then (relatedFiles
                     ++ [relatedSnippet path_basename depPath
                                        (c_code relatedComponent)])%list
             else relatedFiles
         | None => relatedFiles
         end)
      deps acc in
  Forall P out /\ (length out <= length acc + length deps)%nat.
Proof.
  intros HP. revert acc. induction deps as [|d deps IH]; intros acc Hacc; simpl.
  - split; [done|lia].
  - destruct (find _ allComponentFiles) as [c|] eqn:Hfind.
    + apply find_some in Hfind as [Hin Hpath]. apply String.eqb_eq in Hpath.
      destruct (Nat.ltb_spec (String.length (c_code c)) 5000) as [Hlt|Hge].
      * destruct (IH (acc ++ [relatedSnippet path_basename d (c_code c)])%list)
          as [H1 H2].
        { apply Forall_app. split; [done|]. constructor; [|constructor].
          subst d. by apply HP. }
        split; [done|]. rewrite length_app in H2. simpl in H2. lia.
      * destruct (IH acc Hacc) as [H1 H2]. split; [done|lia].
    + destruct (IH acc Hacc) as [H1 H2]. split; [done|lia].
Qed.

Lemma related_files_limited currentFile allComponentFiles :
  let related :=
    getRelatedFiles path_dirname path_resolve path_basename
                    currentFile allComponentFiles in
  (length related <= 3)%nat
  /\ Forall (fun text =>
               exists c,
                 In c allComponentFiles
                 /\ (String.length (c_code c) < 5000)%nat
                 /\ text = "// " ++ path_basename (c_path c) ++ newline
                                 ++ Str.take 2000 (c_code c))
            related.
Proof.
  intros related. subst related. unfold getRelatedFiles.
  edestruct (related_fold allComponentFiles
               (firstn 3 (analyzeDependencies path_dirname path_resolve currentFile
                            (map c_file allComponentFiles)))
               []) as [H1 H2]; [| constructor |].
  2: { split; [|exact H1]. simpl in H2. rewrite length_firstn in H2. lia. }
  intros c Hin Hlt. by exists c.
Qed.

End RelatedFilesProperties.

(** ** The name of the clone *)

Section ProjectNameProperties.

Variable repositoryMatch : string -> option string.

Lemma cleaned_char c :
  Git.safeInName
    (Text.to_lower (if Git.keptInName c then c else "-"%char)) = true.
Proof.
  destruct c as [[] [] [] [] [] [] [] []]; vm_compute; reflexivity.
Qed.

Lemma cleanName_safe projectName :
  forallb Git.safeInName (Str.chars (Git.cleanName projectName)) = true.
Proof.
  unfold Git.cleanName. rewrite chars_of_chars, map_map.
  induction (Str.chars projectName) as [|c l IH]; [done|].
  simpl. by rewrite cleaned_char, IH.
Qed.

Lemma cleanName_length projectName :
  String.length (Git.cleanName projectName) = String.length projectName.
Proof.
  unfold Git.cleanName.
  rewrite <- (of_chars_chars projectName) at 2.
  generalize (Str.chars projectName). intros l.
  induction l as [|c l IH]; [done|]. simpl. by rewrite IH.
Qed.

(** X30.  The project name that names the clone's directory is made of
    lower-case ASCII letters, digits, hyphens and underscores only, whatever
    the URL; for a URL that mentions neither github.com nor gitlab.com it is
    not empty. *)
Theorem project_name_is_safe repositoryUrl :
  let projectName := Git.extractProjectName repositoryMatch repositoryUrl in
  forallb Git.safeInName (Str.chars projectName) = true
  /\ (Git.hosted repositoryUrl = false -> projectName <> "").
Proof.
  intros projectName. subst projectName. split; [apply cleanName_safe|].
  intros Hhosted Hempty. unfold Git.extractProjectName in Hempty.
  rewrite Hhosted in Hempty.
  apply (f_equal String.length) in Hempty. rewrite cleanName_length in Hempty.
  destruct (falsy _) eqn:Hf; [done|].
  apply falsy_false in Hf. destruct (Text.removeFirst _ _); done.
Qed.

End ProjectNameProperties.

(** ** The properties on sample data *)

Lemma pascal_names_pass_verb_patterns_witness :
  Forall (fun pattern => test pattern "GetStarted" = false) (firstn 2 utilPatterns).
Proof.
  apply (pascal_names_pass_verb_patterns "GetStarted").
  vm_compute. reflexivity.
Defined.

Lemma utility_endings_rejected_witness :
  isLikelyComponent ("Proto" ++ "type") "export { Prototype } from './proto';" = false.
Proof.
  apply (utility_endings_rejected "Proto" "type").
  - vm_compute. reflexivity.
  - vm_compute. reflexivity.
Defined.


Lemma batchAnalysis_zero_concurrency_witness :
  Batch.batchAnalysis Samples.insight Samples.repositories Samples.llmConfig
                      (Some (Batch.mkOptions None None (Some 0%nat))) 1000
  = OutOfFuel.
Proof.
  apply (batchAnalysis_zero_concurrency Samples.insight Samples.repositories
           Samples.llmConfig (Some (Batch.mkOptions None None (Some 0%nat))) 1000).
  - reflexivity.
  - discriminate.
Defined.

Lemma batch_output_collision_witness :
  exists config1 config2,
    Batch.configurations Samples.repositories Samples.llmConfig
      (Some (Batch.mkOptions (Some "out") None None)) !! 0%nat = Some config1
    /\ Batch.configurations Samples.repositories Samples.llmConfig
         (Some (Batch.mkOptions (Some "out") None None)) !! 1%nat = Some config2
    /\ outputPath config1 = Some "out/repo-0.json"
    /\ outputPath config2 = outputPath config1.
Proof.
  apply (batch_output_collision Samples.repositories Samples.llmConfig
           (Some (Batch.mkOptions (Some "out") None None)) 0 1
           (Batch.mkRepository "https://github.com/a/one" (Some "packages/ui") None)
           (Batch.mkRepository "https://github.com/a/two" None None)
           "out").
  - vm_compute. lia.
  - reflexivity.
  - reflexivity.
  - lia.
  - reflexivity.
  - reflexivity.
  - reflexivity.
  - reflexivity.
  - discriminate.
Defined.

Lemma generateComponentIndex_contents_witness :
  exists idx,
    Reporter.generateComponentIndex [Samples.button; Samples.layout] = Some idx
    /\ Reporter.byType_container idx = [Samples.layout]
    /\ Reporter.byType_normal idx = [Samples.button]
    /\ Reporter.byFeature idx !! "click" = Some [Samples.button; Samples.layout]
    /\ Reporter.byName idx !! "Layout" = Some Samples.layout.
Proof.
  destruct (Reporter.generateComponentIndex [Samples.button; Samples.layout])
    as [idx|] eqn:Hidx; [|vm_compute in Hidx; discriminate].
  exists idx. split; [reflexivity|].
  destruct (generateComponentIndex_contents
              [Samples.button; Samples.layout] idx Hidx)
    as (Hcontainer & Hnormal & Hfeature & Hname).
  split; [exact Hcontainer|]. split; [exact Hnormal|].
  split; [exact (Hfeature "click")|exact (Hname "Layout")].
Defined.

Lemma analyzeComponents_results_witness :
  exists log,
    analyzeComponents Posix.dirname Posix.resolve Posix.basename string
                      Demo.echoAnalyzer Demo.relativeToLib None Demo.fiveComponents
    = Returned
        (Returns (omap (analysisOf Posix.dirname Posix.resolve Posix.basename string
                                   Demo.echoAnalyzer Demo.relativeToLib
                                   Demo.fiveComponents)
                       (firstn maxComponents Demo.fiveComponents)),
         log).
Proof.
  apply (analyzeComponents_results Posix.dirname Posix.resolve Posix.basename
           string Demo.echoAnalyzer Demo.relativeToLib Demo.fiveComponents).
  intros code name context. discriminate.
Defined.

Lemma identified_from_index_witness :
  exists result,
    identifyComponentsFromIndex
      Demo.chainParse Posix.dirname Posix.resolve Demo.noNames Demo.noFile
      Samples.join (Samples.readFrom Demo.chainFiles) (fun _ => []) None
      3 "/lib" Demo.chainFiles
    = Returned result
    /\ (result = []
        \/ (NoDup (map id_name result)
            /\ Forall (fun x =>
                         isPascalCase (id_name x) = true
                         /\ isLikelyComponent (id_name x) (content Demo.chainA) = true
                         /\ findByPath (path (id_file x)) Demo.chainFiles
                            = Some (id_file x)
                         /\ In (id_file x) (id_dependencies x)) result)).
Proof.
  apply (identified_from_index
           Demo.chainParse Posix.dirname Posix.resolve Demo.noNames Demo.noFile
           Samples.join (Samples.readFrom Demo.chainFiles) (fun _ => []) None
           Demo.chainFiles 3 "/lib" (content Demo.chainA)
           [ExportNamedDeclaration KindValue [Demo.named "Button"]
                                   (Some "./components") []]).
  - vm_compute. reflexivity.
  - vm_compute. reflexivity.
  - apply expandsWithinb_true. vm_compute. reflexivity.
Defined.


Lemma cached_component_round_trip_witness :
  let m1 := Cache.cacheComponent Samples.cacheKey Samples.join
              1000 "Button" "0123456789abcdef" Samples.button Samples.emptyCache in
  let r := Cache.getCachedComponent Samples.cacheKey Samples.join
              (1000 + 2 * Cache.msPerDay) "Button" "0123456789abcdef" m1 in
  r = (Some Samples.button, m1).
Proof.
  intros m1 r.
  apply (cached_component_round_trip Samples.cacheKey Samples.join
           1000 (1000 + 2 * Cache.msPerDay) "Button" "0123456789abcdef"
           Samples.button Samples.emptyCache).
  - reflexivity.
  - vm_compute. discriminate.
Defined.

Lemma cached_library_round_trip_witness :
  let m1 := Cache.cacheLibrary Samples.cacheKey Samples.join
              1000 "https://github.com/a/one" "0123456789abcdef"
              Samples.library Samples.emptyCache in
  let r := Cache.getCachedLibrary Samples.cacheKey Samples.join
              (1000 + 8 * Cache.msPerDay) "https://github.com/a/one"
              "0123456789abcdef" m1 in
  r.1 = None.
Proof.
  intros m1 r.
  apply (cached_library_round_trip Samples.cacheKey Samples.join
           1000 (1000 + 8 * Cache.msPerDay) "https://github.com/a/one"
           "0123456789abcdef" Samples.library Samples.emptyCache).
  - reflexivity.
  - vm_compute. reflexivity.
Defined.
